(** * hipTextureMipmapObj1D: a shallow embedding of the 1D mipmap texture test

    Source: [catch/unit/texture/hipTextureMipmapObj1D.cc].

    The test allocates a mipmapped array, fills level 0 from host data,
    derives every further level on the device ([populateMipmaps] launching
    [populateMipmapNextLevelArray]), samples every level back through a
    mipmapped texture object ([getMipmap]) and compares what the device
    returned with a host-side reference ([verifyMipmapLevel]).

    Host code is embedded as functions into an error type ([outcome]); a
    kernel is embedded as the list of fetches and writes one thread
    performs, a launch as the events of all threads of the grid applied to
    device memory with bounds checks.  C++ [float] and [double] are IEEE
    binary32 and binary64 values of the standard library's [spec_float];
    fixed-width integers are [Z] with the wrap-around written out.

    Outside the file, and taken as parameters: the texture unit
    ([tex1D], [tex1DLod]), the runtime allocator, and the helpers of
    [hip_texture_helper.hh].  A device array is the list of its texels and
    reports its length as its width; the calls that release resources
    ([hipDestroyTextureObject], [hipFreeArray], [hipHostFree], ...) change
    nothing that is modelled. *)

From Stdlib Require Import ZArith Lia QArith Qround SpecFloat.
From stdpp Require Import base list.

Local Open Scope Z_scope.

(** ** Machine integers *)

Definition wrap32 (z : Z) : Z := z mod 2 ^ 32.
Definition wrap64 (z : Z) : Z := z mod 2 ^ 64.

(** Conversion of an [unsigned int] bit pattern to [int] (two's complement). *)
Definition to_int32 (z : Z) : Z :=
  let u := wrap32 z in if u <? 2 ^ 31 then u else u - 2 ^ 32.

Definition INT_MAX : Z := 2 ^ 31 - 1.
Definition SIZE_MAX : Z := 2 ^ 64 - 1.

(** ** Floating point: [float] is binary32, [double] is binary64 *)

Definition float := spec_float.

Definition f32_of_Z (z : Z) : float := binary_normalize 24 128 z 0 false.
Definition f64_of_Z (z : Z) : spec_float := binary_normalize 53 1024 z 0 false.

(** Widening [float] to [double] is exact, narrowing rounds to nearest even. *)
Definition f64_of_f32 (x : float) : spec_float :=
  match x with
  | S754_finite s m e => binary_normalize 53 1024 (cond_Zopp s (Zpos m)) e s
  | _ => x
  end.

Definition f32_of_f64 (x : spec_float) : float :=
  match x with
  | S754_finite s m e => binary_normalize 24 128 (cond_Zopp s (Zpos m)) e s
  | _ => x
  end.

Definition f32_add : float -> float -> float := SFadd 24 128.
Definition f32_mul : float -> float -> float := SFmul 24 128.
Definition f64_div : spec_float -> spec_float -> spec_float := SFdiv 53 1024.

(** The exact rational value of a finite float, in lowest terms. *)
Definition SF2Q (x : spec_float) : option Q :=
  match x with
  | S754_zero _ => Some 0%Q
  | S754_finite s m e =>
      let mag := match e with
                 | Zneg p => Qmake (Zpos m) (2 ^ p)%positive
                 | _ => inject_Z (Zpos m * 2 ^ e)
                 end in
      Some (Qred (if s then Qopp mag else mag))
  | _ => None
  end.

(** ** The HIP texture API types the test uses *)

Inductive hipTextureReadMode := hipReadModeElementType | hipReadModeNormalizedFloat.
Inductive hipTextureFilterMode := hipFilterModePoint | hipFilterModeLinear.
Inductive hipTextureAddressMode :=
  hipAddressModeWrap | hipAddressModeClamp | hipAddressModeMirror | hipAddressModeBorder.

Record hipExtent := mk_hipExtent { ext_width : Z; ext_height : Z; ext_depth : Z }.

Record hipTextureDesc := mk_hipTextureDesc {
  addressMode0 : hipTextureAddressMode;
  addressMode1 : hipTextureAddressMode;
  addressMode2 : hipTextureAddressMode;
  filterMode : hipTextureFilterMode;
  readMode : hipTextureReadMode;
  normalizedCoords : Z;
  mipmapFilterMode : hipTextureFilterMode;
  maxMipmapLevelClamp : float
}.

(** [memset(&texDescr, 0, sizeof(hipTextureDesc))]: every enumeration field
    holds its zero enumerator. *)
Definition hipTextureDesc_zero : hipTextureDesc :=
  {| addressMode0 := hipAddressModeWrap; addressMode1 := hipAddressModeWrap;
     addressMode2 := hipAddressModeWrap; filterMode := hipFilterModePoint;
     readMode := hipReadModeElementType; normalizedCoords := 0;
     mipmapFilterMode := hipFilterModePoint;
     maxMipmapLevelClamp := S754_zero false |}.

(** ** Pixel values

    A texel of any of the instantiated types ([char] ... [float4]) is a
    tuple of integer or floating-point channels. *)

Inductive channel := IntChannel (v : Z) | FloatChannel (v : float).
Abbreviation PixelValue := (list channel).

(** A one-dimensional [hipArray_t] is the sequence of its texels; the
    mipmapped array is the sequence of its level arrays. *)
Abbreviation hipArray_t := (list PixelValue).
Abbreviation hipMipmappedArray_t := (list hipArray_t).

Inductive hipResourceDesc :=
| hipResourceTypeArray (array : hipArray_t)
| hipResourceTypeMipmappedArray (mipmap : hipMipmappedArray_t).

Record hipTextureObject_t := mk_tex { texRes : hipResourceDesc; texDescr : hipTextureDesc }.

(** [std::vector<mipmapLevelArray<T>>] elements: host copy of a level and
    its extent. *)
Record mipmapLevelArray := mk_level { data : list PixelValue; e : hipExtent }.

(** The template parameter [T]: a channel type and a vector width. *)
Inductive channelType := Char | UChar | Short | UShort | Int | UInt | Float.
Inductive vectorWidth := Scalar | Vec1 | Vec2 | Vec4.
Record texelType := mk_T { chanType : channelType; lanes : vectorWidth }.

Definition channel_bytes (c : channelType) : Z :=
  match c with
  | Char | UChar => 1
  | Short | UShort => 2
  | Int | UInt | Float => 4
  end.

Definition lane_count (v : vectorWidth) : Z :=
  match v with Scalar | Vec1 => 1 | Vec2 => 2 | Vec4 => 4 end.

Definition sizeof (T : texelType) : Z := channel_bytes (chanType T) * lane_count (lanes T).

Definition isFloat (T : texelType) : bool :=
  match chanType T with Float => true | _ => false end.

(** The value [memset(..., 0, ...)] leaves in a texel of type [T]. *)
Definition zero_channel (c : channelType) : channel :=
  match c with Float => FloatChannel (S754_zero false) | _ => IntChannel 0 end.

Definition zero_texel (T : texelType) : PixelValue :=
  replicate (Z.to_nat (lane_count (lanes T))) (zero_channel (chanType T)).

(** ** Outcomes of host code

    [REQUIRE(false)] and a failing [HIP_CHECK] end the running test case;
    each failure keeps what the code printed before it. *)

Record mismatch := mk_mismatch {
  mm_level : float;
  mm_index : Z;
  mm_coord : float;
  mm_gpuOutput : PixelValue;
  mm_cpuExpected : PixelValue;
  mm_data : PixelValue
}.

Inductive hipCall :=
| hipGetMipmappedArrayLevel_call (level : Z)
| hipMallocMipmappedArray_call
| hipMemcpy3D_call
| hipDeviceSynchronize_call.

Inductive failure :=
| LevelSizeMismatch (level reported expected : Z)
| NextLevelSizeMismatch (level reported expected : Z)
| MaxLevelsMismatch (maxLevels size : Z)
| SamplingMismatch (m : mismatch)
| HipCheckFailed (call : hipCall)
| HostOutOfBounds (index : Z).

Inductive outcome (A : Type) :=
| Done (a : A)
| Failed (f : failure)
| OutOfFuel.
Arguments Done {A} a.
Arguments Failed {A} f.
Arguments OutOfFuel {A}.

#[global] Instance outcome_ret : MRet outcome := fun A a => Done a.
#[global] Instance outcome_bind : MBind outcome := fun A B k m =>
  match m with
  | Done a => k a
  | Failed f => Failed f
  | OutOfFuel => OutOfFuel
  end.

Definition HIP_CHECK {A} (call : hipCall) (r : option A) : outcome A :=
  match r with Some a => Done a | None => Failed (HipCheckFailed call) end.

(** ** Device side *)

(** What one thread does to the outside world. *)
Inductive event :=
| ev_tex1D (texIn : hipTextureObject_t) (coord : float)
| ev_tex1DLod (tex : hipTextureObject_t) (coord lod : float)
| ev_surf1Dwrite (t : PixelValue) (x : Z)
| ev_store (x : Z) (t : PixelValue).

(** Memory a launch can write: the array behind the surface object and the
    host-visible buffer [data] ([None] for [nullptr]). *)
Record devmem := mk_devmem { surfArray : hipArray_t; dataBuf : option (list PixelValue) }.

(** [int x = blockIdx.x * blockDim.x + threadIdx.x]: unsigned 32-bit
    arithmetic, then converted to [int]. *)
Definition thread_x (blockIdx blockDim threadIdx : Z) : Z :=
  to_int32 (wrap32 (wrap32 (blockIdx * blockDim) + threadIdx)).

(** [float px = 1.0 / float(width)]: the quotient is taken in [double] and
    narrowed. *)
Definition px (width : Z) : float :=
  f32_of_f64 (f64_div (f64_of_Z 1) (f64_of_f32 (f32_of_Z width))).

(** ** The reference model of the specification

    The addressing resolver, the normalised-float conversion and the
    comparison rule are implemented in [hip_texture_helper.hh]; the
    definitions of this part follow the specification instead. *)

(** Modelled from the spec: the two addressing modes of the Addressing
    Resolver, whose code is in [hip_texture_helper.hh]. *)
Inductive AddressingMode := Clamp | Border.

(** Modelled from the spec: the Addressing Resolver (the address helper of
    [hip_texture_helper.hh] is not in this file).  Clamp returns
    [max(0, min(index, width-1))] with [useBorder = false]; Border returns
    the index when it lies in [[0, width)] and asks for the border value
    otherwise. *)
Definition resolve (index width : Z) (mode : AddressingMode) : option Z * bool :=
  match mode with
  | Clamp => (Some (Z.max 0 (Z.min index (width - 1))), false)
  | Border =>
      if (0 <=? index) && (index <? width) then (Some index, false) else (None, true)
  end.

(** Modelled from the spec: the [NormalizedFloat] read of an unsigned
    integer channel of [bits] bits ([getNormalizedFloatType] of
    [hip_texture_helper.hh] is not in this file): the stored range
    [[0, 2^bits - 1]] is rescaled to the float range [[0, 1]]. *)
Definition normalized_unsigned (bits v : Z) : float :=
  SFdiv 24 128 (f32_of_Z v) (f32_of_Z (2 ^ bits - 1)).

(** Modelled from the spec: the read leaves a float channel as it is. *)
Definition normalized_channel (bits : Z) (c : channel) : channel :=
  match c with
  | IntChannel v => FloatChannel (normalized_unsigned bits v)
  | FloatChannel v => FloatChannel v
  end.

(** Modelled from the spec: [getNormalizedFloatType] on texels of 8-bit
    unsigned channels, channel by channel. *)
Definition getNormalizedFloatType_uchar (T : texelType) (p : PixelValue) : PixelValue :=
  normalized_channel 8 <$> p.

(** Modelled from the spec: the approximate-equality rule of the
    Verification Driver on one channel ([hipTextureSamplingVerify] of
    [hip_texture_helper.hh] is not in this file): exact equality for integer
    storage, tolerance-bounded equality for floating-point and normalised
    storage.  The specification leaves the tolerance open. *)
Definition channel_approx_equal (tolerance : float) (a b : channel) : bool :=
  match a, b with
  | IntChannel x, IntChannel y => x =? y
  | FloatChannel x, FloatChannel y => SFleb (SFabs (SFsub 24 128 x y)) tolerance
  | _, _ => false
  end.

(** Modelled from the spec: the same rule on a pixel, channel by channel. *)
Fixpoint approx_equal (tolerance : float) (a b : PixelValue) : bool :=
  match a, b with
  | [], [] => true
  | x :: a', y :: b' => channel_approx_equal tolerance x y && approx_equal tolerance a' b'
  | _, _ => false
  end.

Definition integer_storage (p : PixelValue) : Prop :=
  Forall (fun c => exists v, c = IntChannel v) p.

Definition float_storage (p : PixelValue) : Prop :=
  Forall (fun c => exists v, c = FloatChannel v) p.


(** Modelled from the spec: the two halves of the rule as propositions.
    Exact equality is the rule of integer storage; tolerance-bounded
    equality, channel by channel, is the rule of floating-point and of
    normalised storage. *)
Definition exactly_equal (a b : PixelValue) : Prop :=
  integer_storage a /\ a = b.

Definition tolerance_equal (tolerance : float) (a b : PixelValue) : Prop :=
  Forall2 (fun x y => exists u v, x = FloatChannel u /\ y = FloatChannel v /\
             SFleb (SFabs (SFsub 24 128 u v)) tolerance = true) a b.

Definition is_integer_channel (c : channel) : bool :=
  match c with IntChannel _ => true | FloatChannel _ => false end.

Definition is_float_channel (c : channel) : bool :=
  match c with FloatChannel _ => true | IntChannel _ => false end.

(** Modelled from the spec: the rule as [hipTextureSamplingVerify<U, ...>]
    applies it to two samples of the type [U] a level is verified in.  [U]
    is an integer type for integer storage read as stored, where the samples
    must be equal; it is a float type for floating-point storage and for a
    normalised read, where every channel must agree within the tolerance. *)
Definition sampling_verify (tolerance : float) (U : texelType)
    (filterMode : hipTextureFilterMode) (a b : PixelValue) : bool :=
  if isFloat U
  then forallb is_float_channel a && approx_equal tolerance a b
  else forallb is_integer_channel a && approx_equal tolerance a b.
Section Mipmap1D.

(** The texture unit of the device, and the conversion helper of
    [hip_texture_helper.hh] the kernel calls, are outside this file. *)
Variable tex1D : hipTextureObject_t -> float -> PixelValue.
Variable tex1D_float4 : hipTextureObject_t -> float -> PixelValue.
Variable tex1DLod : hipTextureObject_t -> float -> float -> PixelValue.
Variable getTypeFromNormalizedFloat : texelType -> PixelValue -> PixelValue.

(** The kernels, as built with image support: what thread
    [(blockIdx, threadIdx)] of a block of [blockDim] threads does. *)
Definition populateMipmapNextLevelArray (T : texelType) (readMode : hipTextureReadMode)
    (texIn : hipTextureObject_t) (width : Z) (data : bool)
    (blockIdx blockDim threadIdx : Z) : list event :=
  let x := thread_x blockIdx blockDim threadIdx in
  let px := px width in
  if wrap32 x <? width then
    match readMode with
    | hipReadModeElementType =>
        let t := tex1D texIn (f32_mul (f32_of_Z x) px) in
        [ev_tex1D texIn (f32_mul (f32_of_Z x) px);
         ev_surf1Dwrite t (to_int32 (x * sizeof T))]
        ++ (if data then [ev_store x t] else [])
    | hipReadModeNormalizedFloat =>
        let t := tex1D_float4 texIn (f32_mul (f32_of_Z x) px) in
        let tc := getTypeFromNormalizedFloat T t in
        [ev_tex1D texIn (f32_mul (f32_of_Z x) px);
         ev_surf1Dwrite tc (to_int32 (x * sizeof T))]
        ++ (if data then [ev_store x tc] else [])
    end
  else [].

Definition getMipmap (texMipmap : hipTextureObject_t) (width : Z) (offsetX lod : float)
    (data : bool) (blockIdx blockDim threadIdx : Z) : list event :=
  let x := thread_x blockIdx blockDim threadIdx in
  let px := px width in
  if wrap32 x <? width then
    let t := tex1DLod texMipmap (f32_mul (f32_add (f32_of_Z x) offsetX) px) lod in
    ev_tex1DLod texMipmap (f32_mul (f32_add (f32_of_Z x) offsetX) px) lod
    :: (if data then [ev_store x t] else [])
  else [].

(** A launch [kernel<<<gridSize, blockSize>>>] with one-dimensional grid and
    block: every thread of every block runs the kernel.  The events are
    listed block after block, thread after thread; the threads of the two
    kernels write disjoint cells, and any other interleaving leaves the
    same memory (lemmas [launch_populate_any_schedule] and
    [launch_getMipmap_any_schedule]). *)
Definition launch (kernel : Z -> Z -> Z -> list event) (gridSize blockSize : Z) : list event :=
  b ← seqZ 0 gridSize; t ← seqZ 0 blockSize; kernel b blockSize t.

(** A surface write addresses the array by byte offset; a store indexes the
    buffer.  The source does not check either access; here an access outside
    the object ends the launch ([None]), so that a launch that returns a
    memory has made none. *)
Definition apply_event (T : texelType) (m : devmem) (ev : event) : option devmem :=
  match ev with
  | ev_tex1D _ _ | ev_tex1DLod _ _ _ => Some m
  | ev_surf1Dwrite t x =>
      if (0 <=? x) && (x mod sizeof T =? 0) && (x / sizeof T <? Z.of_nat (length (surfArray m)))
      then Some (mk_devmem (<[Z.to_nat (x / sizeof T) := t]> (surfArray m)) (dataBuf m))
      else None
  | ev_store x t =>
      match dataBuf m with
      | Some d =>
          if (0 <=? x) && (x <? Z.of_nat (length d))
          then Some (mk_devmem (surfArray m) (Some (<[Z.to_nat x := t]> d)))
          else None
      | None => None
      end
  end.

Fixpoint run_events (T : texelType) (evs : list event) (m : devmem) : option devmem :=
  match evs with
  | [] => Some m
  | ev :: evs' =>
      match apply_event T m ev with
      | Some m' => run_events T evs' m'
      | None => None
      end
  end.


(** ** Host side *)

(** The runtime calls the host code makes.  A level of a mipmapped array is
    looked up by index and the call fails when the level does not exist;
    [hipArrayGetInfo] reports the extent of the array it is given. *)
Definition hipGetMipmappedArrayLevel (mipmapArray : hipMipmappedArray_t) (level : Z)
    : outcome hipArray_t :=
  HIP_CHECK (hipGetMipmappedArrayLevel_call level) (mipmapArray !! Z.to_nat level).

Definition hipArrayGetInfo (array : hipArray_t) : hipExtent :=
  mk_hipExtent (Z.of_nat (length array)) 0 0.

(** [hipHostMalloc(&p, size)] followed by [memset(p, 0, size)] for an array
    of [T]. *)
Definition hostZeroed (T : texelType) (size : Z) : list PixelValue :=
  replicate (Z.to_nat (size / sizeof T)) (zero_texel T).

(** Launch, [hipDeviceSynchronize] and [hipGetLastError]: a faulting kernel
    surfaces as a failed check. *)
Definition launch_sync (T : texelType) (kernel : Z -> Z -> Z -> list event)
    (gridSize blockSize : Z) (m : devmem) : outcome devmem :=
  HIP_CHECK hipDeviceSynchronize_call (run_events T (launch kernel gridSize blockSize) m).

(** [dim3 gridSize((width + blockSize.x - 1) / blockSize.x, 1, 1)] with
    [width] a [size_t] and the grid extent a 32-bit unsigned. *)
Definition blockSize_x : Z := 16.
Definition gridSize_x (width : Z) : Z := wrap32 (wrap64 (width + blockSize_x - 1) / blockSize_x).

(** The texture descriptor [populateMipmaps] builds for the source level. *)
Definition populate_texDescr (readMode : hipTextureReadMode)
    (filterMode : hipTextureFilterMode) (addressMode : hipTextureAddressMode) : hipTextureDesc :=
  {| addressMode0 := addressMode; addressMode1 := addressMode; addressMode2 := addressMode;
     filterMode := filterMode; readMode := readMode; normalizedCoords := 1;
     mipmapFilterMode := mipmapFilterMode hipTextureDesc_zero;
     maxMipmapLevelClamp := maxMipmapLevelClamp hipTextureDesc_zero |}.

(** [width = width >> 1 ? width >> 1 : 1]. *)
Definition next_width (width : Z) : Z :=
  if negb (Z.shiftr width 1 =? 0) then Z.shiftr width 1 else 1.

(** One pass through the body of the [while (width != 1)] loop of
    [populateMipmaps]: the new device arrays, [width], [level] and
    [mipmapData].  Of the runtime calls under [HIP_CHECK], the two level
    lookups can fail, and the synchronisation fails when the launch made an
    access out of range; [hipArrayGetInfo], the creation of the texture and
    surface objects, [hipHostMalloc], [hipGetLastError] and the release
    calls are taken to return [hipSuccess]. *)
Definition populateMipmaps_body (T : texelType) (readMode : hipTextureReadMode)
    (filterMode : hipTextureFilterMode) (addressMode : hipTextureAddressMode)
    (mipmapArray : hipMipmappedArray_t) (width level : Z)
    (mipmapData : list mipmapLevelArray)
    : outcome (hipMipmappedArray_t * Z * Z * list mipmapLevelArray) :=
  levelArray ← hipGetMipmappedArrayLevel mipmapArray level;
  nextLevelArray ← hipGetMipmappedArrayLevel mipmapArray (wrap32 (level + 1));
  let levelArraySize := hipArrayGetInfo levelArray in
  if negb (ext_width levelArraySize =? width)
  then Failed (LevelSizeMismatch level (ext_width levelArraySize) width) else
  let width := next_width width in
  let nextLevelArraySize := hipArrayGetInfo nextLevelArray in
  if negb (ext_width nextLevelArraySize =? width)
  then Failed (NextLevelSizeMismatch (wrap32 (level + 1)) (ext_width nextLevelArraySize) width) else
  let texIn := mk_tex (hipResourceTypeArray levelArray)
                      (populate_texDescr readMode filterMode addressMode) in
  let size := wrap64 (width * sizeof T) in
  let data0 := hostZeroed T size in
  m ← launch_sync T (populateMipmapNextLevelArray T readMode texIn (wrap32 width) true)
        (gridSize_x width) blockSize_x (mk_devmem nextLevelArray (Some data0));
  let mipmapArray := <[Z.to_nat (wrap32 (level + 1)) := surfArray m]> mipmapArray in
  let data := mk_level (default [] (dataBuf m)) (mk_hipExtent width 0 0) in
  Done (mipmapArray, width, wrap32 (level + 1), mipmapData ++ [data]).

(** The loop itself; [fuel] bounds the number of tests of its condition. *)
Fixpoint populateMipmaps_loop (fuel : nat) (T : texelType) (readMode : hipTextureReadMode)
    (filterMode : hipTextureFilterMode) (addressMode : hipTextureAddressMode)
    (mipmapArray : hipMipmappedArray_t) (width level : Z)
    (mipmapData : list mipmapLevelArray)
    : outcome (hipMipmappedArray_t * list mipmapLevelArray) :=
  match fuel with
  | O => OutOfFuel
  | S fuel' =>
    if width =? 1 then Done (mipmapArray, mipmapData) else
    '(mipmapArray, width, level, mipmapData) ←
       populateMipmaps_body T readMode filterMode addressMode
         mipmapArray width level mipmapData;
    populateMipmaps_loop fuel' T readMode filterMode addressMode
      mipmapArray width level mipmapData
  end.

(** A [size_t] halves to 1 in at most 63 steps, so 65 tests of the loop
    condition are never used up. *)
Definition populateMipmaps (T : texelType) (readMode : hipTextureReadMode)
    (filterMode : hipTextureFilterMode) (addressMode : hipTextureAddressMode)
    (mipmapArray : hipMipmappedArray_t) (size : hipExtent)
    (mipmapData : list mipmapLevelArray)
    : outcome (hipMipmappedArray_t * list mipmapLevelArray) :=
  populateMipmaps_loop 65 T readMode filterMode addressMode
    mipmapArray (ext_width size) 0 mipmapData.

(** Helpers of [hip_texture_helper.hh] and [hip_test_common.hh] the host
    code calls, the random initialiser and the runtime allocator are outside
    this file. *)
Variable getExpectedValue :
  texelType -> hipTextureAddressMode -> hipTextureFilterMode ->
  Z -> float -> list PixelValue -> PixelValue.
Variable hipTextureSamplingVerify :
  texelType -> hipTextureFilterMode -> PixelValue -> PixelValue -> bool.
Variable getNormalizedFloatType : texelType -> PixelValue -> PixelValue.
Variable initVal : texelType -> Z -> PixelValue.
Variable hipMallocMipmappedArray :
  texelType -> hipExtent -> Z -> option hipMipmappedArray_t.

(** The [for (unsigned int i = 0; i < width; i++)] loop of
    [verifyMipmapLevel], over the indices still to visit.  [printLog] is
    [false], so a matching texel prints nothing. *)
Fixpoint verify_loop (T : texelType) (filterMode : hipTextureFilterMode)
    (addressMode : hipTextureAddressMode) (data hOutput : list PixelValue)
    (width : Z) (level offsetX : float) (todo : list Z) : outcome unit :=
  match todo with
  | [] => Done ()
  | i :: todo' =>
    let cpuExpected :=
      getExpectedValue T addressMode filterMode width (f32_add (f32_of_Z i) offsetX) data in
    match hOutput !! Z.to_nat i with
    | None => Failed (HostOutOfBounds i)
    | Some gpuOutput =>
      let matched := hipTextureSamplingVerify T filterMode gpuOutput cpuExpected in
      if negb matched then
        match data !! Z.to_nat i with
        | None => Failed (HostOutOfBounds i)
        | Some d =>
            Failed (SamplingMismatch
              {| mm_level := level; mm_index := i;
                 mm_coord := f32_add (f32_of_Z i) offsetX;
                 mm_gpuOutput := gpuOutput; mm_cpuExpected := cpuExpected;
                 mm_data := d |})
        end
      else verify_loop T filterMode addressMode data hOutput width level offsetX todo'
    end
  end.

(** [verifyMipmapLevel]: the sampling launch into a zeroed [hOutput], then
    the comparison loop.  [hipHostMalloc], [hipGetLastError] and
    [hipHostFree] are taken to return [hipSuccess]. *)
Definition verifyMipmapLevel (T : texelType) (filterMode : hipTextureFilterMode)
    (addressMode : hipTextureAddressMode) (texMipmap : hipTextureObject_t)
    (data : list PixelValue) (width : Z) (level offsetX : float) : outcome unit :=
  let size := wrap64 (width * sizeof T) in
  let hOutput := hostZeroed T size in
  m ← launch_sync T (getMipmap texMipmap (wrap32 width) offsetX level true)
        (gridSize_x width) blockSize_x (mk_devmem [] (Some hOutput));
  let hOutput := default [] (dataBuf m) in
  verify_loop T filterMode addressMode data hOutput width level offsetX (seqZ 0 width).

(** The type [getNormalizedFloatType] returns for a texel of type [T]: the
    float vector of the same width. *)
Definition TargetType (T : texelType) : texelType := mk_T Float (lanes T).

(** [fData[i] = getNormalizedFloatType<T>(data.data[i])] for every
    [i < data.e.width]. *)
Definition normalizedLevel (T : texelType) (d : mipmapLevelArray) : list PixelValue :=
  getNormalizedFloatType T <$> take (Z.to_nat (ext_width (e d))) (data d).

(** One pass through the body of the
    [for (level = 0; level < mipmapData.size(); level++)] loop of
    [testMipmapTextureObj]: the level is verified as stored, or as the
    floats a normalised read returns. *)
Definition verify_level (T : texelType) (readMode : hipTextureReadMode)
    (filterMode : hipTextureFilterMode) (addressMode : hipTextureAddressMode)
    (texMipmap : hipTextureObject_t) (offsetX : float) (level : Z)
    (d : mipmapLevelArray) : outcome unit :=
  match readMode with
  | hipReadModeNormalizedFloat =>
      let fData := normalizedLevel T d in
      verifyMipmapLevel (TargetType T) filterMode addressMode texMipmap
        fData (ext_width (e d)) (f32_of_Z level) offsetX
  | hipReadModeElementType =>
      verifyMipmapLevel T filterMode addressMode texMipmap
        (data d) (ext_width (e d)) (f32_of_Z level) offsetX
  end.

(** The loop itself, over the levels still to visit. *)
Fixpoint verify_levels (T : texelType) (readMode : hipTextureReadMode)
    (filterMode : hipTextureFilterMode) (addressMode : hipTextureAddressMode)
    (texMipmap : hipTextureObject_t) (offsetX : float) (level : Z)
    (mipmapData : list mipmapLevelArray) : outcome unit :=
  match mipmapData with
  | [] => Done ()
  | d :: rest =>
    _ ← verify_level T readMode filterMode addressMode texMipmap offsetX level d;
    verify_levels T readMode filterMode addressMode texMipmap offsetX (wrap32 (level + 1)) rest
  end.

(** [const unsigned int maxLevels = 1 + std::log2(width)]: the sum is a
    [double] truncated to 32 bits.  Below [2^32] a width is an exact
    [double] and its logarithm is far enough from the next integer for the
    truncation to be [1 + floor(log2 width)]; statements about [maxLevels]
    are made for such widths only. *)
Definition maxLevels (width : Z) : Z := wrap32 (1 + Z.log2 width).

(** Level 0 as the initialisation loop leaves it: a smooth ramp for float
    texels under linear filtering, [initVal] otherwise. *)
Definition initial_texel (T : texelType) (filterMode : hipTextureFilterMode)
    (width i : Z) : PixelValue :=
  match isFloat T, filterMode with
  | true, hipFilterModeLinear =>
      let fi := f32_of_Z i in
      let v := f32_mul fi (f32_add (SFsub 24 128 fi (f32_of_Z width)) (f32_of_Z 1)) in
      replicate (Z.to_nat (lane_count (lanes T))) (FloatChannel v)
  | _, _ => initVal T i
  end.

(** [hipMemcpy3D] of [width] texels into level 0 of the mipmapped array. *)
Definition hipMemcpy3D (src : list PixelValue) (width : Z) (mipmapArray : hipMipmappedArray_t)
    : outcome hipMipmappedArray_t :=
  levelArray ← hipGetMipmappedArrayLevel mipmapArray 0;
  if width <=? Z.of_nat (length levelArray)
  then Done (<[0%nat := take (Z.to_nat width) src ++ drop (Z.to_nat width) levelArray]> mipmapArray)
  else Failed (HipCheckFailed hipMemcpy3D_call).

(** The texture descriptor of the mipmapped texture object. *)
Definition mipmap_texDescr (readMode : hipTextureReadMode)
    (filterMode : hipTextureFilterMode) (addressMode : hipTextureAddressMode)
    (maxLevels : Z) : hipTextureDesc :=
  {| addressMode0 := addressMode; addressMode1 := addressMode; addressMode2 := addressMode;
     filterMode := filterMode; readMode := readMode; normalizedCoords := 1;
     mipmapFilterMode := filterMode;
     maxMipmapLevelClamp := f32_of_Z (wrap32 (maxLevels - 1)) |}.

(** [testMipmapTextureObj].  The allocation of the mipmapped array, the
    lookup of level 0 and the upload can fail; [hipHostMalloc],
    [hipCreateTextureObject] and the release calls are taken to return
    [hipSuccess]. *)
Definition testMipmapTextureObj (T : texelType) (readMode : hipTextureReadMode)
    (filterMode : hipTextureFilterMode) (addressMode : hipTextureAddressMode)
    (width : Z) (offsetX : float) : outcome unit :=
  let size := wrap64 (width * sizeof T) in
  let texels := initial_texel T filterMode width <$> seqZ 0 width in
  let data := mk_level texels (mk_hipExtent width 0 0) in
  let mipmapData := [data] in
  let maxLevels := maxLevels width in
  let extent := mk_hipExtent width 0 0 in
  mipmapArray ← HIP_CHECK hipMallocMipmappedArray_call
                  (hipMallocMipmappedArray T extent maxLevels);
  mipmapArray ← hipMemcpy3D texels width mipmapArray;
  '(mipmapArray, mipmapData) ←
     populateMipmaps T readMode filterMode addressMode mipmapArray extent mipmapData;
  if negb (maxLevels =? Z.of_nat (length mipmapData))
  then Failed (MaxLevelsMismatch maxLevels (Z.of_nat (length mipmapData))) else
  let texMipmap := mk_tex (hipResourceTypeMipmappedArray mipmapArray)
                          (mipmap_texDescr readMode filterMode addressMode maxLevels) in
  verify_levels T readMode filterMode addressMode texMipmap offsetX 0 mipmapData.

(** ** Vocabulary of the statements *)

Definition level_widths (md : list mipmapLevelArray) : list Z :=
  (fun d => ext_width (e d)) <$> md.

(** The widths the halving rule gives to the [n] levels after one of width
    [width]. *)
Fixpoint widths_from (width : Z) (n : nat) : list Z :=
  match n with
  | O => []
  | S n' => next_width width :: widths_from (next_width width) n'
  end.

(** The coordinate thread [x] of [populateMipmapNextLevelArray] fetches at,
    and the texel it writes. *)
Definition populate_coord (width x : Z) : float := f32_mul (f32_of_Z x) (px width).

Definition populate_texel (T : texelType) (readMode : hipTextureReadMode)
    (texIn : hipTextureObject_t) (width x : Z) : PixelValue :=
  match readMode with
  | hipReadModeElementType => tex1D texIn (populate_coord width x)
  | hipReadModeNormalizedFloat =>
      getTypeFromNormalizedFloat T (tex1D_float4 texIn (populate_coord width x))
  end.

Definition populate_events (T : texelType) (readMode : hipTextureReadMode)
    (texIn : hipTextureObject_t) (width x : Z) : list event :=
  if x <? width then
    [ev_tex1D texIn (populate_coord width x);
     ev_surf1Dwrite (populate_texel T readMode texIn width x) (x * sizeof T);
     ev_store x (populate_texel T readMode texIn width x)]
  else [].

(** The coordinate thread [x] of [getMipmap] samples at, and what it
    records. *)
Definition getMipmap_coord (width : Z) (offsetX : float) (x : Z) : float :=
  f32_mul (f32_add (f32_of_Z x) offsetX) (px width).

Definition getMipmap_texel (texMipmap : hipTextureObject_t) (width : Z)
    (offsetX lod : float) (x : Z) : PixelValue :=
  tex1DLod texMipmap (getMipmap_coord width offsetX x) lod.

Definition getMipmap_events (texMipmap : hipTextureObject_t) (width : Z)
    (offsetX lod : float) (x : Z) : list event :=
  if x <? width then
    [ev_tex1DLod texMipmap (getMipmap_coord width offsetX x) lod;
     ev_store x (getMipmap_texel texMipmap width offsetX lod x)]
  else [].

(** A write stays inside a surface of [surfWidth] texels and a buffer of
    [dataWidth] texels. *)
Definition in_bounds (T : texelType) (surfWidth dataWidth : Z) (ev : event) : bool :=
  match ev with
  | ev_surf1Dwrite _ x =>
      (0 <=? x) && (x mod sizeof T =? 0) && (x / sizeof T <? surfWidth)
  | ev_store x _ => (0 <=? x) && (x <? dataWidth)
  | _ => true
  end.

(** The cell a write touches: of the surface ([true]) or of the buffer
    ([false]). *)
Definition cell (T : texelType) (ev : event) : option (bool * nat) :=
  match ev with
  | ev_surf1Dwrite _ x => Some (true, Z.to_nat (x / sizeof T))
  | ev_store x _ => Some (false, Z.to_nat x)
  | _ => None
  end.

(** The width the halving rule gives level [k] of a chain whose base has
    width [baseWidth]. *)
Definition level_width (baseWidth : Z) (k : nat) : Z := Nat.iter k next_width baseWidth.

(** The runtime allocated the levels the loop visits from [level] on with
    the widths of the halving rule. *)
Definition allocated_by_halving (mipmapArray : hipMipmappedArray_t) (width level : Z) : Prop :=
  forall i : nat, Z.of_nat i <= Z.log2 width ->
    exists a, mipmapArray !! (Z.to_nat level + i)%nat = Some a /\
              Z.of_nat (length a) = level_width width i.

(** A buffer whose first [n] cells hold [f 0 .. f (n-1)] and whose other
    cells are those of [l]. *)
Definition filled {A} (f : Z -> A) (n : nat) (l : list A) : list A :=
  (f <$> seqZ 0 (Z.of_nat n)) ++ drop n l.

(** What [verifyMipmapLevel] compares at index [i]: the sample the device
    returned and the value the reference predicts. *)
Definition observed (texMipmap : hipTextureObject_t) (width : Z) (level offsetX : float)
    (i : Z) : PixelValue :=
  tex1DLod texMipmap (f32_mul (f32_add (f32_of_Z i) offsetX) (px width)) level.

Definition expected (T : texelType) (filterMode : hipTextureFilterMode)
    (addressMode : hipTextureAddressMode) (data : list PixelValue) (width : Z)
    (offsetX : float) (i : Z) : PixelValue :=
  getExpectedValue T addressMode filterMode width (f32_add (f32_of_Z i) offsetX) data.

Definition matches (T : texelType) (filterMode : hipTextureFilterMode)
    (addressMode : hipTextureAddressMode) (texMipmap : hipTextureObject_t)
    (data : list PixelValue) (width : Z) (level offsetX : float) (i : Z) : bool :=
  hipTextureSamplingVerify T filterMode
    (observed texMipmap width level offsetX i)
    (expected T filterMode addressMode data width offsetX i).

(** The texel type and the host data a level is verified with. *)
Definition sampleType (T : texelType) (readMode : hipTextureReadMode) : texelType :=
  match readMode with
  | hipReadModeNormalizedFloat => TargetType T
  | hipReadModeElementType => T
  end.

Definition referenceData (T : texelType) (readMode : hipTextureReadMode)
    (d : mipmapLevelArray) : list PixelValue :=
  match readMode with
  | hipReadModeNormalizedFloat => normalizedLevel T d
  | hipReadModeElementType => data d
  end.

(** The levels of a chain have widths a launch can index with an [int]. *)
Definition chain_in_range (chain : list mipmapLevelArray) : bool :=
  (Z.of_nat (length chain) <? 2 ^ 32)
  && forallb (fun d => (0 <=? ext_width (e d)) && (ext_width (e d) <=? INT_MAX)) chain.

(** The comparison [verify_levels] makes at index [i] of level [L]. *)
Definition level_matches (T : texelType) (readMode : hipTextureReadMode)
    (filterMode : hipTextureFilterMode) (addressMode : hipTextureAddressMode)
    (texMipmap : hipTextureObject_t) (offsetX : float) (L : nat)
    (d : mipmapLevelArray) (i : Z) : bool :=
  matches (sampleType T readMode) filterMode addressMode texMipmap
    (referenceData T readMode d) (ext_width (e d)) (f32_of_Z (Z.of_nat L)) offsetX i.

(** The halving invariant of a list of level widths that starts at
    [baseWidth] and has reached [width]. *)
Definition halving_chain (baseWidth : Z) (widths : list Z) (width : Z) : Prop :=
  widths !! 0%nat = Some baseWidth /\
  (forall (k : nat) a b, widths !! k = Some a -> widths !! S k = Some b ->
     b = Z.max 1 (Z.shiftr a 1)) /\
  last widths = Some width.

(** The failure a level of wrong width ends synthesis with: level 0 is
    caught as the current level of the first pass (after the handle of
    level 1 was obtained), level [k > 0] as the next level of pass [k - 1]. *)
Definition violation_failure (mipmapArray : hipMipmappedArray_t) (baseWidth : Z)
    (k : nat) (bad : hipArray_t) : failure :=
  match k with
  | O =>
      match mipmapArray !! 1%nat with
      | Some _ => LevelSizeMismatch 0 (Z.of_nat (length bad)) baseWidth
      | None => HipCheckFailed (hipGetMipmappedArrayLevel_call 1)
      end
  | S _ =>
      NextLevelSizeMismatch (Z.of_nat k) (Z.of_nat (length bad)) (level_width baseWidth k)
  end.

(** Thread [j] of a synthesis pass fetches at the centre of texel [j] of
    the new level, [(j + 0.5) / newWidth]. *)
Definition fetches_at_centre (T : texelType) (readMode : hipTextureReadMode)
    (texIn : hipTextureObject_t) (newWidth j : Z) : Prop :=
  exists coord q,
    ev_tex1D texIn coord
      ∈ populateMipmapNextLevelArray T readMode texIn newWidth true
          (j / blockSize_x) blockSize_x (j mod blockSize_x) /\
    SF2Q coord = Some q /\
    (q == (inject_Z j + (1 # 2)) / inject_Z newWidth)%Q.

(** The source level is bound with point filtering, clamping and
    normalised coordinates. *)
Definition bound_point_clamp (texIn : hipTextureObject_t) : Prop :=
  filterMode (texDescr texIn) = hipFilterModePoint /\
  addressMode0 (texDescr texIn) = hipAddressModeClamp /\
  normalizedCoords (texDescr texIn) = 1.

(** ** A software device

    Concrete stand-ins for the texture unit, the helpers and the allocator,
    to run the embedding on data: point sampling with clamping, a host
    reference that reads the texel under the coordinate, and an allocator
    that follows the halving rule. *)

Definition floor_float (x : float) : Z :=
  match SF2Q x with Some q => Qfloor q | None => 0 end.

Definition soft_fetch (a : hipArray_t) (coord : float) : PixelValue :=
  match SF2Q coord with
  | Some q =>
      let w := Z.of_nat (length a) in
      default [] (a !! Z.to_nat (Z.max 0 (Z.min (Qfloor (q * inject_Z w)) (w - 1))))
  | None => []
  end.

Definition soft_tex1D (texIn : hipTextureObject_t) (coord : float) : PixelValue :=
  match texRes texIn with
  | hipResourceTypeArray a => soft_fetch a coord
  | hipResourceTypeMipmappedArray m => soft_fetch (default [] (m !! 0%nat)) coord
  end.

Definition soft_tex1DLod (tex : hipTextureObject_t) (coord lod : float) : PixelValue :=
  match texRes tex with
  | hipResourceTypeArray a => soft_fetch a coord
  | hipResourceTypeMipmappedArray m =>
      soft_fetch (default [] (m !! Z.to_nat (floor_float lod))) coord
  end.

(** A device whose sampler returns a wrong texel in the upper half of
    level 1. *)
Definition faulty_tex1DLod (tex : hipTextureObject_t) (coord lod : float) : PixelValue :=
  if (floor_float lod =? 1) && SFleb (f32_of_f64 (f64_div (f64_of_Z 1) (f64_of_Z 2))) coord
  then [IntChannel 99]
  else soft_tex1DLod tex coord lod.

Definition soft_getTypeFromNormalizedFloat (T : texelType) (p : PixelValue) : PixelValue := p.

Definition soft_getExpectedValue (T : texelType) (addressMode : hipTextureAddressMode)
    (filterMode : hipTextureFilterMode) (width : Z) (x : float)
    (data : list PixelValue) : PixelValue :=
  default [] (data !! Z.to_nat (Z.max 0 (Z.min (floor_float x) (width - 1)))).

Definition soft_initVal (T : texelType) (i : Z) : PixelValue := [IntChannel (10 + i)].

Definition soft_alloc (T : texelType) (extent : hipExtent) (levels : Z)
    : option hipMipmappedArray_t :=
  Some ((fun k => replicate (Z.to_nat (level_width (ext_width extent) k)) (zero_texel T))
          <$> seq 0 (Z.to_nat levels)).

(** An allocator that gives level 1 one texel too many. *)
Definition bad_alloc (T : texelType) (extent : hipExtent) (levels : Z)
    : option hipMipmappedArray_t :=
  (fun m => <[1%nat := replicate (Z.to_nat (level_width (ext_width extent) 1 + 1))
                         (zero_texel T)]> m) <$> soft_alloc T extent levels.

Definition uchar : texelType := mk_T UChar Scalar.
Definition texels_of (l : list Z) : list PixelValue := (fun z => [IntChannel z]) <$> l.

(** Concrete data: a base level of five [uchar] texels in a mipmapped array
    allocated by the halving rule (widths 5, 2, 1), the same array with a
    level 1 of three texels, and the base level of the float test of width
    131. *)
Definition base5 : hipArray_t := texels_of [10; 11; 12; 13; 14].

Definition array5 : hipMipmappedArray_t :=
  [base5; replicate 2 (zero_texel uchar); replicate 1 (zero_texel uchar)].

Definition array5_bad : hipMipmappedArray_t :=
  [base5; replicate 3 (zero_texel uchar); replicate 1 (zero_texel uchar)].

Definition chain5 : list mipmapLevelArray :=
  [mk_level base5 (mk_hipExtent 5 0 0);
   mk_level (texels_of [10; 12]) (mk_hipExtent 2 0 0);
   mk_level (texels_of [10]) (mk_hipExtent 1 0 0)].

Definition synthesized5 : hipMipmappedArray_t :=
  [base5; texels_of [10; 12]; texels_of [10]].

Definition float1 : texelType := mk_T Float Scalar.

Definition base131 : hipArray_t := replicate 131 (zero_texel float1).

(** The source level of the first pass of the float test of width 131
    under linear filtering and border addressing. *)
Definition texIn131 : hipTextureObject_t :=
  mk_tex (hipResourceTypeArray base131)
         (populate_texDescr hipReadModeElementType hipFilterModeLinear hipAddressModeBorder).

(** The offset 0.25 and the tolerance 0. *)
Definition quarter : float := binary_normalize 24 128 1 (-2) false.
Definition exact_verify (T : texelType) (filterMode : hipTextureFilterMode)
    (a b : PixelValue) : bool := approx_equal (f32_of_Z 0) a b.

(** The mipmapped texture object over the synthesized chain. *)
Definition texMipmap5 : hipTextureObject_t :=
  mk_tex (hipResourceTypeMipmappedArray synthesized5)
         (mipmap_texDescr hipReadModeElementType hipFilterModePoint hipAddressModeClamp
            (maxLevels 5)).

(** ** Further vocabulary *)

(** The number of texels a chain records over all its levels. *)
Definition total_texels (md : list mipmapLevelArray) : Z :=
  foldr Z.add 0 (level_widths md).

(** The texel the only thread of a pass of new width 1 writes. *)
Definition single_texel (T : texelType) (readMode : hipTextureReadMode)
    (filterMode : hipTextureFilterMode) (addressMode : hipTextureAddressMode)
    (levelArray : hipArray_t) : PixelValue :=
  populate_texel T readMode
    (mk_tex (hipResourceTypeArray levelArray)
            (populate_texDescr readMode filterMode addressMode)) 1 0.

(** The failure of the level-count check of [testMipmapTextureObj], the
    failures of the two size checks of [populateMipmaps], and the failures
    that stand for an access out of range: by a kernel, which ends its launch
    and fails the synchronisation, and by a host read. *)
Definition is_level_count_failure (f : failure) : bool :=
  match f with MaxLevelsMismatch _ _ => true | _ => false end.

Definition is_size_failure (f : failure) : bool :=
  match f with
  | LevelSizeMismatch _ _ _ | NextLevelSizeMismatch _ _ _ => true
  | _ => false
  end.

Definition is_memory_fault (f : failure) : bool :=
  match f with
  | HostOutOfBounds _ | HipCheckFailed hipDeviceSynchronize_call => true
  | _ => false
  end.

(** The host data of every level covers the extent recorded with it. *)
Definition data_covers_extent (chain : list mipmapLevelArray) : Prop :=
  forall d, d ∈ chain -> Z.of_nat (length (data d)) = ext_width (e d).

(** ** The test cases

    Each [SECTION] of a [TEMPLATE_TEST_CASE] instantiates
    [testMipmapTextureObj] once for the type under test; the cases are
    taken as built with image support. *)

(** A [double] literal of two decimals passed for the [float] parameter
    [offsetX]: the nearest [double], narrowed at the call. *)
Definition offset_literal (hundredths : Z) : float :=
  f32_of_f64 (f64_div (f64_of_Z hundredths) (f64_of_Z 100)).

Record testRun := mk_run {
  run_T : texelType;
  run_readMode : hipTextureReadMode;
  run_filterMode : hipTextureFilterMode;
  run_addressMode : hipTextureAddressMode;
  run_width : Z;
  run_offsetX : float
}.

Definition run_test (r : testRun) : outcome unit :=
  testMipmapTextureObj (run_T r) (run_readMode r) (run_filterMode r) (run_addressMode r)
    (run_width r) (run_offsetX r).

(** The type lists: the channel types as scalars and as vectors of one, two
    and four lanes. *)
Definition vector_types (cs : list channelType) : list texelType :=
  w ← [Scalar; Vec1; Vec2; Vec4]; c ← cs; [mk_T c w].

Definition Check_ElementType_types : list texelType :=
  vector_types [Char; UChar; Short; UShort; Int; UInt; Float].
Definition Check_NormalizedFloat_types : list texelType :=
  vector_types [Char; UChar; Short; UShort].
Definition Check_ElementType_float_only_types : list texelType :=
  vector_types [Float].

(** The sections of the three test cases. *)
Definition Check_ElementType (TestType : texelType) : list testRun :=
  [mk_run TestType hipReadModeElementType hipFilterModePoint hipAddressModeClamp
     23 (offset_literal 49);
   mk_run TestType hipReadModeElementType hipFilterModePoint hipAddressModeClamp
     67 (offset_literal (-30));
   mk_run TestType hipReadModeElementType hipFilterModePoint hipAddressModeBorder
     131 (offset_literal 15);
   mk_run TestType hipReadModeElementType hipFilterModePoint hipAddressModeBorder
     263 (offset_literal 96)].

Definition Check_NormalizedFloat (TestType : texelType) : list testRun :=
  [mk_run TestType hipReadModeNormalizedFloat hipFilterModePoint hipAddressModeClamp
     23 (offset_literal (-90));
   mk_run TestType hipReadModeNormalizedFloat hipFilterModePoint hipAddressModeClamp
     131 (offset_literal 15);
   mk_run TestType hipReadModeNormalizedFloat hipFilterModeLinear hipAddressModeClamp
     67 (offset_literal (-30));
   mk_run TestType hipReadModeNormalizedFloat hipFilterModeLinear hipAddressModeClamp
     263 (offset_literal 13);
   mk_run TestType hipReadModeNormalizedFloat hipFilterModePoint hipAddressModeBorder
     131 (offset_literal (-34));
   mk_run TestType hipReadModeNormalizedFloat hipFilterModePoint hipAddressModeBorder
     23 (offset_literal 40);
   mk_run TestType hipReadModeNormalizedFloat hipFilterModeLinear hipAddressModeBorder
     263 (offset_literal 96);
   mk_run TestType hipReadModeNormalizedFloat hipFilterModeLinear hipAddressModeBorder
     67 (offset_literal (-67))].

Definition Check_ElementType_float_only (TestType : texelType) : list testRun :=
  [mk_run TestType hipReadModeElementType hipFilterModeLinear hipAddressModeClamp
     23 (offset_literal 0);
   mk_run TestType hipReadModeElementType hipFilterModeLinear hipAddressModeClamp
     23 (offset_literal (-67));
   mk_run TestType hipReadModeElementType hipFilterModeLinear hipAddressModeClamp
     263 (offset_literal 13);
   mk_run TestType hipReadModeElementType hipFilterModeLinear hipAddressModeBorder
     131 (offset_literal 96);
   mk_run TestType hipReadModeElementType hipFilterModeLinear hipAddressModeBorder
     67 (offset_literal (-97))].

(** Every instantiation the file makes. *)
Definition test_runs : list testRun :=
  (Check_ElementType_types ≫= Check_ElementType)
  ++ (Check_NormalizedFloat_types ≫= Check_NormalizedFloat)
  ++ (Check_ElementType_float_only_types ≫= Check_ElementType_float_only).

(** What every instantiation has in common, as a check that runs. *)
Definition run_in_range (r : testRun) : bool :=
  (1 <=? run_width r) && (run_width r <=? 263)
  && (run_width r * sizeof (run_T r) <=? 4208)
  && (maxLevels (run_width r) <=? 9)
  && match run_readMode r, run_filterMode r with
     | hipReadModeNormalizedFloat, _ => negb (isFloat (run_T r))
     | hipReadModeElementType, hipFilterModeLinear => isFloat (run_T r)
     | hipReadModeElementType, hipFilterModePoint => true
     end
  && match run_addressMode r with
     | hipAddressModeClamp | hipAddressModeBorder => true
     | _ => false
     end
  && SFltb (SFabs (run_offsetX r)) (f32_of_Z 1).

(** The channel of the ramp at index [i] holds exactly [i * (i - width + 1)]. *)
Definition ramp_exact (width i : Z) : bool :=
  match initial_texel (mk_T Float Scalar) hipFilterModeLinear width i with
  | [FloatChannel v] =>
      match SF2Q v with
      | Some q => (Qnum q =? i * (i - width + 1)) && (Pos.eqb (Qden q) 1)
      | None => false
      end
  | _ => false
  end.

(** ** Further concrete data *)

(** The array of base width 5 with other texels left in the derived
    levels, the same array cut after level 0, and an empty base over one
    texel. *)
Definition array5_stale : hipMipmappedArray_t :=
  [base5; texels_of [1; 2]; texels_of [3]].

Definition array5_short : hipMipmappedArray_t := [base5].

(** The array the allocator that follows the halving rule returns for a
    base of five texels. *)
Definition zeros5 : hipMipmappedArray_t :=
  [replicate 5 (zero_texel uchar); replicate 2 (zero_texel uchar);
   replicate 1 (zero_texel uchar)].

Definition array0 : hipMipmappedArray_t := [[]; [zero_texel uchar]].

(** The source level of the pass that derives level 1 of [array5], and two
    zeroed texels. *)
Definition texIn5 : hipTextureObject_t :=
  mk_tex (hipResourceTypeArray base5)
         (populate_texDescr hipReadModeElementType hipFilterModePoint hipAddressModeClamp).

Definition zeros2 : list PixelValue := replicate 2 (zero_texel uchar).

(** The first section of the first test case, for [char]. *)
Definition first_run : testRun :=
  mk_run (mk_T Char Scalar) hipReadModeElementType hipFilterModePoint hipAddressModeClamp
    23 (offset_literal 49).

(** * Properties *)

(** ** Integer facts *)

Lemma sizeof_pos (T : texelType) : 1 <= sizeof T <= 16.
Proof. destruct T as [[] []]; vm_compute; split; discriminate. Qed.

Lemma wrap32_small z : 0 <= z < 2 ^ 32 -> wrap32 z = z.
Proof. intros. unfold wrap32. apply Z.mod_small. lia. Qed.

Lemma wrap64_small z : 0 <= z < 2 ^ 64 -> wrap64 z = z.
Proof. intros. unfold wrap64. apply Z.mod_small. lia. Qed.

Lemma to_int32_small z : 0 <= z < 2 ^ 31 -> to_int32 z = z.
Proof.
  intros Hz. unfold to_int32. rewrite wrap32_small by lia.
  destruct (Z.ltb_spec z (2 ^ 31)); lia.
Qed.

Lemma next_width_max width : 0 <= width -> next_width width = Z.max 1 (Z.shiftr width 1).
Proof.
  intros Hw. unfold next_width. rewrite Z.shiftr_div_pow2 by lia.
  change (2 ^ 1) with 2.
  destruct (Z.eqb_spec (width / 2) 0) as [E|E]; simpl.
  - rewrite E. reflexivity.
  - assert (0 <= width / 2) by (apply Z.div_pos; lia). lia.
Qed.

Lemma next_width_half width : 2 <= width -> next_width width = width / 2.
Proof.
  intros Hw. rewrite next_width_max by lia. rewrite Z.shiftr_div_pow2 by lia.
  change (2 ^ 1) with 2.
  assert (1 <= width / 2) by (apply Z.div_le_lower_bound; lia). lia.
Qed.

Lemma next_width_decreases width : 2 <= width -> 1 <= next_width width < width.
Proof.
  intros Hw. rewrite next_width_half by lia. split.
  - apply Z.div_le_lower_bound; lia.
  - apply Z.div_lt; lia.
Qed.

Lemma next_width_log2 width : 2 <= width -> Z.log2 (next_width width) = Z.log2 width - 1.
Proof.
  intros Hw. rewrite next_width_half by lia.
  rewrite <- Z.div2_div, Z.div2_spec, Z.log2_shiftr by lia.
  assert (1 <= Z.log2 width) by (apply Z.log2_le_pow2; simpl; lia). lia.
Qed.

Lemma log2_pos width : 2 <= width -> 1 <= Z.log2 width.
Proof. intros. apply Z.log2_le_pow2; simpl; lia. Qed.

Lemma log2_pos_inv width : 1 <= Z.log2 width -> 2 <= width.
Proof.
  intros H. destruct (Z_lt_le_dec width 2) as [Hlt|]; [|assumption].
  destruct (Z.eq_dec width 1) as [->|]; [simpl in H; lia|].
  rewrite Z.log2_nonpos in H by lia. lia.
Qed.

Lemma log2_lt_64 width : 1 <= width <= SIZE_MAX -> Z.log2 width < 64.
Proof.
  intros [H1 H2]. apply Z.log2_lt_pow2; [lia|]. unfold SIZE_MAX in H2. lia.
Qed.

(** ** The synthesis loop *)

Lemma widths_from_length width n : length (widths_from width n) = n.
Proof. revert width. induction n; intros; simpl; auto. Qed.

Lemma widths_from_last width :
  1 <= width ->
  last (width :: widths_from width (Z.to_nat (Z.log2 width))) = Some 1.
Proof.
  intros Hw.
  remember (Z.to_nat (Z.log2 width)) as n eqn:Hn.
  revert width Hw Hn. induction n as [|n IH]; intros width Hw Hn.
  - simpl. f_equal.
    destruct (Z.eq_dec width 1) as [->|Hne]; [reflexivity|].
    pose proof (log2_pos width ltac:(lia)). lia.
  - assert (2 <= width).
    { destruct (Z.eq_dec width 1) as [->|]; [discriminate Hn | lia]. }
    change (widths_from width (S n)) with (next_width width :: widths_from (next_width width) n).
    rewrite last_cons_cons. apply IH.
    + pose proof (next_width_decreases width ltac:(lia)). lia.
    + rewrite next_width_log2 by lia. lia.
Qed.

(** What a pass through the loop body that completes has done. *)
Lemma populateMipmaps_body_Done T rm fm am arr width level md arr' width' level' md' :
  populateMipmaps_body T rm fm am arr width level md = Done (arr', width', level', md') ->
  exists levelArray nextLevelArray m,
    arr !! Z.to_nat level = Some levelArray /\
    arr !! Z.to_nat (wrap32 (level + 1)) = Some nextLevelArray /\
    Z.of_nat (length levelArray) = width /\
    Z.of_nat (length nextLevelArray) = next_width width /\
    run_events T
      (launch (populateMipmapNextLevelArray T rm
                 (mk_tex (hipResourceTypeArray levelArray) (populate_texDescr rm fm am))
                 (wrap32 (next_width width)) true)
              (gridSize_x (next_width width)) blockSize_x)
      (mk_devmem nextLevelArray
         (Some (hostZeroed T (wrap64 (next_width width * sizeof T))))) = Some m /\
    arr' = <[Z.to_nat (wrap32 (level + 1)) := surfArray m]> arr /\
    width' = next_width width /\
    level' = wrap32 (level + 1) /\
    md' = md ++ [mk_level (default [] (dataBuf m)) (mk_hipExtent (next_width width) 0 0)].
Proof.
  unfold populateMipmaps_body, hipGetMipmappedArrayLevel, launch_sync, HIP_CHECK.
  intros H.
  destruct (arr !! Z.to_nat level) as [levelArray|] eqn:E1; simpl in H; [|discriminate].
  destruct (arr !! Z.to_nat (wrap32 (level + 1))) as [nextLevelArray|] eqn:E2;
    simpl in H; [|discriminate].
  destruct (Z.eqb_spec (Z.of_nat (length levelArray)) width) as [E3|E3];
    simpl in H; [|discriminate].
  destruct (Z.eqb_spec (Z.of_nat (length nextLevelArray)) (next_width width)) as [E4|E4];
    simpl in H; [|discriminate].
  match type of H with
  | context [run_events ?a ?b ?c] => destruct (run_events a b c) as [m|] eqn:E5
  end; simpl in H; [|discriminate].
  injection H as <- <- <- <-.
  exists levelArray, nextLevelArray, m. repeat split; auto.
Qed.

Lemma populateMipmaps_loop_widths fuel T rm fm am arr width level md arr' md' :
  1 <= width ->
  populateMipmaps_loop fuel T rm fm am arr width level md = Done (arr', md') ->
  exists new,
    md' = md ++ new /\
    level_widths new = widths_from width (Z.to_nat (Z.log2 width)).
Proof.
  revert arr width level md.
  induction fuel as [|fuel IH]; intros arr width level md Hw H; simpl in H; [discriminate|].
  destruct (Z.eqb_spec width 1) as [->|Hne].
  - injection H as <- <-. exists []. rewrite app_nil_r. split; reflexivity.
  - destruct (populateMipmaps_body T rm fm am arr width level md)
      as [[[[arr1 width1] level1] md1]|f|] eqn:Hbody; simpl in H; try discriminate.
    apply populateMipmaps_body_Done in Hbody
      as (la & nla & m & _ & _ & _ & _ & _ & _ & -> & _ & ->).
    pose proof (next_width_decreases width ltac:(lia)) as Hdec.
    apply IH in H as (new & -> & Hnew); [|lia].
    eexists (_ :: new). split.
    + rewrite <- app_assoc. reflexivity.
    + unfold level_widths in *. rewrite fmap_cons, Hnew. simpl.
      rewrite next_width_log2 by lia.
      pose proof (log2_pos width ltac:(lia)).
      replace (Z.to_nat (Z.log2 width)) with (S (Z.to_nat (Z.log2 width - 1))) by lia.
      reflexivity.
Qed.

(** Enough fuel: one test of the condition per halving and a last one. *)
Lemma populateMipmaps_loop_fuel fuel T rm fm am arr width level md :
  1 <= width ->
  (Z.to_nat (Z.log2 width) < fuel)%nat ->
  populateMipmaps_loop fuel T rm fm am arr width level md <> OutOfFuel.
Proof.
  revert arr width level md.
  induction fuel as [|fuel IH]; intros arr width level md Hw Hfuel; [lia|].
  simpl. destruct (Z.eqb_spec width 1) as [->|Hne]; [discriminate|].
  destruct (populateMipmaps_body T rm fm am arr width level md)
    as [[[[arr1 width1] level1] md1]|f|] eqn:Hbody; simpl.
  - apply populateMipmaps_body_Done in Hbody
      as (la & nla & m & _ & _ & _ & _ & _ & _ & -> & _ & _).
    pose proof (next_width_decreases width ltac:(lia)).
    pose proof (log2_pos width ltac:(lia)).
    apply IH; [lia|]. rewrite next_width_log2 by lia. lia.
  - discriminate.
  - exfalso. revert Hbody.
    unfold populateMipmaps_body, hipGetMipmappedArrayLevel, launch_sync, HIP_CHECK.
    repeat (match goal with
            | |- context [match ?x with _ => _ end] => destruct x; simpl
            end; try discriminate).
Qed.

(** More fuel than a run needs does not change its result. *)
Lemma populateMipmaps_loop_more_fuel fuel fuel' T rm fm am arr width level md :
  (fuel <= fuel')%nat ->
  populateMipmaps_loop fuel T rm fm am arr width level md <> OutOfFuel ->
  populateMipmaps_loop fuel' T rm fm am arr width level md
  = populateMipmaps_loop fuel T rm fm am arr width level md.
Proof.
  revert fuel' arr width level md.
  induction fuel as [|fuel IH]; intros fuel' arr width level md Hle H; simpl in *; [congruence|].
  destruct fuel' as [|fuel']; [lia|]. simpl.
  destruct (width =? 1); [reflexivity|].
  destruct (populateMipmaps_body T rm fm am arr width level md)
    as [[[[arr1 width1] level1] md1]|f|]; simpl in *; try reflexivity.
  apply IH; [lia|assumption].
Qed.

(** ** Kernels and launches *)

Lemma wrap32_to_int32 z : wrap32 (to_int32 z) = wrap32 z.
Proof.
  unfold to_int32, wrap32.
  assert (0 <= z mod 2 ^ 32 < 2 ^ 32) by (apply Z.mod_pos_bound; lia).
  destruct (Z.ltb_spec (z mod 2 ^ 32) (2 ^ 31)).
  - apply Z.mod_mod. lia.
  - replace (z mod 2 ^ 32 - 2 ^ 32) with (z mod 2 ^ 32 + (-1) * 2 ^ 32) by lia.
    rewrite Z.mod_add by lia. apply Z.mod_mod. lia.
Qed.

(** Inside the grid of a launch the thread index does not wrap. *)
Lemma thread_x_unsigned b t :
  0 <= b -> 0 <= t < blockSize_x -> b * blockSize_x + t < 2 ^ 32 ->
  wrap32 (thread_x b blockSize_x t) = b * blockSize_x + t.
Proof.
  unfold blockSize_x. intros Hb Ht Hlt. unfold thread_x.
  rewrite wrap32_to_int32.
  rewrite (wrap32_small (b * 16)) by lia.
  rewrite (wrap32_small (b * 16 + t)) by lia. apply wrap32_small. lia.
Qed.

Lemma thread_x_signed b t :
  0 <= b -> 0 <= t < blockSize_x -> b * blockSize_x + t < 2 ^ 31 ->
  thread_x b blockSize_x t = b * blockSize_x + t.
Proof.
  unfold blockSize_x. intros Hb Ht Hlt. unfold thread_x.
  rewrite (wrap32_small (b * 16)) by lia.
  rewrite (wrap32_small (b * 16 + t)) by lia. apply to_int32_small. lia.
Qed.

Lemma populateMipmapNextLevelArray_thread T rm texIn width b t :
  0 <= width -> width * sizeof T <= INT_MAX ->
  0 <= b -> 0 <= t < blockSize_x -> b * blockSize_x + t < 2 ^ 32 ->
  populateMipmapNextLevelArray T rm texIn width true b blockSize_x t
  = populate_events T rm texIn width (b * blockSize_x + t).
Proof.
  intros Hw Hsz Hb Ht Hlt.
  pose proof (sizeof_pos T) as HT. unfold INT_MAX in Hsz.
  unfold populateMipmapNextLevelArray, populate_events.
  rewrite thread_x_unsigned by assumption.
  destruct (Z.ltb_spec (b * blockSize_x + t) width) as [Hx|Hx]; [|reflexivity].
  assert (0 <= b * blockSize_x + t) by (unfold blockSize_x in *; lia).
  assert (width <= width * sizeof T) by nia.
  rewrite thread_x_signed by (try assumption; lia).
  set (x := b * blockSize_x + t) in *.
  assert (0 <= x * sizeof T < 2 ^ 31) by nia.
  rewrite to_int32_small by assumption.
  unfold populate_texel, populate_coord. destruct rm; reflexivity.
Qed.

Lemma getMipmap_thread texMipmap width offsetX lod b t :
  0 <= width <= INT_MAX ->
  0 <= b -> 0 <= t < blockSize_x -> b * blockSize_x + t < 2 ^ 32 ->
  getMipmap texMipmap width offsetX lod true b blockSize_x t
  = getMipmap_events texMipmap width offsetX lod (b * blockSize_x + t).
Proof.
  intros Hw Hb Ht Hlt. unfold INT_MAX in Hw.
  unfold getMipmap, getMipmap_events.
  rewrite thread_x_unsigned by assumption.
  destruct (Z.ltb_spec (b * blockSize_x + t) width) as [Hx|Hx]; [|reflexivity].
  rewrite thread_x_signed by (try assumption; lia).
  reflexivity.
Qed.

(** The threads of a grid, block after block, are the indices
    [0 .. gridSize * blockSize). *)
Lemma bind_shift (k body : Z -> list event) (c : Z) (l : list Z) :
  (forall t, t ∈ l -> k t = body (c + t)) ->
  l ≫= k = (Z.add c <$> l) ≫= body.
Proof.
  induction l as [|t l IH]; intros Hk; [reflexivity|].
  rewrite fmap_cons, !bind_cons, Hk by (left; reflexivity).
  f_equal. apply IH. intros t' Ht'. apply Hk. right. assumption.
Qed.

Lemma launch_flat_nat (kernel : Z -> Z -> Z -> list event) (body : Z -> list event) (n : nat) :
  (forall b t, 0 <= b < Z.of_nat n -> 0 <= t < blockSize_x ->
     kernel b blockSize_x t = body (b * blockSize_x + t)) ->
  launch kernel (Z.of_nat n) blockSize_x = seqZ 0 (Z.of_nat n * blockSize_x) ≫= body.
Proof.
  unfold launch. induction n as [|n IH]; intros Hk; [reflexivity|].
  rewrite seqZ_S, bind_app, bind_singleton, IH by (intros; apply Hk; lia).
  replace (Z.of_nat (S n) * blockSize_x)
    with (Z.of_nat n * blockSize_x + blockSize_x) by lia.
  rewrite seqZ_app by (unfold blockSize_x; lia).
  rewrite bind_app. f_equal.
  replace (seqZ (0 + Z.of_nat n * blockSize_x) blockSize_x)
    with (Z.add (Z.of_nat n * blockSize_x) <$> seqZ 0 blockSize_x)
    by (rewrite fmap_add_seqZ; f_equal; lia).
  apply bind_shift. intros t Ht. apply elem_of_seqZ in Ht.
  rewrite Hk by lia. reflexivity.
Qed.

Lemma launch_flat (kernel : Z -> Z -> Z -> list event) (body : Z -> list event) g :
  0 <= g ->
  (forall b t, 0 <= b < g -> 0 <= t < blockSize_x ->
     kernel b blockSize_x t = body (b * blockSize_x + t)) ->
  launch kernel g blockSize_x = seqZ 0 (g * blockSize_x) ≫= body.
Proof.
  intros Hg Hk. rewrite <- (Z2Nat.id g) by assumption.
  apply launch_flat_nat. intros b t Hb Ht. apply Hk; lia.
Qed.

Lemma run_events_cons T ev evs m :
  run_events T (ev :: evs) m
  = match apply_event T m ev with
    | Some m' => run_events T evs m'
    | None => None
    end.
Proof. reflexivity. Qed.

Lemma run_events_app T evs1 evs2 m :
  run_events T (evs1 ++ evs2) m
  = match run_events T evs1 m with
    | Some m' => run_events T evs2 m'
    | None => None
    end.
Proof.
  revert m. induction evs1 as [|ev evs1 IH]; intros m; simpl; [reflexivity|].
  destruct (apply_event T m ev); [apply IH | reflexivity].
Qed.

Lemma bind_all_nil {A B} (f : A -> list B) (l : list A) :
  (forall x, x ∈ l -> f x = []) -> l ≫= f = [].
Proof.
  induction l as [|x l IH]; intros H; [reflexivity|].
  rewrite bind_cons, H by (left; reflexivity). simpl.
  apply IH. intros y Hy. apply H. right. assumption.
Qed.

Lemma filled_length {A} (f : Z -> A) n (l : list A) :
  (n <= length l)%nat -> length (filled f n l) = length l.
Proof.
  intros Hn. unfold filled.
  rewrite length_app, length_fmap, length_seqZ, length_drop. lia.
Qed.

Lemma filled_0 {A} (f : Z -> A) (l : list A) : filled f 0 l = l.
Proof. reflexivity. Qed.

Lemma filled_all {A} (f : Z -> A) (l : list A) :
  filled f (length l) l = f <$> seqZ 0 (Z.of_nat (length l)).
Proof. unfold filled. rewrite drop_all. apply app_nil_r. Qed.

Lemma filled_S {A} (f : Z -> A) n (l : list A) :
  (n < length l)%nat ->
  <[n := f (Z.of_nat n)]> (filled f n l) = filled f (S n) l.
Proof.
  intros Hn. unfold filled.
  destruct (lookup_lt_is_Some_2 l n Hn) as [y Hy].
  rewrite insert_app_r_alt by (rewrite length_fmap, length_seqZ; lia).
  rewrite length_fmap, length_seqZ.
  replace (n - Z.to_nat (Z.of_nat n))%nat with 0%nat by lia.
  rewrite (drop_S l y n Hy). simpl.
  rewrite seqZ_S, fmap_app, <- app_assoc. reflexivity.
Qed.

Lemma apply_surf1Dwrite T s d v (x : nat) :
  (x < length s)%nat ->
  apply_event T (mk_devmem s d) (ev_surf1Dwrite v (Z.of_nat x * sizeof T))
  = Some (mk_devmem (<[x := v]> s) d).
Proof.
  intros Hx. pose proof (sizeof_pos T) as HT. unfold apply_event. simpl.
  rewrite Z.mod_mul, Z.div_mul, Nat2Z.id by lia.
  destruct (Z.leb_spec 0 (Z.of_nat x * sizeof T)) as [_|]; [|nia].
  destruct (Z.ltb_spec (Z.of_nat x) (Z.of_nat (length s))) as [_|]; [|lia].
  reflexivity.
Qed.

Lemma apply_store T s d v (x : nat) :
  (x < length d)%nat ->
  apply_event T (mk_devmem s (Some d)) (ev_store (Z.of_nat x) v)
  = Some (mk_devmem s (Some (<[x := v]> d))).
Proof.
  intros Hx. unfold apply_event. simpl. rewrite Nat2Z.id.
  destruct (Z.leb_spec 0 (Z.of_nat x)) as [_|]; [|lia].
  destruct (Z.ltb_spec (Z.of_nat x) (Z.of_nat (length d))) as [_|]; [|lia].
  reflexivity.
Qed.

(** The threads [0 .. n) of the synthesis kernel, run one after the other,
    fill the first [n] texels of the surface and of the recording buffer. *)
Lemma run_populate_prefix T rm texIn width s d (n : nat) :
  width * sizeof T <= INT_MAX ->
  Z.of_nat (length s) = width -> Z.of_nat (length d) = width ->
  Z.of_nat n <= width ->
  run_events T (seqZ 0 (Z.of_nat n) ≫= populate_events T rm texIn width)
    (mk_devmem s (Some d))
  = Some (mk_devmem (filled (populate_texel T rm texIn width) n s)
                    (Some (filled (populate_texel T rm texIn width) n d))).
Proof.
  intros Hsz Hs Hd.
  induction n as [|n IH]; intros Hn; [reflexivity|].
  rewrite seqZ_S, bind_app, bind_singleton, run_events_app, IH by lia.
  unfold populate_events. rewrite Z.add_0_l.
  destruct (Z.ltb_spec (Z.of_nat n) width) as [_|]; [|lia].
  rewrite run_events_cons. cbn [apply_event].
  rewrite run_events_cons, apply_surf1Dwrite by (rewrite filled_length; lia).
  rewrite run_events_cons, apply_store by (rewrite filled_length; lia).
  rewrite !filled_S by lia. reflexivity.
Qed.

Lemma run_getMipmap_prefix T texMipmap width offsetX lod s d (n : nat) :
  Z.of_nat (length d) = width ->
  Z.of_nat n <= width ->
  run_events T (seqZ 0 (Z.of_nat n) ≫= getMipmap_events texMipmap width offsetX lod)
    (mk_devmem s (Some d))
  = Some (mk_devmem s (Some (filled (getMipmap_texel texMipmap width offsetX lod) n d))).
Proof.
  intros Hd. induction n as [|n IH]; intros Hn; [reflexivity|].
  rewrite seqZ_S, bind_app, bind_singleton, run_events_app, IH by lia.
  unfold getMipmap_events. rewrite Z.add_0_l.
  destruct (Z.ltb_spec (Z.of_nat n) width) as [_|]; [|lia].
  rewrite run_events_cons. cbn [apply_event].
  rewrite run_events_cons, apply_store by (rewrite filled_length; lia).
  rewrite !filled_S by lia. reflexivity.
Qed.

Lemma gridSize_x_covers width :
  0 <= width <= INT_MAX ->
  0 <= gridSize_x width /\ width <= gridSize_x width * blockSize_x < 2 ^ 32.
Proof.
  unfold INT_MAX, gridSize_x, blockSize_x. intros Hw.
  rewrite (wrap64_small (width + 16 - 1)) by lia.
  assert (0 <= (width + 16 - 1) / 16) by (apply Z.div_pos; lia).
  assert ((width + 16 - 1) / 16 * 16 <= width + 16 - 1)
    by (rewrite Z.mul_comm; apply Z.mul_div_le; lia).
  assert (width + 16 - 1 < 16 * ((width + 16 - 1) / 16) + 16).
  { pose proof (Z.mod_pos_bound (width + 16 - 1) 16 ltac:(lia)).
    pose proof (Z.div_mod (width + 16 - 1) 16 ltac:(lia)). lia. }
  rewrite wrap32_small by lia. lia.
Qed.

(** A launch of the synthesis kernel over a surface and a buffer of [width]
    texels writes every texel of both, each with the texel its thread
    fetched, and faults nowhere. *)
Lemma launch_populate T rm texIn width s d :
  0 <= width -> width * sizeof T <= INT_MAX ->
  Z.of_nat (length s) = width -> Z.of_nat (length d) = width ->
  run_events T
    (launch (populateMipmapNextLevelArray T rm texIn (wrap32 width) true)
            (gridSize_x width) blockSize_x)
    (mk_devmem s (Some d))
  = Some (mk_devmem (populate_texel T rm texIn width <$> seqZ 0 width)
                    (Some (populate_texel T rm texIn width <$> seqZ 0 width))).
Proof.
  intros Hw Hsz Hs Hd. pose proof (sizeof_pos T) as HT.
  assert (0 <= width <= INT_MAX) as Hrange by nia.
  destruct (gridSize_x_covers width Hrange) as [Hg [Hcov Hlt]].
  unfold INT_MAX in *.
  rewrite wrap32_small by lia.
  rewrite (launch_flat _ (populate_events T rm texIn width)); [|assumption|].
  2:{ intros b t Hb Ht. apply populateMipmapNextLevelArray_thread;
        unfold INT_MAX, blockSize_x in *; lia. }
  replace (gridSize_x width * blockSize_x)
    with (width + (gridSize_x width * blockSize_x - width)) by lia.
  rewrite seqZ_app, bind_app by lia.
  rewrite (bind_all_nil _ (seqZ (0 + width) _)), app_nil_r.
  2:{ intros x Hx. apply elem_of_seqZ in Hx. unfold populate_events.
      destruct (Z.ltb_spec x width); [lia | reflexivity]. }
  pose proof (run_populate_prefix T rm texIn width s d (Z.to_nat width)
                Hsz Hs Hd ltac:(lia)) as Hrun.
  rewrite Z2Nat.id in Hrun by assumption. rewrite Hrun.
  replace (Z.to_nat width) with (length s) at 1 by lia.
  replace (Z.to_nat width) with (length d) by lia.
  rewrite !filled_all. rewrite Hs, Hd. reflexivity.
Qed.

Lemma launch_getMipmap T texMipmap width offsetX lod s d :
  0 <= width <= INT_MAX ->
  Z.of_nat (length d) = width ->
  run_events T
    (launch (getMipmap texMipmap (wrap32 width) offsetX lod true)
            (gridSize_x width) blockSize_x)
    (mk_devmem s (Some d))
  = Some (mk_devmem s
            (Some (getMipmap_texel texMipmap width offsetX lod <$> seqZ 0 width))).
Proof.
  intros Hrange Hd.
  destruct (gridSize_x_covers width Hrange) as [Hg [Hcov Hlt]].
  unfold INT_MAX in *.
  rewrite wrap32_small by lia.
  rewrite (launch_flat _ (getMipmap_events texMipmap width offsetX lod)); [|assumption|].
  2:{ intros b t Hb Ht. apply getMipmap_thread;
        unfold INT_MAX, blockSize_x in *; lia. }
  replace (gridSize_x width * blockSize_x)
    with (width + (gridSize_x width * blockSize_x - width)) by lia.
  rewrite seqZ_app, bind_app by lia.
  rewrite (bind_all_nil _ (seqZ (0 + width) _)), app_nil_r.
  2:{ intros x Hx. apply elem_of_seqZ in Hx. unfold getMipmap_events.
      destruct (Z.ltb_spec x width); [lia | reflexivity]. }
  pose proof (run_getMipmap_prefix T texMipmap width offsetX lod s d (Z.to_nat width)
                Hd ltac:(lia)) as Hrun.
  rewrite Z2Nat.id in Hrun by lia. rewrite Hrun.
  replace (Z.to_nat width) with (length d) by lia.
  rewrite filled_all, Hd. reflexivity.
Qed.

(** ** Schedules

    The threads of a launch run concurrently.  No two events of a launch
    write the same cell, and writes to different cells commute, so every
    interleaving of the events leaves the memory the listed order leaves. *)

Lemma apply_event_swap T m e1 e2 :
  (forall c, cell T e1 = Some c -> cell T e2 <> Some c) ->
  match apply_event T m e1 with Some m1 => apply_event T m1 e2 | None => None end
  = match apply_event T m e2 with Some m2 => apply_event T m2 e1 | None => None end.
Proof.
  intros Hc. destruct m as [s d].
  destruct e1 as [tex1 c1|tex1 c1 l1|v1 x1|x1 v1];
    destruct e2 as [tex2 c2|tex2 c2 l2|v2 x2|x2 v2];
    cbn [apply_event surfArray dataBuf cell] in *;
    try reflexivity;
    try (destruct d as [d|]); cbn [dataBuf surfArray];
    repeat match goal with
           | |- context [if ?b then _ else _] =>
               destruct b eqn:?; cbn [apply_event surfArray dataBuf];
               rewrite ?length_insert in *
           end;
    try reflexivity; try congruence.
  all: rewrite list_insert_insert_ne; [reflexivity|].
  all: intros Heq; eapply Hc; [reflexivity|]; rewrite Heq; reflexivity.
Qed.

Lemma run_events_schedule T evs evs' m :
  evs ≡ₚ evs' -> NoDup (omap (cell T) evs) ->
  run_events T evs m = run_events T evs' m.
Proof.
  intros Hperm. revert m.
  induction Hperm as [|e l l' _ IH|e1 e2 l|l1 l2 l3 H12 IH12 H23 IH23]; intros m Hnd.
  - reflexivity.
  - simpl. destruct (apply_event T m e); [|reflexivity].
    apply IH. simpl in Hnd. destruct (cell T e); [apply NoDup_cons in Hnd as [_ ?]|]; assumption.
  - assert (forall a b,
              run_events T (a :: b :: l) m
              = match match apply_event T m a with
                      | Some m1 => apply_event T m1 b
                      | None => None
                      end with
                | Some m2 => run_events T l m2
                | None => None
                end) as Hform
      by (intros a b; simpl; destruct (apply_event T m a); reflexivity).
    rewrite !Hform. rewrite (apply_event_swap T m e2 e1); [reflexivity|].
    intros c Hc2 Hc1. simpl in Hnd. rewrite Hc2, Hc1 in Hnd.
    apply NoDup_cons in Hnd as [Hnotin _]. apply Hnotin. left.
  - rewrite IH12 by assumption. apply IH23.
    rewrite <- H12. assumption.
Qed.

Lemma bind_cells_NoDup T (f : Z -> list event) (n : nat) :
  (forall x, 0 <= x ->
     NoDup (omap (cell T) (f x)) /\
     forall c, c ∈ omap (cell T) (f x) -> snd c = Z.to_nat x) ->
  NoDup (omap (cell T) (seqZ 0 (Z.of_nat n) ≫= f)) /\
  forall c, c ∈ omap (cell T) (seqZ 0 (Z.of_nat n) ≫= f) -> (snd c < n)%nat.
Proof.
  intros Hf. induction n as [|n [IHnd IHlt]].
  - split; [constructor|]. intros c Hc. inversion Hc.
  - rewrite seqZ_S, bind_app, bind_singleton, omap_app, Z.add_0_l.
    destruct (Hf (Z.of_nat n) ltac:(lia)) as [Hnd Hsnd].
    split.
    + apply NoDup_app. split; [assumption|]. split; [|assumption].
      intros c Hc Hc'. apply IHlt in Hc. apply Hsnd in Hc'. lia.
    + intros c Hc. apply elem_of_app in Hc as [Hc|Hc].
      * apply IHlt in Hc. lia.
      * apply Hsnd in Hc. lia.
Qed.

Lemma populate_events_cells T rm texIn width x :
  0 <= x ->
  NoDup (omap (cell T) (populate_events T rm texIn width x)) /\
  forall c, c ∈ omap (cell T) (populate_events T rm texIn width x) -> snd c = Z.to_nat x.
Proof.
  intros Hx. pose proof (sizeof_pos T) as HT. unfold populate_events.
  destruct (x <? width); simpl; [|split; [constructor|intros c Hc; inversion Hc]].
  rewrite Z.div_mul by lia. split.
  - apply NoDup_cons. split; [|apply NoDup_singleton].
    intros Hin. apply list_elem_of_singleton in Hin. discriminate.
  - intros c Hc. apply elem_of_cons in Hc as [->|Hc]; [reflexivity|].
    apply list_elem_of_singleton in Hc as ->. reflexivity.
Qed.

Lemma getMipmap_events_cells T texMipmap width offsetX lod x :
  0 <= x ->
  NoDup (omap (cell T) (getMipmap_events texMipmap width offsetX lod x)) /\
  forall c, c ∈ omap (cell T) (getMipmap_events texMipmap width offsetX lod x) ->
    snd c = Z.to_nat x.
Proof.
  intros Hx. unfold getMipmap_events.
  destruct (x <? width); simpl; [|split; [constructor|intros c Hc; inversion Hc]].
  split; [apply NoDup_singleton|].
  intros c Hc. apply list_elem_of_singleton in Hc as ->. reflexivity.
Qed.

(** Every interleaving of the events of a synthesis launch, and of a
    sampling launch, leaves the memory the listed order leaves. *)
Lemma launch_populate_any_schedule T rm texIn width m evs :
  0 <= width -> width * sizeof T <= INT_MAX ->
  evs ≡ₚ launch (populateMipmapNextLevelArray T rm texIn (wrap32 width) true)
           (gridSize_x width) blockSize_x ->
  run_events T evs m
  = run_events T
      (launch (populateMipmapNextLevelArray T rm texIn (wrap32 width) true)
         (gridSize_x width) blockSize_x) m.
Proof.
  intros Hw Hsz Hperm. pose proof (sizeof_pos T) as HT.
  assert (0 <= width <= INT_MAX) as Hrange by nia.
  destruct (gridSize_x_covers width Hrange) as [Hg [Hcov Hlt]].
  symmetry. apply run_events_schedule; [symmetry; assumption|].
  unfold INT_MAX in *. rewrite wrap32_small by lia.
  rewrite (launch_flat _ (populate_events T rm texIn width)); [|assumption|].
  2:{ intros b t Hb Ht. apply populateMipmapNextLevelArray_thread;
        unfold INT_MAX, blockSize_x in *; lia. }
  rewrite <- (Z2Nat.id (gridSize_x width * blockSize_x)) by lia.
  apply bind_cells_NoDup. intros x Hx. apply populate_events_cells. assumption.
Qed.

Lemma launch_getMipmap_any_schedule T texMipmap width offsetX lod m evs :
  0 <= width <= INT_MAX ->
  evs ≡ₚ launch (getMipmap texMipmap (wrap32 width) offsetX lod true)
           (gridSize_x width) blockSize_x ->
  run_events T evs m
  = run_events T
      (launch (getMipmap texMipmap (wrap32 width) offsetX lod true)
         (gridSize_x width) blockSize_x) m.
Proof.
  intros Hrange Hperm.
  destruct (gridSize_x_covers width Hrange) as [Hg [Hcov Hlt]].
  symmetry. apply run_events_schedule; [symmetry; assumption|].
  unfold INT_MAX in *. rewrite wrap32_small by lia.
  rewrite (launch_flat _ (getMipmap_events texMipmap width offsetX lod)); [|assumption|].
  2:{ intros b t Hb Ht. apply getMipmap_thread;
        unfold INT_MAX, blockSize_x in *; lia. }
  rewrite <- (Z2Nat.id (gridSize_x width * blockSize_x)) by lia.
  apply bind_cells_NoDup. intros x Hx. apply getMipmap_events_cells. assumption.
Qed.

(** ** Passes through the loop body *)

Lemma hostZeroed_length T width :
  0 <= width -> width * sizeof T <= INT_MAX ->
  Z.of_nat (length (hostZeroed T (wrap64 (width * sizeof T)))) = width.
Proof.
  intros Hw Hsz. pose proof (sizeof_pos T). unfold INT_MAX in Hsz.
  unfold hostZeroed. rewrite wrap64_small by nia.
  rewrite Z.div_mul, length_replicate by lia. lia.
Qed.

(** A completed pass has filled the next level and the recording buffer
    with the texels its threads fetched from the current level. *)
Lemma populateMipmaps_body_texels T rm fm am arr width level md arr' width' level' md' :
  0 <= width -> next_width width * sizeof T <= INT_MAX ->
  populateMipmaps_body T rm fm am arr width level md = Done (arr', width', level', md') ->
  exists levelArray nextLevelArray,
    arr !! Z.to_nat level = Some levelArray /\
    arr !! Z.to_nat (wrap32 (level + 1)) = Some nextLevelArray /\
    Z.of_nat (length levelArray) = width /\
    Z.of_nat (length nextLevelArray) = next_width width /\
    let texIn := mk_tex (hipResourceTypeArray levelArray) (populate_texDescr rm fm am) in
    let texels := populate_texel T rm texIn (next_width width) <$> seqZ 0 (next_width width) in
    arr' = <[Z.to_nat (wrap32 (level + 1)) := texels]> arr /\
    width' = next_width width /\
    level' = wrap32 (level + 1) /\
    md' = md ++ [mk_level texels (mk_hipExtent (next_width width) 0 0)].
Proof.
  intros Hw Hsz Hbody.
  apply populateMipmaps_body_Done in Hbody
    as (la & nla & m & Hla & Hnla & Hlen & Hnlen & Hrun & -> & -> & -> & ->).
  assert (0 <= next_width width).
  { rewrite next_width_max by lia. lia. }
  rewrite launch_populate in Hrun
    by (try assumption; apply hostZeroed_length; assumption).
  injection Hrun as <-. exists la, nla. repeat split; assumption.
Qed.

(** The pass completes when both levels exist with the widths of the
    halving rule. *)
Lemma populateMipmaps_body_completes T rm fm am (arr : hipMipmappedArray_t) width level md
    (levelArray nextLevelArray : hipArray_t) :
  0 <= width -> next_width width * sizeof T <= INT_MAX ->
  arr !! Z.to_nat level = Some levelArray ->
  arr !! Z.to_nat (wrap32 (level + 1)) = Some nextLevelArray ->
  Z.of_nat (length levelArray) = width ->
  Z.of_nat (length nextLevelArray) = next_width width ->
  exists arr' md',
    populateMipmaps_body T rm fm am arr width level md
    = Done (arr', next_width width, wrap32 (level + 1), md').
Proof.
  intros Hw Hsz Hla Hnla Hlen Hnlen.
  assert (0 <= next_width width).
  { rewrite next_width_max by lia. lia. }
  unfold populateMipmaps_body, hipGetMipmappedArrayLevel, launch_sync, HIP_CHECK.
  rewrite Hla, Hnla. simpl.
  rewrite Hlen, Hnlen, !Z.eqb_refl. simpl.
  rewrite launch_populate by (try assumption; apply hostZeroed_length; assumption).
  simpl. eauto.
Qed.

(** The two size checks of the body. *)
Lemma populateMipmaps_body_level_mismatch T rm fm am (arr : hipMipmappedArray_t) width level md
    (levelArray nextLevelArray : hipArray_t) :
  arr !! Z.to_nat level = Some levelArray ->
  arr !! Z.to_nat (wrap32 (level + 1)) = Some nextLevelArray ->
  Z.of_nat (length levelArray) <> width ->
  populateMipmaps_body T rm fm am arr width level md
  = Failed (LevelSizeMismatch level (Z.of_nat (length levelArray)) width).
Proof.
  intros Hla Hnla Hlen.
  unfold populateMipmaps_body, hipGetMipmappedArrayLevel, HIP_CHECK.
  rewrite Hla, Hnla. simpl.
  destruct (Z.eqb_spec (Z.of_nat (length levelArray)) width); [contradiction|reflexivity].
Qed.

Lemma populateMipmaps_body_next_mismatch T rm fm am (arr : hipMipmappedArray_t) width level md
    (levelArray nextLevelArray : hipArray_t) :
  arr !! Z.to_nat level = Some levelArray ->
  arr !! Z.to_nat (wrap32 (level + 1)) = Some nextLevelArray ->
  Z.of_nat (length levelArray) = width ->
  Z.of_nat (length nextLevelArray) <> next_width width ->
  populateMipmaps_body T rm fm am arr width level md
  = Failed (NextLevelSizeMismatch (wrap32 (level + 1))
              (Z.of_nat (length nextLevelArray)) (next_width width)).
Proof.
  intros Hla Hnla Hlen Hnlen.
  unfold populateMipmaps_body, hipGetMipmappedArrayLevel, HIP_CHECK.
  rewrite Hla, Hnla. simpl. rewrite Hlen, Z.eqb_refl. simpl.
  destruct (Z.eqb_spec (Z.of_nat (length nextLevelArray)) (next_width width));
    [contradiction|reflexivity].
Qed.

(** ** The widths of the halving rule *)

Lemma level_width_S width k : level_width width (S k) = level_width (next_width width) k.
Proof. unfold level_width. apply Nat.iter_succ_r. Qed.

Lemma level_width_range width k : 1 <= width -> 1 <= level_width width k <= width.
Proof.
  intros Hw. induction k as [|k IH]; [unfold level_width; simpl; lia|].
  unfold level_width in *. simpl.
  destruct (Z.eq_dec (Nat.iter k next_width width) 1) as [->|Hne].
  - vm_compute next_width. lia.
  - pose proof (next_width_decreases (Nat.iter k next_width width) ltac:(lia)). lia.
Qed.

Lemma widths_from_lookup width n k :
  (k < n)%nat -> widths_from width n !! k = Some (level_width width (S k)).
Proof.
  revert width k. induction n as [|n IH]; intros width k Hk; [lia|].
  destruct k as [|k]; [reflexivity|].
  rewrite (level_width_S width (S k)).
  change (widths_from (next_width width) n !! k
          = Some (level_width (next_width width) (S k))).
  apply IH. lia.
Qed.

Lemma allocated_by_halving_step (arr : hipMipmappedArray_t) width level texels :
  2 <= width -> 0 <= level ->
  allocated_by_halving arr width level ->
  Z.of_nat (length texels) = next_width width ->
  allocated_by_halving (<[Z.to_nat (level + 1) := texels]> arr) (next_width width) (level + 1).
Proof.
  intros Hw Hl Hall Hlen i Hi.
  rewrite next_width_log2 in Hi by lia.
  destruct (Hall (S i) ltac:(lia)) as (a & Ha & Hlena).
  replace (Z.to_nat (level + 1) + i)%nat with (Z.to_nat level + S i)%nat by lia.
  destruct i as [|i].
  - exists texels. split.
    + replace (Z.to_nat (level + 1)) with (Z.to_nat level + 1)%nat by lia.
      apply list_lookup_insert_eq. apply lookup_lt_Some in Ha. assumption.
    + assumption.
  - exists a. split.
    + rewrite list_lookup_insert_ne by lia. assumption.
    + rewrite Hlena. apply level_width_S.
Qed.

(** With the levels allocated by the halving rule the loop runs to its end. *)
Lemma populateMipmaps_loop_completes fuel T rm fm am (arr : hipMipmappedArray_t)
    width level md :
  1 <= width -> width * sizeof T <= INT_MAX ->
  0 <= level -> level + Z.log2 width < 2 ^ 32 ->
  (Z.to_nat (Z.log2 width) < fuel)%nat ->
  allocated_by_halving arr width level ->
  exists arr' md',
    populateMipmaps_loop fuel T rm fm am arr width level md = Done (arr', md').
Proof.
  revert arr width level md.
  induction fuel as [|fuel IH]; intros arr width level md Hw Hsz Hl Hwrap Hfuel Hall; [lia|].
  pose proof (sizeof_pos T) as HT.
  simpl. destruct (Z.eqb_spec width 1) as [->|Hne]; [eauto|].
  pose proof (next_width_decreases width ltac:(lia)) as Hdec.
  pose proof (log2_pos width ltac:(lia)) as Hlog.
  destruct (Hall 0%nat ltac:(lia)) as (la & Hla & Hlena).
  destruct (Hall 1%nat ltac:(lia)) as (nla & Hnla & Hlennla).
  rewrite Nat.add_0_r in Hla.
  replace (Z.to_nat level + 1)%nat with (Z.to_nat (wrap32 (level + 1))) in Hnla
    by (rewrite wrap32_small by lia; lia).
  assert (next_width width * sizeof T <= INT_MAX) as Hsz' by nia.
  destruct (populateMipmaps_body_completes T rm fm am arr width level md la nla
              ltac:(lia) Hsz' Hla Hnla Hlena Hlennla) as (arr1 & md1 & Hbody).
  rewrite Hbody. simpl.
  apply populateMipmaps_body_texels in Hbody
    as (la' & nla' & _ & _ & _ & _ & -> & _ & _ & _); [|lia|assumption].
  rewrite wrap32_small by lia.
  apply IH; try lia.
  - rewrite next_width_log2 by lia. lia.
  - rewrite next_width_log2 by lia. lia.
  - apply allocated_by_halving_step; try assumption; try lia.
    rewrite length_fmap, length_seqZ. lia.
Qed.

(** What a completed run has left in the device arrays and in
    [mipmapData]: every level after [level] holds, texel by texel, what the
    threads of its pass fetched from the level before it. *)
Lemma populateMipmaps_loop_texels fuel T rm fm am (arr : hipMipmappedArray_t)
    width level md arr' md' :
  1 <= width -> width * sizeof T <= INT_MAX ->
  0 <= level -> level + Z.log2 width < 2 ^ 32 ->
  populateMipmaps_loop fuel T rm fm am arr width level md = Done (arr', md') ->
  (forall i, (i <= Z.to_nat level)%nat -> arr' !! i = arr !! i) /\
  forall k : nat, Z.of_nat k < Z.log2 width ->
    exists src,
      arr' !! (Z.to_nat level + k)%nat = Some src /\
      arr' !! (Z.to_nat level + S k)%nat
      = Some (populate_texel T rm
                (mk_tex (hipResourceTypeArray src) (populate_texDescr rm fm am))
                (level_width width (S k)) <$> seqZ 0 (level_width width (S k))) /\
      md' !! (length md + k)%nat
      = Some (mk_level
                (populate_texel T rm
                   (mk_tex (hipResourceTypeArray src) (populate_texDescr rm fm am))
                   (level_width width (S k)) <$> seqZ 0 (level_width width (S k)))
                (mk_hipExtent (level_width width (S k)) 0 0)).
Proof.
  revert arr width level md.
  induction fuel as [|fuel IH]; intros arr width level md Hw Hsz Hl Hwrap H;
    simpl in H; [discriminate|].
  pose proof (sizeof_pos T) as HT.
  destruct (Z.eqb_spec width 1) as [->|Hne].
  - injection H as <- <-. split; [reflexivity|].
    intros k Hk. change (Z.log2 1) with 0 in Hk. lia.
  - pose proof (next_width_decreases width ltac:(lia)) as Hdec.
    pose proof (log2_pos width ltac:(lia)) as Hlog.
    assert (next_width width * sizeof T <= INT_MAX) as Hsz' by nia.
    destruct (populateMipmaps_body T rm fm am arr width level md)
      as [[[[arr1 width1] level1] md1]|f|] eqn:Hbody; simpl in H; try discriminate.
    apply populateMipmaps_body_texels in Hbody
      as (la & nla & Hla & Hnla & Hlen & Hnlen & -> & -> & -> & ->); [|lia|assumption].
    rewrite wrap32_small in * by lia.
    pose proof H as Hmd'.
    apply populateMipmaps_loop_widths in Hmd' as (new & Hmd' & _); [|lia].
    apply IH in H as [Hkeep Hnew]; try lia;
      [|rewrite next_width_log2 by lia; lia].
    assert (Z.to_nat (level + 1) = S (Z.to_nat level)) as Hnat by lia.
    rewrite Hnat in *.
    assert (S (Z.to_nat level) < length arr)%nat as Hin
      by (apply lookup_lt_Some in Hnla; assumption).
    split.
    + intros i Hi. rewrite Hkeep by lia.
      apply list_lookup_insert_ne. lia.
    + intros [|k] Hk.
      * exists la. rewrite Nat.add_0_r.
        change (level_width width 1) with (next_width width).
        split; [|split].
        -- rewrite Hkeep by lia. rewrite list_lookup_insert_ne by lia. assumption.
        -- rewrite Hkeep by lia.
           replace (Z.to_nat level + 1)%nat with (S (Z.to_nat level)) by lia.
           apply list_lookup_insert_eq. assumption.
        -- rewrite Hmd', <- app_assoc.
           rewrite lookup_app_r by lia.
           replace (length md + 0 - length md)%nat with 0%nat by lia. reflexivity.
      * destruct (Hnew k) as (src & Hsrc & Hdst & Hmd).
        { rewrite next_width_log2 by lia. lia. }
        exists src. rewrite (level_width_S width (S k)).
        replace (Z.to_nat level + S k)%nat with (S (Z.to_nat level) + k)%nat by lia.
        replace (Z.to_nat level + S (S k))%nat with (S (Z.to_nat level) + S k)%nat by lia.
        split; [assumption|]. split; [assumption|].
        rewrite <- Hmd. f_equal. rewrite length_app. simpl. lia.
Qed.

(** ** Levels the runtime allocated with a wrong width *)

Lemma populateMipmaps_loop_level_violation fuel T rm fm am (arr : hipMipmappedArray_t)
    width level md (bad nextLevelArray : hipArray_t) :
  width <> 1 ->
  arr !! Z.to_nat level = Some bad ->
  arr !! Z.to_nat (wrap32 (level + 1)) = Some nextLevelArray ->
  Z.of_nat (length bad) <> width ->
  populateMipmaps_loop (S fuel) T rm fm am arr width level md
  = Failed (LevelSizeMismatch level (Z.of_nat (length bad)) width).
Proof.
  intros Hne Hla Hnla Hlen. simpl.
  destruct (Z.eqb_spec width 1); [contradiction|].
  rewrite (populateMipmaps_body_level_mismatch _ _ _ _ _ _ _ _ bad nextLevelArray)
    by assumption.
  reflexivity.
Qed.

(** The first level after [level] whose width breaks the halving rule stops
    the loop in the pass that meets it as the next level. *)
Lemma populateMipmaps_loop_next_violation (k : nat) :
  forall fuel T rm fm am (arr : hipMipmappedArray_t) width level md (bad : hipArray_t),
  width * sizeof T <= INT_MAX ->
  0 <= level -> level + Z.log2 width < 2 ^ 32 ->
  Z.of_nat (S k) <= Z.log2 width -> (S k <= fuel)%nat ->
  (forall i, (i <= k)%nat ->
     exists a, arr !! (Z.to_nat level + i)%nat = Some a /\
               Z.of_nat (length a) = level_width width i) ->
  arr !! (Z.to_nat level + S k)%nat = Some bad ->
  Z.of_nat (length bad) <> level_width width (S k) ->
  populateMipmaps_loop fuel T rm fm am arr width level md
  = Failed (NextLevelSizeMismatch (level + Z.of_nat (S k))
              (Z.of_nat (length bad)) (level_width width (S k))).
Proof.
  induction k as [|k IH];
    intros fuel T rm fm am arr width level md bad Hsz Hl Hwrap Hk Hfuel Hgood Hbad Hlen;
    (destruct fuel as [|fuel]; [lia|]);
    pose proof (sizeof_pos T) as HT;
    assert (2 <= width) as Hw by (apply log2_pos_inv; lia);
    pose proof (next_width_decreases width Hw) as Hdec;
    destruct (Hgood 0%nat ltac:(lia)) as (la & Hla & Hlena);
    rewrite Nat.add_0_r in Hla; change (level_width width 0) with width in Hlena;
    simpl; (destruct (Z.eqb_spec width 1); [lia|]).
  - replace (Z.to_nat level + 1)%nat with (Z.to_nat (wrap32 (level + 1))) in Hbad
      by (rewrite wrap32_small by lia; lia).
    rewrite (populateMipmaps_body_next_mismatch _ _ _ _ _ _ _ _ la bad) by assumption.
    simpl. rewrite wrap32_small by lia. reflexivity.
  - destruct (Hgood 1%nat ltac:(lia)) as (nla & Hnla & Hlennla).
    replace (Z.to_nat level + 1)%nat with (Z.to_nat (wrap32 (level + 1))) in Hnla
      by (rewrite wrap32_small by lia; lia).
    assert (next_width width * sizeof T <= INT_MAX) as Hsz' by nia.
    destruct (populateMipmaps_body_completes T rm fm am arr width level md la nla
                ltac:(lia) Hsz' Hla Hnla Hlena Hlennla) as (arr1 & md1 & Hbody).
    rewrite Hbody. simpl.
    apply populateMipmaps_body_texels in Hbody
      as (la' & nla' & _ & _ & _ & _ & -> & _ & _ & _); [|lia|assumption].
    rewrite wrap32_small in * by lia.
    assert (Z.to_nat (level + 1) = S (Z.to_nat level)) as Hnat by lia.
    rewrite (IH fuel T rm fm am _ (next_width width) (level + 1) md1 bad);
      try lia; try (rewrite next_width_log2 by lia; lia).
    + rewrite <- level_width_S. do 2 f_equal. lia.
    + intros i Hi. rewrite Hnat. destruct i as [|i].
      * eexists. split.
        -- rewrite Nat.add_0_r. apply list_lookup_insert_eq.
           apply lookup_lt_Some in Hnla. lia.
        -- rewrite length_fmap, length_seqZ. unfold level_width. simpl. lia.
      * destruct (Hgood (S (S i)) ltac:(lia)) as (a & Ha & Hlena').
        exists a. split.
        -- rewrite list_lookup_insert_ne by lia.
           rewrite <- Ha. f_equal. lia.
        -- rewrite Hlena'. apply level_width_S.
    + rewrite Hnat, list_lookup_insert_ne by lia.
      rewrite <- Hbad. f_equal. lia.
    + rewrite <- level_width_S. assumption.
Qed.

(** ** The verification driver *)

Lemma hostZeroed_length_range T width :
  0 <= width <= INT_MAX ->
  Z.of_nat (length (hostZeroed T (wrap64 (width * sizeof T)))) = width.
Proof.
  intros Hw. pose proof (sizeof_pos T). unfold INT_MAX in Hw.
  unfold hostZeroed. rewrite wrap64_small by nia.
  rewrite Z.div_mul, length_replicate by lia. lia.
Qed.

(** The sampling launch returns every sample; the loop then runs over the
    buffer it filled. *)
Lemma verifyMipmapLevel_loop T fm am texMipmap data width level offsetX :
  0 <= width <= INT_MAX ->
  verifyMipmapLevel T fm am texMipmap data width level offsetX
  = verify_loop T fm am data
      (observed texMipmap width level offsetX <$> seqZ 0 width)
      width level offsetX (seqZ 0 width).
Proof.
  intros Hw. unfold verifyMipmapLevel, launch_sync, HIP_CHECK.
  rewrite launch_getMipmap by (try assumption; apply hostZeroed_length_range; assumption).
  reflexivity.
Qed.

Lemma observed_lookup texMipmap width level offsetX i :
  0 <= i < width ->
  (observed texMipmap width level offsetX <$> seqZ 0 width) !! Z.to_nat i
  = Some (observed texMipmap width level offsetX i).
Proof.
  intros Hi. rewrite list_lookup_fmap, lookup_seqZ_lt by lia.
  simpl. f_equal. f_equal. lia.
Qed.

(** The loop passes exactly when every index it visits matches. *)
Lemma verify_loop_Done T fm am texMipmap data width level offsetX todo :
  (forall i, i ∈ todo -> 0 <= i < width) ->
  verify_loop T fm am data (observed texMipmap width level offsetX <$> seqZ 0 width)
    width level offsetX todo = Done ()
  <-> forall i, i ∈ todo -> matches T fm am texMipmap data width level offsetX i = true.
Proof.
  induction todo as [|i todo IH]; intros Hin; simpl.
  - split; [intros _ i Hi; inversion Hi | reflexivity].
  - rewrite observed_lookup by (apply Hin; left).
    fold (expected T fm am data width offsetX i).
    fold (matches T fm am texMipmap data width level offsetX i).
    destruct (matches T fm am texMipmap data width level offsetX i) eqn:Hm; simpl.
    + rewrite IH by (intros j Hj; apply Hin; right; assumption).
      split.
      * intros H j Hj. apply elem_of_cons in Hj as [->|Hj]; [assumption|auto].
      * intros H j Hj. apply H. right. assumption.
    + split.
      * intros H. destruct (data !! Z.to_nat i); discriminate.
      * intros H. specialize (H i ltac:(left)). congruence.
Qed.

(** The loop stops at the first index that does not match and reports it. *)
Lemma verify_loop_mismatch T fm am texMipmap data width level offsetX pre i post d :
  (forall j, j ∈ pre ++ [i] -> 0 <= j < width) ->
  (forall j, j ∈ pre -> matches T fm am texMipmap data width level offsetX j = true) ->
  matches T fm am texMipmap data width level offsetX i = false ->
  data !! Z.to_nat i = Some d ->
  verify_loop T fm am data (observed texMipmap width level offsetX <$> seqZ 0 width)
    width level offsetX (pre ++ i :: post)
  = Failed (SamplingMismatch
      {| mm_level := level; mm_index := i;
         mm_coord := f32_add (f32_of_Z i) offsetX;
         mm_gpuOutput := observed texMipmap width level offsetX i;
         mm_cpuExpected := expected T fm am data width offsetX i;
         mm_data := d |}).
Proof.
  induction pre as [|j pre IH]; intros Hin Hpre Hi Hd; simpl.
  - rewrite observed_lookup by (apply Hin; left).
    fold (expected T fm am data width offsetX i).
    fold (matches T fm am texMipmap data width level offsetX i).
    rewrite Hi, Hd. reflexivity.
  - rewrite observed_lookup by (apply Hin; left).
    fold (expected T fm am data width offsetX j).
    fold (matches T fm am texMipmap data width level offsetX j).
    rewrite (Hpre j) by left. simpl. apply IH; try assumption.
    + intros k Hk. apply Hin. right. assumption.
    + intros k Hk. apply Hpre. right. assumption.
Qed.

Lemma verifyMipmapLevel_Done T fm am texMipmap data width level offsetX :
  0 <= width <= INT_MAX ->
  verifyMipmapLevel T fm am texMipmap data width level offsetX = Done ()
  <-> forall i, 0 <= i < width ->
        matches T fm am texMipmap data width level offsetX i = true.
Proof.
  intros Hw. rewrite verifyMipmapLevel_loop by assumption.
  rewrite verify_loop_Done by (intros i Hi; apply elem_of_seqZ in Hi; lia).
  split; intros H i Hi; apply H.
  - apply elem_of_seqZ. lia.
  - apply elem_of_seqZ in Hi. lia.
Qed.

Lemma verifyMipmapLevel_mismatch T fm am texMipmap data width level offsetX i d :
  0 <= width <= INT_MAX ->
  0 <= i < width ->
  (forall j, 0 <= j < i -> matches T fm am texMipmap data width level offsetX j = true) ->
  matches T fm am texMipmap data width level offsetX i = false ->
  data !! Z.to_nat i = Some d ->
  verifyMipmapLevel T fm am texMipmap data width level offsetX
  = Failed (SamplingMismatch
      {| mm_level := level; mm_index := i;
         mm_coord := f32_add (f32_of_Z i) offsetX;
         mm_gpuOutput := observed texMipmap width level offsetX i;
         mm_cpuExpected := expected T fm am data width offsetX i;
         mm_data := d |}).
Proof.
  intros Hw Hi Hpre Hm Hd. rewrite verifyMipmapLevel_loop by assumption.
  replace width with (i + (width - i)) at 4 by lia.
  rewrite seqZ_app by lia.
  rewrite (seqZ_cons (0 + i)) by lia. rewrite Z.add_0_l.
  apply verify_loop_mismatch; try assumption.
  - intros j Hj. apply elem_of_app in Hj as [Hj|Hj].
    + apply elem_of_seqZ in Hj. lia.
    + apply list_elem_of_singleton in Hj as ->. assumption.
  - intros j Hj. apply elem_of_seqZ in Hj. apply Hpre. lia.
Qed.

Lemma verify_levels_Done T rm fm am texMipmap offsetX level md :
  0 <= level -> level + Z.of_nat (length md) < 2 ^ 32 ->
  verify_levels T rm fm am texMipmap offsetX level md = Done ()
  <-> forall (n : nat) d, md !! n = Some d ->
        verify_level T rm fm am texMipmap offsetX (level + Z.of_nat n) d = Done ().
Proof.
  revert level. induction md as [|d0 md IH]; intros level Hl Hlen; simpl.
  - split; [intros _ n d Hn; discriminate | reflexivity].
  - simpl in Hlen.
    destruct (verify_level T rm fm am texMipmap offsetX level d0) as [[]|f|] eqn:Hd0; simpl.
    + rewrite wrap32_small by lia. rewrite IH by lia. split.
      * intros H [|n] d Hn.
        -- injection Hn as <-. rewrite Z.add_0_r. assumption.
        -- replace (level + Z.of_nat (S n)) with (level + 1 + Z.of_nat n) by lia.
           apply H. assumption.
      * intros H n d Hn.
        replace (level + 1 + Z.of_nat n) with (level + Z.of_nat (S n)) by lia.
        apply H. assumption.
    + split; [discriminate|]. intros H.
      specialize (H 0%nat d0 eq_refl). rewrite Z.add_0_r in H. congruence.
    + split; [discriminate|]. intros H.
      specialize (H 0%nat d0 eq_refl). rewrite Z.add_0_r in H. congruence.
Qed.

(** The first level that fails ends the loop with its failure. *)
Lemma verify_levels_Failed T rm fm am texMipmap offsetX level md (n : nat) d f :
  0 <= level -> level + Z.of_nat (length md) < 2 ^ 32 ->
  md !! n = Some d ->
  (forall (n' : nat) d', (n' < n)%nat -> md !! n' = Some d' ->
     verify_level T rm fm am texMipmap offsetX (level + Z.of_nat n') d' = Done ()) ->
  verify_level T rm fm am texMipmap offsetX (level + Z.of_nat n) d = Failed f ->
  verify_levels T rm fm am texMipmap offsetX level md = Failed f.
Proof.
  revert level n. induction md as [|d0 md IH]; intros level n Hl Hlen Hn Hpre Hf;
    [discriminate|].
  simpl in Hlen. destruct n as [|n].
  - injection Hn as ->. rewrite Z.add_0_r in Hf. simpl. rewrite Hf. reflexivity.
  - simpl.
    pose proof (Hpre 0%nat d0 ltac:(lia) eq_refl) as H0. rewrite Z.add_0_r in H0.
    rewrite H0. simpl. rewrite wrap32_small by lia.
    apply (IH (level + 1) n); try lia.
    + assumption.
    + intros n' d' Hn' Hd'.
      replace (level + 1 + Z.of_nat n') with (level + Z.of_nat (S n')) by lia.
      apply Hpre; [lia | assumption].
    + replace (level + 1 + Z.of_nat n) with (level + Z.of_nat (S n)) by lia. assumption.
Qed.

Lemma verify_level_unfold T rm fm am texMipmap offsetX level d :
  verify_level T rm fm am texMipmap offsetX level d
  = verifyMipmapLevel (sampleType T rm) fm am texMipmap (referenceData T rm d)
      (ext_width (e d)) (f32_of_Z level) offsetX.
Proof. destruct rm; reflexivity. Qed.

(** ** The test case *)

(** Once allocation and the upload of level 0 went through, the test case
    ends as synthesis ends when synthesis fails. *)
Lemma testMipmapTextureObj_synthesis_failed T rm fm am width offsetX arr0 arr f :
  hipMallocMipmappedArray T (mk_hipExtent width 0 0) (maxLevels width) = Some arr0 ->
  hipMemcpy3D (initial_texel T fm width <$> seqZ 0 width) width arr0 = Done arr ->
  populateMipmaps T rm fm am arr (mk_hipExtent width 0 0)
    [mk_level (initial_texel T fm width <$> seqZ 0 width) (mk_hipExtent width 0 0)]
  = Failed f ->
  testMipmapTextureObj T rm fm am width offsetX = Failed f.
Proof.
  intros Halloc Hcopy Hpop. unfold testMipmapTextureObj.
  rewrite Halloc. simpl. rewrite Hcopy. simpl. rewrite Hpop. reflexivity.
Qed.

(** When synthesis completes with the expected number of levels, the test
    case ends as the verification of the chain ends. *)
Lemma testMipmapTextureObj_verifies T rm fm am width offsetX arr0 arr arr' chain :
  hipMallocMipmappedArray T (mk_hipExtent width 0 0) (maxLevels width) = Some arr0 ->
  hipMemcpy3D (initial_texel T fm width <$> seqZ 0 width) width arr0 = Done arr ->
  populateMipmaps T rm fm am arr (mk_hipExtent width 0 0)
    [mk_level (initial_texel T fm width <$> seqZ 0 width) (mk_hipExtent width 0 0)]
  = Done (arr', chain) ->
  maxLevels width = Z.of_nat (length chain) ->
  testMipmapTextureObj T rm fm am width offsetX
  = verify_levels T rm fm am
      (mk_tex (hipResourceTypeMipmappedArray arr')
              (mipmap_texDescr rm fm am (maxLevels width)))
      offsetX 0 chain.
Proof.
  intros Halloc Hcopy Hpop Hlevels. unfold testMipmapTextureObj.
  rewrite Halloc. simpl. rewrite Hcopy. simpl. rewrite Hpop. simpl.
  rewrite Hlevels, Z.eqb_refl. reflexivity.
Qed.

Lemma chain_in_range_spec chain :
  chain_in_range chain = true ->
  Z.of_nat (length chain) < 2 ^ 32 /\
  forall d, d ∈ chain -> 0 <= ext_width (e d) <= INT_MAX.
Proof.
  unfold chain_in_range. intros H. apply andb_prop in H as [Hlen Hall].
  split; [apply Z.ltb_lt; assumption|].
  intros d Hd. rewrite forallb_forall in Hall.
  specialize (Hall d (proj1 (list_elem_of_In _ _) Hd)).
  apply andb_prop in Hall as [H1 H2].
  apply Z.leb_le in H1. apply Z.leb_le in H2. lia.
Qed.

(** The chain passes verification exactly when every texel of every level
    matches. *)
Lemma verify_levels_passes T rm fm am texMipmap offsetX chain :
  chain_in_range chain = true ->
  verify_levels T rm fm am texMipmap offsetX 0 chain = Done ()
  <-> forall (L : nat) d i, chain !! L = Some d -> 0 <= i < ext_width (e d) ->
        level_matches T rm fm am texMipmap offsetX L d i = true.
Proof.
  intros Hchain. apply chain_in_range_spec in Hchain as [Hlen Hrange]. rewrite verify_levels_Done by lia. split.
  - intros H L d i HL Hi. specialize (H L d HL).
    rewrite Z.add_0_l, verify_level_unfold in H.
    rewrite verifyMipmapLevel_Done in H
      by (apply Hrange; apply list_elem_of_lookup; eauto).
    apply H. assumption.
  - intros H L d HL. rewrite Z.add_0_l, verify_level_unfold.
    rewrite verifyMipmapLevel_Done
      by (apply Hrange; apply list_elem_of_lookup; eauto).
    intros i Hi. apply (H L d i HL Hi).
Qed.

(** The first texel, in level order and then index order, that does not
    match ends verification with its report. *)
Lemma verify_levels_mismatch T rm fm am texMipmap offsetX chain (L : nat) d i texel :
  chain_in_range chain = true ->
  chain !! L = Some d -> 0 <= i < ext_width (e d) ->
  referenceData T rm d !! Z.to_nat i = Some texel ->
  (forall (L' : nat) d' j, (L' < L)%nat -> chain !! L' = Some d' ->
     0 <= j < ext_width (e d') ->
     level_matches T rm fm am texMipmap offsetX L' d' j = true) ->
  (forall j, 0 <= j < i -> level_matches T rm fm am texMipmap offsetX L d j = true) ->
  level_matches T rm fm am texMipmap offsetX L d i = false ->
  verify_levels T rm fm am texMipmap offsetX 0 chain
  = Failed (SamplingMismatch
      {| mm_level := f32_of_Z (Z.of_nat L); mm_index := i;
         mm_coord := f32_add (f32_of_Z i) offsetX;
         mm_gpuOutput :=
           observed texMipmap (ext_width (e d)) (f32_of_Z (Z.of_nat L)) offsetX i;
         mm_cpuExpected :=
           expected (sampleType T rm) fm am (referenceData T rm d)
             (ext_width (e d)) offsetX i;
         mm_data := texel |}).
Proof.
  intros Hchain HL Hi Htexel Hlevels Hpre Hm.
  apply chain_in_range_spec in Hchain as [Hlen Hrange].
  apply (verify_levels_Failed _ _ _ _ _ _ _ _ L d); try lia; try assumption.
  - intros L' d' HL' Hd'. rewrite Z.add_0_l, verify_level_unfold.
    apply verifyMipmapLevel_Done; [apply Hrange; apply list_elem_of_lookup; eauto|].
    intros j Hj. apply (Hlevels L' d' j HL' Hd' Hj).
  - rewrite Z.add_0_l, verify_level_unfold.
    apply verifyMipmapLevel_mismatch; try assumption.
    apply Hrange. apply list_elem_of_lookup. eauto.
Qed.

Lemma apply_event_surf_length T m ev m' :
  apply_event T m ev = Some m' -> length (surfArray m') = length (surfArray m).
Proof.
  destruct ev as [tex c|tex c l|v x|x v]; simpl; intros H.
  - injection H as <-. reflexivity.
  - injection H as <-. reflexivity.
  - destruct ((0 <=? x) && (x mod sizeof T =? 0)
              && (x / sizeof T <? Z.of_nat (length (surfArray m)))); [|discriminate].
    injection H as <-. simpl. apply length_insert.
  - destruct (dataBuf m) as [d|]; [|discriminate].
    destruct ((0 <=? x) && (x <? Z.of_nat (length d))); [|discriminate].
    injection H as <-. reflexivity.
Qed.

Lemma run_events_surf_length T evs m m' :
  run_events T evs m = Some m' -> length (surfArray m') = length (surfArray m).
Proof.
  revert m. induction evs as [|ev evs IH]; intros m H; simpl in H.
  - injection H as <-. reflexivity.
  - destruct (apply_event T m ev) as [m1|] eqn:Hev; [|discriminate].
    rewrite (IH m1 H). apply (apply_event_surf_length T m ev m1 Hev).
Qed.

Lemma populateMipmaps_body_not_OutOfFuel T rm fm am arr width level md :
  populateMipmaps_body T rm fm am arr width level md <> OutOfFuel.
Proof.
  unfold populateMipmaps_body, hipGetMipmappedArrayLevel, launch_sync, HIP_CHECK.
  repeat (match goal with
          | |- context [match ?x with _ => _ end] => destruct x; simpl
          end; try discriminate).
Qed.

(** Whatever the width, a completed pass has replaced the next level by an
    array of the same length and left the other levels alone. *)
Lemma populateMipmaps_body_shape T rm fm am (arr : hipMipmappedArray_t)
    width level md arr' width' level' md' :
  populateMipmaps_body T rm fm am arr width level md = Done (arr', width', level', md') ->
  exists (nextLevelArray texels : hipArray_t),
    arr !! Z.to_nat (wrap32 (level + 1)) = Some nextLevelArray /\
    Z.of_nat (length nextLevelArray) = next_width width /\
    length texels = length nextLevelArray /\
    arr' = <[Z.to_nat (wrap32 (level + 1)) := texels]> arr /\
    width' = next_width width /\ level' = wrap32 (level + 1).
Proof.
  intros Hbody.
  apply populateMipmaps_body_Done in Hbody
    as (la & nla & m & _ & Hnla & _ & Hnlen & Hrun & -> & -> & -> & _).
  exists nla, (surfArray m). repeat split; try assumption.
  apply (run_events_surf_length _ _ _ _ Hrun).
Qed.

(** A level after [level] whose width breaks the halving rule fails the
    loop, whatever the width. *)
Lemma populateMipmaps_loop_violation_fails (k : nat) :
  forall fuel T rm fm am (arr : hipMipmappedArray_t) width level md (bad : hipArray_t),
  0 <= level -> level + Z.log2 width < 2 ^ 32 ->
  Z.of_nat (S k) <= Z.log2 width -> (S k <= fuel)%nat ->
  (forall i, (i <= k)%nat ->
     exists a, arr !! (Z.to_nat level + i)%nat = Some a /\
               Z.of_nat (length a) = level_width width i) ->
  arr !! (Z.to_nat level + S k)%nat = Some bad ->
  Z.of_nat (length bad) <> level_width width (S k) ->
  exists f, populateMipmaps_loop fuel T rm fm am arr width level md = Failed f.
Proof.
  induction k as [|k IH];
    intros fuel T rm fm am arr width level md bad Hl Hwrap Hk Hfuel Hgood Hbad Hlen;
    (destruct fuel as [|fuel]; [lia|]);
    assert (2 <= width) as Hw by (apply log2_pos_inv; lia);
    pose proof (next_width_decreases width Hw) as Hdec;
    simpl; (destruct (Z.eqb_spec width 1); [lia|]);
    pose proof (populateMipmaps_body_not_OutOfFuel T rm fm am arr width level md) as Hnof;
    (destruct (populateMipmaps_body T rm fm am arr width level md)
       as [[[[arr1 width1] level1] md1]|f|] eqn:Hbody; simpl;
     [|eauto|contradiction]);
    apply populateMipmaps_body_shape in Hbody
      as (nla & texels & Hnla & Hnlen & Htexels & -> & -> & ->);
    rewrite wrap32_small in * by lia;
    assert (Z.to_nat (level + 1) = S (Z.to_nat level)) as Hnat by lia;
    rewrite Hnat in *.
  - exfalso. replace (Z.to_nat level + 1)%nat with (S (Z.to_nat level)) in Hbad by lia.
    rewrite Hbad in Hnla. injection Hnla as <-.
    apply Hlen. exact Hnlen.
  - destruct (Hgood 1%nat ltac:(lia)) as (a1 & Ha1 & Hlena1).
    replace (Z.to_nat level + 1)%nat with (S (Z.to_nat level)) in Ha1 by lia.
    apply (IH fuel T rm fm am _ (next_width width) (level + 1) md1 bad);
      try lia; try (rewrite next_width_log2 by lia; lia).
    + intros i Hi. rewrite Hnat. destruct i as [|i].
      * exists texels. split.
        -- rewrite Nat.add_0_r. apply list_lookup_insert_eq.
           apply lookup_lt_Some in Hnla. lia.
        -- rewrite Htexels, Hnlen. reflexivity.
      * destruct (Hgood (S (S i)) ltac:(lia)) as (a & Ha & Hlena').
        exists a. split.
        -- rewrite list_lookup_insert_ne by lia.
           rewrite <- Ha. f_equal. lia.
        -- rewrite Hlena'. apply level_width_S.
    + rewrite Hnat, list_lookup_insert_ne by lia.
      rewrite <- Hbad. f_equal. lia.
    + rewrite <- level_width_S. assumption.
Qed.

(** In a completed run that found level [level] with the current width,
    every level the loop visited has, on the device, the width of the
    halving rule; the levels up to [level] are as they were. *)
Lemma populateMipmaps_loop_levels fuel T rm fm am (arr : hipMipmappedArray_t)
    width level md arr' md' (levelArray : hipArray_t) :
  1 <= width -> 0 <= level -> level + Z.log2 width < 2 ^ 32 ->
  arr !! Z.to_nat level = Some levelArray ->
  Z.of_nat (length levelArray) = width ->
  populateMipmaps_loop fuel T rm fm am arr width level md = Done (arr', md') ->
  (forall i, (i <= Z.to_nat level)%nat -> arr' !! i = arr !! i) /\
  forall i : nat, Z.of_nat i <= Z.log2 width ->
    exists a, arr' !! (Z.to_nat level + i)%nat = Some a /\
              Z.of_nat (length a) = level_width width i.
Proof.
  revert arr width level md levelArray.
  induction fuel as [|fuel IH]; intros arr width level md la Hw Hl Hwrap Hla Hlen H;
    simpl in H; [discriminate|].
  destruct (Z.eqb_spec width 1) as [->|Hne].
  - injection H as <- <-. split; [reflexivity|].
    intros i Hi. change (Z.log2 1) with 0 in Hi.
    assert (i = 0%nat) as -> by lia. rewrite Nat.add_0_r. eauto.
  - pose proof (next_width_decreases width ltac:(lia)) as Hdec.
    pose proof (log2_pos width ltac:(lia)) as Hlog.
    destruct (populateMipmaps_body T rm fm am arr width level md)
      as [[[[arr1 width1] level1] md1]|f|] eqn:Hbody; simpl in H; try discriminate.
    apply populateMipmaps_body_shape in Hbody
      as (nla & texels & Hnla & Hnlen & Htexels & -> & -> & ->).
    rewrite wrap32_small in * by lia.
    assert (Z.to_nat (level + 1) = S (Z.to_nat level)) as Hnat by lia.
    rewrite Hnat in Hnla, H.
    assert (S (Z.to_nat level) < length arr)%nat as Hin
      by (apply lookup_lt_Some in Hnla; assumption).
    assert (level + 1 + Z.log2 (next_width width) < 2 ^ 32) as Hwrap'
      by (rewrite next_width_log2 by lia; lia).
    assert ((<[S (Z.to_nat level) := texels]> arr) !! Z.to_nat (level + 1) = Some texels)
      as Htex by (rewrite Hnat; apply list_lookup_insert_eq; assumption).
    assert (Z.of_nat (length texels) = next_width width) as Hlent
      by (rewrite Htexels; assumption).
    destruct (IH (<[S (Z.to_nat level) := texels]> arr) (next_width width) (level + 1)
                md1 texels ltac:(lia) ltac:(lia) Hwrap' Htex Hlent H)
      as [Hkeep Hlevels].
    rewrite Hnat in *.
    split.
    + intros i Hi. rewrite Hkeep by lia. apply list_lookup_insert_ne. lia.
    + intros [|i] Hi.
      * exists la. rewrite Nat.add_0_r, Hkeep by lia.
        rewrite list_lookup_insert_ne by lia. split; assumption.
      * destruct (Hlevels i) as (a & Ha & Hlena).
        { rewrite next_width_log2 by lia. lia. }
        exists a. split.
        -- rewrite <- Ha. f_equal. lia.
        -- rewrite Hlena. symmetry. apply level_width_S.
Qed.

(** The first pass checks the current level itself. *)
Lemma populateMipmaps_loop_first_level fuel T rm fm am (arr : hipMipmappedArray_t)
    width level md arr' md' :
  width <> 1 ->
  populateMipmaps_loop fuel T rm fm am arr width level md = Done (arr', md') ->
  exists levelArray : hipArray_t,
    arr !! Z.to_nat level = Some levelArray /\ Z.of_nat (length levelArray) = width.
Proof.
  intros Hne H. destruct fuel as [|fuel]; simpl in H; [discriminate|].
  destruct (Z.eqb_spec width 1); [contradiction|].
  destruct (populateMipmaps_body T rm fm am arr width level md)
    as [[[[arr1 width1] level1] md1]|f|] eqn:Hbody; simpl in H; try discriminate.
  apply populateMipmaps_body_Done in Hbody
    as (la & nla & m & Hla & _ & Hlen & _).
  eauto.
Qed.

(** * Properties of the specification *)

Lemma level_widths_app md1 md2 :
  level_widths (md1 ++ md2) = level_widths md1 ++ level_widths md2.
Proof. unfold level_widths. apply fmap_app. Qed.

Lemma chain_widths_lookup width n (k : nat) :
  (k <= n)%nat -> (width :: widths_from width n) !! k = Some (level_width width k).
Proof.
  intros Hk. destruct k as [|k]; [reflexivity|].
  change ((width :: widths_from width n) !! S k) with (widths_from width n !! k).
  apply widths_from_lookup. lia.
Qed.

Lemma chain_widths_halving baseWidth n :
  1 <= baseWidth ->
  forall (k : nat) a b,
    (baseWidth :: widths_from baseWidth n) !! k = Some a ->
    (baseWidth :: widths_from baseWidth n) !! S k = Some b ->
    b = Z.max 1 (Z.shiftr a 1).
Proof.
  intros Hw k a b Ha Hb.
  assert (S k <= n)%nat as Hk.
  { apply lookup_lt_Some in Hb. simpl in Hb. rewrite widths_from_length in Hb. lia. }
  rewrite chain_widths_lookup in Ha, Hb by lia.
  injection Ha as <-. injection Hb as <-.
  pose proof (level_width_range baseWidth k Hw).
  rewrite <- next_width_max by lia. reflexivity.
Qed.

(** C2. Chain-length law: for a base width of at least 1, a synthesis that
    completes leaves exactly [1 + floor(log2 baseWidth)] levels in
    [mipmapData], the last of width 1, which is the [maxLevels] the test
    compares the size with; and synthesis does complete when the runtime
    allocated the levels by the halving rule (for widths the kernel can
    index with an [int]). *)
Theorem chain_length_law T rm fm am (arr : hipMipmappedArray_t) baseWidth texels :
  1 <= baseWidth <= SIZE_MAX ->
  (forall arr' chain,
     populateMipmaps T rm fm am arr (mk_hipExtent baseWidth 0 0)
       [mk_level texels (mk_hipExtent baseWidth 0 0)] = Done (arr', chain) ->
     Z.of_nat (length chain) = 1 + Z.log2 baseWidth /\
     last (level_widths chain) = Some 1 /\
     (baseWidth < 2 ^ 32 -> maxLevels baseWidth = Z.of_nat (length chain))) /\
  (baseWidth * sizeof T <= INT_MAX ->
   allocated_by_halving arr baseWidth 0 ->
   exists arr' chain,
     populateMipmaps T rm fm am arr (mk_hipExtent baseWidth 0 0)
       [mk_level texels (mk_hipExtent baseWidth 0 0)] = Done (arr', chain)).
Proof.
  intros Hw. pose proof (log2_lt_64 baseWidth Hw) as Hlog.
  pose proof (Z.log2_nonneg baseWidth) as Hlog0.
  split.
  - intros arr' chain H. unfold populateMipmaps in H. simpl ext_width in H.
    apply populateMipmaps_loop_widths in H as (new & -> & Hnew); [|lia].
    assert (length new = Z.to_nat (Z.log2 baseWidth)) as Hlen.
    { rewrite <- (widths_from_length baseWidth (Z.to_nat (Z.log2 baseWidth))), <- Hnew.
      unfold level_widths. rewrite length_fmap. reflexivity. }
    assert (Z.of_nat (length ([mk_level texels (mk_hipExtent baseWidth 0 0)] ++ new))
            = 1 + Z.log2 baseWidth) as Hchain.
    { rewrite length_app, Hlen. simpl. lia. }
    split; [assumption|]. split.
    + rewrite level_widths_app, Hnew. apply widths_from_last. lia.
    + intros _. rewrite Hchain. unfold maxLevels. apply wrap32_small. lia.
  - intros Hsz Hall. unfold populateMipmaps. simpl ext_width.
    apply populateMipmaps_loop_completes; try assumption; lia.
Qed.

(** C3. Monotone-halving law: in the chain a completed synthesis leaves,
    level 0 has the base width, every level has width
    [max(1, width of the previous level >> 1)] and the last level has
    width 1, and when a pass was made every level of the device array has
    the width recorded for it; the invariant holds of [mipmapData] before
    the first pass through the loop body and after every pass. *)
Theorem monotone_halving_law T rm fm am (arr : hipMipmappedArray_t) baseWidth texels :
  1 <= baseWidth <= SIZE_MAX ->
  (forall arr' chain,
     populateMipmaps T rm fm am arr (mk_hipExtent baseWidth 0 0)
       [mk_level texels (mk_hipExtent baseWidth 0 0)] = Done (arr', chain) ->
     halving_chain baseWidth (level_widths chain) 1 /\
     (baseWidth <> 1 ->
      forall (k : nat) w, level_widths chain !! k = Some w ->
        exists a : hipArray_t, arr' !! k = Some a /\ Z.of_nat (length a) = w)) /\
  halving_chain baseWidth
    (level_widths [mk_level texels (mk_hipExtent baseWidth 0 0)]) baseWidth /\
  (forall arr0 width level md arr1 width1 level1 md1,
     0 <= width ->
     halving_chain baseWidth (level_widths md) width ->
     populateMipmaps_body T rm fm am arr0 width level md = Done (arr1, width1, level1, md1) ->
     halving_chain baseWidth (level_widths md1) width1).
Proof.
  intros Hw. pose proof (log2_lt_64 baseWidth Hw) as Hlog.
  split; [|split].
  - intros arr' chain H. unfold populateMipmaps in H. simpl ext_width in H.
    pose proof H as Hrun.
    apply populateMipmaps_loop_widths in H as (new & -> & Hnew); [|lia].
    rewrite level_widths_app, Hnew.
    change (level_widths [mk_level texels (mk_hipExtent baseWidth 0 0)] ++ ?l)
      with (baseWidth :: l).
    split; [split; [reflexivity|split]|].
    + apply chain_widths_halving. lia.
    + apply widths_from_last. lia.
    + intros Hne k w Hk.
      assert (k <= Z.to_nat (Z.log2 baseWidth))%nat as Hkn.
      { apply lookup_lt_Some in Hk. simpl in Hk. rewrite widths_from_length in Hk. lia. }
      rewrite chain_widths_lookup in Hk by assumption. injection Hk as <-.
      destruct (populateMipmaps_loop_first_level _ _ _ _ _ _ _ _ _ _ _ Hne Hrun)
        as (la & Hla & Hlen).
      assert (1 <= baseWidth) as H1 by lia.
      assert (0 <= 0) as H0 by lia.
      assert (0 + Z.log2 baseWidth < 2 ^ 32) as Hwrap by lia.
      destruct (populateMipmaps_loop_levels _ _ _ _ _ _ _ _ _ _ _ la
                  H1 H0 Hwrap Hla Hlen Hrun) as [_ Hlevels].
      pose proof (Z.log2_nonneg baseWidth).
      apply (Hlevels k). lia.
  - split; [reflexivity|]. split; [|reflexivity].
    intros [|k] a b Ha Hb; discriminate.
  - intros arr0 width level md arr1 width1 level1 md1 Hwidth (H0 & Hhalf & Hlast) Hbody.
    apply populateMipmaps_body_Done in Hbody
      as (la & nla & m & _ & _ & _ & _ & _ & _ & -> & _ & ->).
    rewrite level_widths_app.
    change (level_widths [?d]) with [ext_width (e d)]. simpl ext_width.
    assert (length (level_widths md) <> 0%nat) as Hne.
    { apply lookup_lt_Some in H0. lia. }
    split; [|split].
    + rewrite lookup_app_l by lia. assumption.
    + intros k a b Ha Hb.
      destruct (decide (S k < length (level_widths md))%nat) as [Hlt|Hge].
      * rewrite lookup_app_l in Ha, Hb by lia. eauto.
      * assert (S k = length (level_widths md)) as Hk.
        { apply lookup_lt_Some in Hb. rewrite length_app in Hb. simpl in Hb. lia. }
        rewrite lookup_app_l in Ha by lia.
        rewrite lookup_app_r, Hk, Nat.sub_diag in Hb by lia.
        injection Hb as <-.
        rewrite last_lookup in Hlast.
        replace (Init.Nat.pred (length (level_widths md))) with k in Hlast by lia.
        rewrite Hlast in Ha. injection Ha as <-.
        apply next_width_max. assumption.
    + apply last_snoc.
Qed.

(** C9. Termination: for a base width of at least 1 the loop of
    [populateMipmaps] ends, whatever the runtime does: [1 + log2 baseWidth]
    tests of the condition suffice and more change nothing; the update
    [width = width >> 1 ? width >> 1 : 1] strictly decreases every width
    other than 1 and never goes below 1; a completed run has made exactly
    [log2 baseWidth] passes, through the widths of the halving rule; for a
    base width of 1 no pass is made and nothing is changed. *)
Theorem populateMipmaps_terminates T rm fm am (arr : hipMipmappedArray_t) baseWidth md :
  1 <= baseWidth <= SIZE_MAX ->
  populateMipmaps T rm fm am arr (mk_hipExtent baseWidth 0 0) md <> OutOfFuel /\
  (forall fuel, (Z.to_nat (Z.log2 baseWidth) < fuel)%nat ->
     populateMipmaps_loop fuel T rm fm am arr baseWidth 0 md
     = populateMipmaps T rm fm am arr (mk_hipExtent baseWidth 0 0) md) /\
  (forall width, 1 <= width -> width <> 1 -> 1 <= next_width width < width) /\
  (forall arr' md',
     populateMipmaps T rm fm am arr (mk_hipExtent baseWidth 0 0) md = Done (arr', md') ->
     exists new, md' = md ++ new /\
                 level_widths new = widths_from baseWidth (Z.to_nat (Z.log2 baseWidth))) /\
  (baseWidth = 1 ->
     populateMipmaps T rm fm am arr (mk_hipExtent baseWidth 0 0) md = Done (arr, md)).
Proof.
  intros Hw. pose proof (log2_lt_64 baseWidth Hw) as Hlog.
  pose proof (Z.log2_nonneg baseWidth) as Hlog0.
  assert (populateMipmaps_loop (S (Z.to_nat (Z.log2 baseWidth))) T rm fm am
            arr baseWidth 0 md <> OutOfFuel) as Hmin
    by (apply populateMipmaps_loop_fuel; lia).
  assert (forall fuel, (Z.to_nat (Z.log2 baseWidth) < fuel)%nat ->
            populateMipmaps_loop fuel T rm fm am arr baseWidth 0 md
            = populateMipmaps_loop (S (Z.to_nat (Z.log2 baseWidth))) T rm fm am
                arr baseWidth 0 md) as Hsame
    by (intros fuel Hfuel; apply populateMipmaps_loop_more_fuel; [lia|assumption]).
  unfold populateMipmaps. simpl ext_width.
  split; [|split; [|split; [|split]]].
  - rewrite Hsame by lia. assumption.
  - intros fuel Hfuel. rewrite (Hsame 65%nat) by lia. apply Hsame. assumption.
  - intros width H1 Hne. apply next_width_decreases. lia.
  - intros arr' md' H. apply populateMipmaps_loop_widths in H; [assumption|lia].
  - intros ->. reflexivity.
Qed.

(** C4. Contract violation: when the runtime allocated some level [k] that
    synthesis visits with a width other than the halving rule's, all levels
    before it being right, synthesis fails and the test case ends with the
    same failure; no later pass runs.  For widths the kernel indexes with an
    [int] the failure is that of the size check that meets level [k]
    ([REQUIRE(false)] after the message on [stderr]; for level 0 the handle
    of level 1 is obtained first). *)
Theorem contract_violation_is_fatal T rm fm am (arr : hipMipmappedArray_t) baseWidth
    md (k : nat) (bad : hipArray_t) :
  2 <= baseWidth <= SIZE_MAX ->
  Z.of_nat k <= Z.log2 baseWidth ->
  (forall i, (i < k)%nat ->
     exists a, arr !! i = Some a /\ Z.of_nat (length a) = level_width baseWidth i) ->
  arr !! k = Some bad ->
  Z.of_nat (length bad) <> level_width baseWidth k ->
  exists f,
    populateMipmaps T rm fm am arr (mk_hipExtent baseWidth 0 0) md = Failed f /\
    (baseWidth * sizeof T <= INT_MAX -> f = violation_failure arr baseWidth k bad) /\
    (forall offsetX arr0,
       md = [mk_level (initial_texel T fm baseWidth <$> seqZ 0 baseWidth)
               (mk_hipExtent baseWidth 0 0)] ->
       hipMallocMipmappedArray T (mk_hipExtent baseWidth 0 0) (maxLevels baseWidth)
       = Some arr0 ->
       hipMemcpy3D (initial_texel T fm baseWidth <$> seqZ 0 baseWidth) baseWidth arr0
       = Done arr ->
       testMipmapTextureObj T rm fm am baseWidth offsetX = Failed f).
Proof.
  intros Hw Hk Hgood Hbad Hlen.
  pose proof (sizeof_pos T) as HT.
  pose proof (log2_lt_64 baseWidth ltac:(lia)) as Hlog.
  assert (exists f,
            populateMipmaps T rm fm am arr (mk_hipExtent baseWidth 0 0) md = Failed f /\
            (baseWidth * sizeof T <= INT_MAX -> f = violation_failure arr baseWidth k bad))
    as (f & Hfail & Hf).
  { unfold populateMipmaps. simpl ext_width. destruct k as [|k].
    - exists (violation_failure arr baseWidth 0 bad). split; [|reflexivity].
      unfold violation_failure. change (level_width baseWidth 0) with baseWidth in Hlen.
      destruct (arr !! 1%nat) as [nla|] eqn:Hnla.
      + apply (populateMipmaps_loop_level_violation _ _ _ _ _ _ _ _ _ bad nla);
          try assumption; lia.
      + simpl. destruct (Z.eqb_spec baseWidth 1); [lia|].
        unfold populateMipmaps_body, hipGetMipmappedArrayLevel, HIP_CHECK.
        change (Z.to_nat 0) with 0%nat. rewrite Hbad. simpl.
        change (Z.to_nat (wrap32 (0 + 1))) with 1%nat. rewrite Hnla. reflexivity.
    - destruct (populateMipmaps_loop_violation_fails k 65 T rm fm am arr baseWidth 0 md bad)
        as (f & Hfail); try assumption; try lia.
      { intros i Hi. apply Hgood. lia. }
      exists f. split; [assumption|].
      intros Hsz. unfold violation_failure.
      rewrite (populateMipmaps_loop_next_violation k 65 T rm fm am arr baseWidth 0 md bad)
        in Hfail; try assumption; try lia.
      + injection Hfail as <-. reflexivity.
      + intros i Hi. apply Hgood. lia. }
  exists f. split; [assumption|]. split; [assumption|].
  intros offsetX arr0 -> Halloc Hcopy.
  apply (testMipmapTextureObj_synthesis_failed _ _ _ _ _ _ arr0 arr); assumption.
Qed.

Lemma populate_texel_lookup T rm texIn width j :
  0 <= j < width ->
  (populate_texel T rm texIn width <$> seqZ 0 width) !! Z.to_nat j
  = Some (populate_texel T rm texIn width j).
Proof.
  intros Hj. rewrite list_lookup_fmap, lookup_seqZ_lt by lia.
  simpl. do 2 f_equal. lia.
Qed.

(** C1, as the code has it. In every pass of a completed synthesis, thread
    [j] of the launch fetches from the previous level at the normalised
    coordinate [float(j) * px] with [px = 1.0 / float(newWidth)] (the left
    edge of texel [j], not its centre), through a texture object with
    normalised coordinates whose filter and address modes are those the
    test is instantiated with; the texel fetched (converted back from float4
    under a normalised read) is what the new level and [mipmapData] hold at
    [j]. *)
Theorem synthesis_samples_previous_level T rm fm am (arr : hipMipmappedArray_t)
    baseWidth md arr' chain :
  1 <= baseWidth -> baseWidth * sizeof T <= INT_MAX ->
  populateMipmaps T rm fm am arr (mk_hipExtent baseWidth 0 0) md = Done (arr', chain) ->
  forall k : nat, Z.of_nat k < Z.log2 baseWidth ->
  exists src dst,
    arr' !! k = Some src /\ arr' !! S k = Some dst /\
    let newWidth := Z.of_nat (length dst) in
    let texIn := mk_tex (hipResourceTypeArray src) (populate_texDescr rm fm am) in
    newWidth = level_width baseWidth (S k) /\
    chain !! (length md + k)%nat = Some (mk_level dst (mk_hipExtent newWidth 0 0)) /\
    normalizedCoords (texDescr texIn) = 1 /\
    filterMode (texDescr texIn) = fm /\
    addressMode0 (texDescr texIn) = am /\
    readMode (texDescr texIn) = rm /\
    forall j, 0 <= j < newWidth ->
      let coord := f32_mul (f32_of_Z j) (px newWidth) in
      let t := match rm with
               | hipReadModeElementType => tex1D texIn coord
               | hipReadModeNormalizedFloat =>
                   getTypeFromNormalizedFloat T (tex1D_float4 texIn coord)
               end in
      populateMipmapNextLevelArray T rm texIn newWidth true
        (j / blockSize_x) blockSize_x (j mod blockSize_x)
      = [ev_tex1D texIn coord; ev_surf1Dwrite t (j * sizeof T); ev_store j t] /\
      dst !! Z.to_nat j = Some t.
Proof.
  intros Hw Hsz H k Hk. unfold populateMipmaps in H. simpl ext_width in H.
  pose proof (sizeof_pos T) as HT.
  assert (Z.log2 baseWidth < 31) as Hlog.
  { apply Z.log2_lt_pow2; [lia|]. unfold INT_MAX in Hsz. nia. }
  apply populateMipmaps_loop_texels in H as [_ Htex]; try lia; try assumption.
  destruct (Htex k Hk) as (src & Hsrc & Hdst & Hmd).
  change (Z.to_nat 0 + k)%nat with k in Hsrc.
  change (Z.to_nat 0 + S k)%nat with (S k) in Hdst.
  pose proof (level_width_range baseWidth (S k) Hw) as Hrange.
  set (w := level_width baseWidth (S k)) in *.
  exists src, (populate_texel T rm
                 (mk_tex (hipResourceTypeArray src) (populate_texDescr rm fm am)) w
               <$> seqZ 0 w).
  assert (Z.of_nat (length (populate_texel T rm
             (mk_tex (hipResourceTypeArray src) (populate_texDescr rm fm am)) w
           <$> seqZ 0 w)) = w) as Hlen
    by (rewrite length_fmap, length_seqZ; lia).
  split; [assumption|]. split; [assumption|].
  cbv zeta. rewrite Hlen.
  split; [reflexivity|]. split; [assumption|].
  repeat (split; [reflexivity|]).
  intros j Hj. split.
  - pose proof (Z.div_mod j blockSize_x ltac:(unfold blockSize_x; lia)) as Hdm.
    pose proof (Z.mod_pos_bound j blockSize_x ltac:(unfold blockSize_x; lia)) as Hmod.
    assert (0 <= j / blockSize_x) by (apply Z.div_pos; unfold blockSize_x; lia).
    rewrite populateMipmapNextLevelArray_thread; try assumption; try nia.
    + replace (j / blockSize_x * blockSize_x + j mod blockSize_x) with j by lia.
      unfold populate_events. destruct (Z.ltb_spec j w); [|lia].
      unfold populate_texel, populate_coord. destruct rm; reflexivity.
    + unfold INT_MAX in *. nia.
  - rewrite populate_texel_lookup by assumption.
    unfold populate_texel, populate_coord. destruct rm; reflexivity.
Qed.

(** ** Bounds of the kernels' writes *)









(** C6. Sampling mismatch: the first texel, in level order and then index
    order, whose device sample does not match the reference ends
    verification with a [REQUIRE(false)] whose message carries the level,
    the index and coordinate, the device sample, the reference value and
    the source texel [data[i]]; verification that passes has met no
    mismatch; and the outcome of verification is the outcome of the test
    case. *)
Theorem first_mismatch_is_reported T rm fm am texMipmap offsetX chain :
  chain_in_range chain = true ->
  (forall (L : nat) d i texel,
     chain !! L = Some d -> 0 <= i < ext_width (e d) ->
     referenceData T rm d !! Z.to_nat i = Some texel ->
     (forall (L' : nat) d' j, (L' < L)%nat -> chain !! L' = Some d' ->
        0 <= j < ext_width (e d') ->
        level_matches T rm fm am texMipmap offsetX L' d' j = true) ->
     (forall j, 0 <= j < i -> level_matches T rm fm am texMipmap offsetX L d j = true) ->
     level_matches T rm fm am texMipmap offsetX L d i = false ->
     verify_levels T rm fm am texMipmap offsetX 0 chain
     = Failed (SamplingMismatch
         {| mm_level := f32_of_Z (Z.of_nat L); mm_index := i;
            mm_coord := f32_add (f32_of_Z i) offsetX;
            mm_gpuOutput :=
              tex1DLod texMipmap
                (f32_mul (f32_add (f32_of_Z i) offsetX) (px (ext_width (e d))))
                (f32_of_Z (Z.of_nat L));
            mm_cpuExpected :=
              getExpectedValue (sampleType T rm) am fm (ext_width (e d))
                (f32_add (f32_of_Z i) offsetX) (referenceData T rm d);
            mm_data := texel |})) /\
  (verify_levels T rm fm am texMipmap offsetX 0 chain = Done () ->
   forall (L : nat) d i, chain !! L = Some d -> 0 <= i < ext_width (e d) ->
     level_matches T rm fm am texMipmap offsetX L d i = true) /\
  (forall width arr0 arr arr',
     texMipmap = mk_tex (hipResourceTypeMipmappedArray arr')
                   (mipmap_texDescr rm fm am (maxLevels width)) ->
     hipMallocMipmappedArray T (mk_hipExtent width 0 0) (maxLevels width) = Some arr0 ->
     hipMemcpy3D (initial_texel T fm width <$> seqZ 0 width) width arr0 = Done arr ->
     populateMipmaps T rm fm am arr (mk_hipExtent width 0 0)
       [mk_level (initial_texel T fm width <$> seqZ 0 width) (mk_hipExtent width 0 0)]
     = Done (arr', chain) ->
     maxLevels width = Z.of_nat (length chain) ->
     testMipmapTextureObj T rm fm am width offsetX
     = verify_levels T rm fm am texMipmap offsetX 0 chain).
Proof.
  intros Hchain. split; [|split].
  - intros L d i texel HL Hi Htexel Hlevels Hpre Hm.
    apply (verify_levels_mismatch T rm fm am texMipmap offsetX chain L d i texel);
      assumption.
  - intros H. apply verify_levels_passes; assumption.
  - intros width arr0 arr arr' -> Halloc Hcopy Hpop Hmax.
    apply (testMipmapTextureObj_verifies _ _ _ _ _ _ arr0 arr); assumption.
Qed.


(** * Further properties of the code *)

(** ** The widths of the levels *)

Lemma level_width_shiftr width (k : nat) :
  1 <= width -> level_width width k = Z.max 1 (Z.shiftr width (Z.of_nat k)).
Proof.
  intros Hw. induction k as [|k IH].
  - unfold level_width. simpl. rewrite Z.shiftr_0_r. lia.
  - change (level_width width (S k)) with (next_width (level_width width k)).
    rewrite IH.
    assert (0 <= Z.shiftr width (Z.of_nat k)) as Hk by (apply Z.shiftr_nonneg; lia).
    rewrite next_width_max by lia.
    replace (Z.of_nat (S k)) with (Z.of_nat k + 1) by lia.
    rewrite <- Z.shiftr_shiftr by lia.
    destruct (Z.eq_dec (Z.shiftr width (Z.of_nat k)) 0) as [Hz|Hz].
    + rewrite Hz. reflexivity.
    + replace (Z.max 1 (Z.shiftr width (Z.of_nat k))) with (Z.shiftr width (Z.of_nat k))
        by lia.
      reflexivity.
Qed.

Lemma shiftr_log2_pos width (k : nat) :
  1 <= width -> Z.of_nat k <= Z.log2 width -> 1 <= Z.shiftr width (Z.of_nat k).
Proof.
  intros Hw Hk. rewrite Z.shiftr_div_pow2 by lia.
  pose proof (Z.log2_spec width ltac:(lia)) as [Hlo _].
  assert (2 ^ Z.of_nat k <= 2 ^ Z.log2 width) by (apply Z.pow_le_mono_r; lia).
  assert (0 < 2 ^ Z.of_nat k) by (apply Z.pow_pos_nonneg; lia).
  apply Z.div_le_lower_bound; lia.
Qed.

Lemma widths_from_total width :
  forall n, 1 <= width -> n = Z.to_nat (Z.log2 width) ->
  foldr Z.add 0 (widths_from width n) <= width - 1.
Proof.
  intros n. revert width. induction n as [|n IH]; intros width Hw Hn.
  - simpl. lia.
  - assert (1 <= Z.log2 width) as Hlog by lia.
    apply log2_pos_inv in Hlog.
    simpl. pose proof (next_width_decreases width Hlog) as Hnext.
    pose proof (next_width_log2 width Hlog) as Hnlog.
    specialize (IH (next_width width) ltac:(lia) ltac:(lia)).
    rewrite next_width_half in * by lia.
    pose proof (Z.mul_div_le width 2 ltac:(lia)). lia.
Qed.

(** X1. The width of every level is the base width shifted: in a completed
    synthesis from a base of width [baseWidth], the extent recorded for
    level [k] is [baseWidth >> k], which is at least 1, and [k] is at most
    [floor(log2 baseWidth)]. *)
Theorem recorded_width_is_shifted_base T rm fm am (arr : hipMipmappedArray_t)
    baseWidth texels arr' chain :
  1 <= baseWidth <= SIZE_MAX ->
  populateMipmaps T rm fm am arr (mk_hipExtent baseWidth 0 0)
    [mk_level texels (mk_hipExtent baseWidth 0 0)] = Done (arr', chain) ->
  forall (k : nat) w, level_widths chain !! k = Some w ->
    w = Z.shiftr baseWidth (Z.of_nat k) /\ 1 <= w /\ Z.of_nat k <= Z.log2 baseWidth.
Proof.
  intros Hw Hrun k w Hk.
  apply populateMipmaps_loop_widths in Hrun as (new & -> & Hnew); [|simpl; lia].
  simpl in Hnew. rewrite level_widths_app, Hnew in Hk. simpl in Hk.
  assert (k <= Z.to_nat (Z.log2 baseWidth))%nat as Hle.
  { apply lookup_lt_Some in Hk. simpl in Hk. rewrite widths_from_length in Hk. lia. }
  rewrite chain_widths_lookup in Hk by exact Hle.
  injection Hk as <-.
  pose proof (Z.log2_nonneg baseWidth).
  pose proof (shiftr_log2_pos baseWidth k ltac:(lia) ltac:(lia)).
  rewrite level_width_shiftr by lia. lia.
Qed.

(** X2. A chain holds fewer than twice the texels of its base: the widths
    recorded by a completed synthesis add up to at least [baseWidth] and at
    most [2 * baseWidth - 1]. *)
Theorem chain_holds_less_than_twice_the_base T rm fm am (arr : hipMipmappedArray_t)
    baseWidth texels arr' chain :
  1 <= baseWidth <= SIZE_MAX ->
  populateMipmaps T rm fm am arr (mk_hipExtent baseWidth 0 0)
    [mk_level texels (mk_hipExtent baseWidth 0 0)] = Done (arr', chain) ->
  baseWidth <= total_texels chain <= 2 * baseWidth - 1.
Proof.
  intros Hw Hrun.
  apply populateMipmaps_loop_widths in Hrun as (new & -> & Hnew); [|simpl; lia].
  simpl in Hnew. unfold total_texels. rewrite level_widths_app, Hnew. simpl.
  pose proof (widths_from_total baseWidth _ ltac:(lia) eq_refl) as Hup.
  assert (0 <= foldr Z.add 0 (widths_from baseWidth (Z.to_nat (Z.log2 baseWidth)))) as Hlo.
  { generalize (Z.to_nat (Z.log2 baseWidth)) as n.
    assert (forall n w, 1 <= w -> 0 <= foldr Z.add 0 (widths_from w n)) as Hpos.
    { intros n. induction n as [|n IH]; intros w Hw1; simpl; [lia|].
      pose proof (next_width_max w ltac:(lia)).
      specialize (IH (next_width w) ltac:(lia)). lia. }
    intros n. apply Hpos. lia. }
  lia.
Qed.

(** ** What synthesis leaves alone *)

Lemma populateMipmaps_loop_frame fuel T rm fm am :
  forall (arr : hipMipmappedArray_t) width level md arr' md',
  1 <= width -> 0 <= level -> level + Z.log2 width < 2 ^ 32 ->
  populateMipmaps_loop fuel T rm fm am arr width level md = Done (arr', md') ->
  length arr' = length arr /\
  (forall i : nat, (i <= Z.to_nat level)%nat \/ level + Z.log2 width < Z.of_nat i ->
     arr' !! i = arr !! i) /\
  (forall (i : nat) (a a' : hipArray_t), arr !! i = Some a -> arr' !! i = Some a' ->
     length a' = length a).
Proof.
  induction fuel as [|fuel IH]; intros arr width level md arr' md' Hw Hl Hrange Hrun;
    [discriminate|].
  simpl in Hrun. destruct (width =? 1) eqn:Hone.
  - injection Hrun as <- <-. split; [reflexivity|]. split; [reflexivity|].
    intros i a a' Ha Ha'. congruence.
  - apply Z.eqb_neq in Hone.
    destruct (populateMipmaps_body T rm fm am arr width level md)
      as [[[[arr1 width1] level1] md1]| |] eqn:Hbody; try discriminate.
    simpl in Hrun.
    pose proof (next_width_decreases width ltac:(lia)) as Hnext.
    pose proof (next_width_log2 width ltac:(lia)) as Hlog.
    pose proof (log2_pos width ltac:(lia)) as Hpos.
    apply populateMipmaps_body_shape in Hbody
      as (nextLevelArray & texels & Hnl & Hlen & Htex & -> & -> & ->).
    rewrite wrap32_small in * by lia.
    apply IH in Hrun as (Hlength & Hout & Hlens); try lia.
    rewrite length_insert in Hlength.
    split; [exact Hlength|]. split.
    + intros i Hi. rewrite Hout by lia.
      apply list_lookup_insert_ne. lia.
    + intros i a a' Ha Ha'.
      destruct (decide (i = Z.to_nat (level + 1))) as [->|Hne].
      * rewrite (Hlens (Z.to_nat (level + 1)) texels a').
        -- rewrite Htex. congruence.
        -- apply list_lookup_insert_eq. apply lookup_lt_Some in Hnl. exact Hnl.
        -- exact Ha'.
      * apply (Hlens i a a'); [|exact Ha'].
        rewrite list_lookup_insert_ne by congruence. exact Ha.
Qed.

(** X3. Synthesis writes only the levels it derives: a completed run of
    [populateMipmaps] keeps the number of levels of the device array, the
    texels of level 0, every level above [floor(log2 baseWidth)] and the
    length of every level, and only appends to [mipmapData]. *)
Theorem synthesis_writes_only_derived_levels T rm fm am (arr : hipMipmappedArray_t)
    baseWidth md arr' chain :
  1 <= baseWidth <= SIZE_MAX ->
  populateMipmaps T rm fm am arr (mk_hipExtent baseWidth 0 0) md = Done (arr', chain) ->
  length arr' = length arr /\
  arr' !! 0%nat = arr !! 0%nat /\
  (forall i : nat, Z.log2 baseWidth < Z.of_nat i -> arr' !! i = arr !! i) /\
  (forall (i : nat) (a a' : hipArray_t), arr !! i = Some a -> arr' !! i = Some a' ->
     length a' = length a) /\
  exists new, chain = md ++ new /\ Z.of_nat (length new) = Z.log2 baseWidth.
Proof.
  intros Hw Hrun. unfold populateMipmaps in Hrun. cbn [ext_width] in Hrun.
  pose proof (log2_lt_64 baseWidth Hw) as H64.
  pose proof (Z.log2_nonneg baseWidth) as Hnn.
  assert (1 <= baseWidth) as H1 by lia.
  assert (0 + Z.log2 baseWidth < 2 ^ 32) as H32 by lia.
  destruct (populateMipmaps_loop_frame 65 T rm fm am arr baseWidth 0 md arr' chain
              H1 (Z.le_refl 0) H32 Hrun) as (Hlen & Hout & Hlens).
  split; [exact Hlen|]. split; [apply Hout; left; simpl; lia|].
  split; [intros i Hi; apply Hout; right; lia|]. split; [exact Hlens|].
  apply populateMipmaps_loop_widths in Hrun as (new & -> & Hnew); [|lia].
  exists new. split; [reflexivity|].
  apply (f_equal length) in Hnew. unfold level_widths in Hnew.
  rewrite length_fmap, widths_from_length in Hnew. lia.
Qed.

(** X4. What the derived levels held before does not matter: two completed
    runs over device arrays with the same level 0 record the same chain and
    leave the same texels in every level up to [floor(log2 baseWidth)]. *)
Theorem synthesis_ignores_stale_levels T rm fm am (arr1 arr2 : hipMipmappedArray_t)
    baseWidth md arr1' arr2' chain1 chain2 :
  1 <= baseWidth -> baseWidth * sizeof T <= INT_MAX ->
  arr1 !! 0%nat = arr2 !! 0%nat ->
  populateMipmaps T rm fm am arr1 (mk_hipExtent baseWidth 0 0) md = Done (arr1', chain1) ->
  populateMipmaps T rm fm am arr2 (mk_hipExtent baseWidth 0 0) md = Done (arr2', chain2) ->
  chain1 = chain2 /\
  forall k : nat, Z.of_nat k <= Z.log2 baseWidth -> arr1' !! k = arr2' !! k.
Proof.
  intros Hw Hsz Hbase Hrun1 Hrun2. unfold populateMipmaps in *. cbn [ext_width] in Hrun1, Hrun2.
  pose proof (sizeof_pos T) as HT.
  assert (baseWidth <= INT_MAX) as Hint by nia.
  assert (Z.log2 baseWidth < 2 ^ 32) as Hlog.
  { pose proof (Z.log2_le_mono baseWidth (2 ^ 31) ltac:(unfold INT_MAX in Hint; lia)).
    rewrite Z.log2_pow2 in * by lia. lia. }
  assert (0 + Z.log2 baseWidth < 2 ^ 32) as H32 by lia.
  destruct (populateMipmaps_loop_texels 65 T rm fm am arr1 baseWidth 0 md arr1' chain1
              Hw Hsz (Z.le_refl 0) H32 Hrun1) as (Hkeep1 & Htex1).
  destruct (populateMipmaps_loop_texels 65 T rm fm am arr2 baseWidth 0 md arr2' chain2
              Hw Hsz (Z.le_refl 0) H32 Hrun2) as (Hkeep2 & Htex2).
  assert (forall k : nat, Z.of_nat k <= Z.log2 baseWidth -> arr1' !! k = arr2' !! k)
    as Hlevels.
  { intros k. induction k as [|k IH]; intros Hk.
    - rewrite Hkeep1, Hkeep2 by (simpl; lia). exact Hbase.
    - destruct (Htex1 k ltac:(lia)) as (src1 & Hs1 & Hd1 & _).
      destruct (Htex2 k ltac:(lia)) as (src2 & Hs2 & Hd2 & _).
      simpl in Hs1, Hd1, Hs2, Hd2.
      rewrite IH, Hs2 in Hs1 by lia. injection Hs1 as <-.
      rewrite Hd1, Hd2. reflexivity. }
  split; [|exact Hlevels].
  apply populateMipmaps_loop_widths in Hrun1 as (new1 & -> & Hnew1); [|lia].
  apply populateMipmaps_loop_widths in Hrun2 as (new2 & -> & Hnew2); [|lia].
  f_equal. apply list_eq. intros k.
  assert (length new1 = Z.to_nat (Z.log2 baseWidth)) as Hl1.
  { apply (f_equal length) in Hnew1. unfold level_widths in Hnew1.
    rewrite length_fmap, widths_from_length in Hnew1. exact Hnew1. }
  assert (length new2 = Z.to_nat (Z.log2 baseWidth)) as Hl2.
  { apply (f_equal length) in Hnew2. unfold level_widths in Hnew2.
    rewrite length_fmap, widths_from_length in Hnew2. exact Hnew2. }
  destruct (decide (k < Z.to_nat (Z.log2 baseWidth))%nat) as [Hk|Hk].
  - destruct (Htex1 k ltac:(lia)) as (src1 & Hs1 & _ & Hm1).
    destruct (Htex2 k ltac:(lia)) as (src2 & Hs2 & _ & Hm2).
    simpl in Hs1, Hs2.
    rewrite Hlevels, Hs2 in Hs1 by lia. injection Hs1 as <-.
    rewrite lookup_app_r in Hm1, Hm2 by lia.
    replace (length md + k - length md)%nat with k in Hm1, Hm2 by lia.
    rewrite Hm1, Hm2. reflexivity.
  - rewrite !lookup_ge_None_2 by lia. reflexivity.
Qed.

(** ** The empty base *)

(** X5. A base of width 0 costs one pass: the ternary in the halving makes
    the next width 1, so with an empty level 0 and a level 1 of one texel
    [populateMipmaps] runs the kernel once, writes the texel thread 0
    fetches at coordinate [0 * px] into level 1, and stops. *)
Theorem synthesis_of_empty_base T rm fm am (arr : hipMipmappedArray_t) md
    (t : PixelValue) :
  arr !! 0%nat = Some [] -> arr !! 1%nat = Some [t] ->
  next_width 0 = 1 /\
  populateMipmaps T rm fm am arr (mk_hipExtent 0 0 0) md
  = Done (<[1%nat := [single_texel T rm fm am []]]> arr,
          md ++ [mk_level [single_texel T rm fm am []] (mk_hipExtent 1 0 0)]).
Proof.
  intros H0 H1. split; [reflexivity|].
  pose proof (sizeof_pos T) as HT.
  assert (next_width 0 * sizeof T <= INT_MAX) as Hsz.
  { change (next_width 0) with 1. unfold INT_MAX. lia. }
  destruct (populateMipmaps_body_completes T rm fm am arr 0 0 md [] [t]
              (Z.le_refl 0) Hsz H0 H1 eq_refl eq_refl) as (arr' & md' & Hbody).
  pose proof Hbody as Hshape.
  apply populateMipmaps_body_texels in Hshape
    as (la & nla & Hla & Hnla & _ & _ & Harr & _ & _ & Hmd); [|lia|exact Hsz].
  change (Z.to_nat 0) with 0%nat in Hla. rewrite H0 in Hla. injection Hla as <-.
  unfold populateMipmaps. cbn [ext_width].
  change 65%nat with (S (S 63)). generalize 63%nat as fuel. intros fuel.
  cbn [populateMipmaps_loop]. change (0 =? 1) with false. cbv iota.
  rewrite Hbody. subst arr' md'. reflexivity.
Qed.

(** ** The launches, whatever the order of the threads *)

(** X6. The synthesis launch does not depend on the order in which the
    threads run: over a surface and a buffer of [width] texels, the events of
    the launch applied in any order leave thread [j]'s fetch in texel [j] of
    both, for every [j] below [width], and fault nowhere. *)
Theorem synthesis_launch_in_any_order T rm texIn width (s d : list PixelValue) evs :
  0 <= width -> width * sizeof T <= INT_MAX ->
  Z.of_nat (length s) = width -> Z.of_nat (length d) = width ->
  evs ≡ₚ launch (populateMipmapNextLevelArray T rm texIn (wrap32 width) true)
           (gridSize_x width) blockSize_x ->
  run_events T evs (mk_devmem s (Some d))
  = Some (mk_devmem (populate_texel T rm texIn width <$> seqZ 0 width)
                    (Some (populate_texel T rm texIn width <$> seqZ 0 width))).
Proof.
  intros Hw Hsz Hs Hd Hperm.
  rewrite (launch_populate_any_schedule T rm texIn width _ evs Hw Hsz Hperm).
  apply launch_populate; assumption.
Qed.

(** X7. The sampling launch does not depend on the order of the threads
    either: applied in any order to a zeroed or stale buffer of [width]
    texels, its events leave the sample of index [i] in cell [i] for every
    [i] below [width], and leave the surface alone. *)
Theorem sampling_launch_in_any_order T texMipmap width offsetX lod
    (s d : list PixelValue) evs :
  0 <= width <= INT_MAX ->
  Z.of_nat (length d) = width ->
  evs ≡ₚ launch (getMipmap texMipmap (wrap32 width) offsetX lod true)
           (gridSize_x width) blockSize_x ->
  run_events T evs (mk_devmem s (Some d))
  = Some (mk_devmem s
            (Some (getMipmap_texel texMipmap width offsetX lod <$> seqZ 0 width))).
Proof.
  intros Hw Hd Hperm.
  rewrite (launch_getMipmap_any_schedule T texMipmap width offsetX lod _ evs Hw Hperm).
  apply launch_getMipmap; assumption.
Qed.

(** ** What a failure of verification means *)

Lemma verify_loop_Failed T fm am texMipmap data width level offsetX todo f :
  (forall i, i ∈ todo -> 0 <= i < width) ->
  verify_loop T fm am data (observed texMipmap width level offsetX <$> seqZ 0 width)
    width level offsetX todo = Failed f ->
  exists pre i post,
    todo = pre ++ i :: post /\
    (forall j, j ∈ pre -> matches T fm am texMipmap data width level offsetX j = true) /\
    matches T fm am texMipmap data width level offsetX i = false /\
    match data !! Z.to_nat i with
    | Some d =>
        f = SamplingMismatch
              {| mm_level := level; mm_index := i;
                 mm_coord := f32_add (f32_of_Z i) offsetX;
                 mm_gpuOutput := observed texMipmap width level offsetX i;
                 mm_cpuExpected := expected T fm am data width offsetX i;
                 mm_data := d |}
    | None => f = HostOutOfBounds i
    end.
Proof.
  induction todo as [|i todo IH]; intros Hin Hrun; simpl in Hrun; [discriminate|].
  rewrite observed_lookup in Hrun by (apply Hin; left).
  fold (expected T fm am data width offsetX i) in Hrun.
  fold (matches T fm am texMipmap data width level offsetX i) in Hrun.
  destruct (matches T fm am texMipmap data width level offsetX i) eqn:Hm; simpl in Hrun.
  - destruct IH as (pre & k & post & -> & Hpre & Hk & Hf);
      [intros j Hj; apply Hin; right; exact Hj | exact Hrun |].
    exists (i :: pre), k, post. split; [reflexivity|]. split; [|split; assumption].
    intros j Hj. apply elem_of_cons in Hj as [->|Hj]; [exact Hm | apply Hpre, Hj].
  - exists [], i, todo. split; [reflexivity|]. split; [intros j Hj; inversion Hj|].
    split; [exact Hm|].
    destruct (data !! Z.to_nat i); injection Hrun as <-; reflexivity.
Qed.

Lemma seqZ_split_prefix width pre i post :
  0 <= width -> seqZ 0 width = pre ++ i :: post ->
  i = Z.of_nat (length pre) /\ 0 <= i < width /\
  forall j, 0 <= j < i -> j ∈ pre.
Proof.
  intros Hw Hsplit.
  assert (seqZ 0 width !! length pre = Some i) as Hi.
  { rewrite Hsplit. rewrite lookup_app_r by lia.
    replace (length pre - length pre)%nat with 0%nat by lia. reflexivity. }
  apply lookup_seqZ in Hi as [Hi Hlt].
  split; [lia|]. split; [lia|]. intros j Hj.
  assert (seqZ 0 width !! Z.to_nat j = Some j) as Hlook.
  { apply lookup_seqZ. lia. }
  rewrite Hsplit, lookup_app_l in Hlook by lia.
  apply list_elem_of_lookup_2 in Hlook. exact Hlook.
Qed.

Lemma verifyMipmapLevel_Failed T fm am texMipmap data width level offsetX f :
  0 <= width <= INT_MAX ->
  verifyMipmapLevel T fm am texMipmap data width level offsetX = Failed f ->
  exists i, 0 <= i < width /\
    (forall j, 0 <= j < i -> matches T fm am texMipmap data width level offsetX j = true) /\
    matches T fm am texMipmap data width level offsetX i = false /\
    match data !! Z.to_nat i with
    | Some d =>
        f = SamplingMismatch
              {| mm_level := level; mm_index := i;
                 mm_coord := f32_add (f32_of_Z i) offsetX;
                 mm_gpuOutput := observed texMipmap width level offsetX i;
                 mm_cpuExpected := expected T fm am data width offsetX i;
                 mm_data := d |}
    | None => f = HostOutOfBounds i
    end.
Proof.
  intros Hw Hrun. rewrite verifyMipmapLevel_loop in Hrun by assumption.
  apply verify_loop_Failed in Hrun as (pre & i & post & Hsplit & Hpre & Hi & Hf);
    [|intros j Hj; apply elem_of_seqZ in Hj; lia].
  apply seqZ_split_prefix in Hsplit as (_ & Hrange & Hin); [|lia].
  exists i. split; [exact Hrange|]. split; [|split; assumption].
  intros j Hj. apply Hpre, Hin, Hj.
Qed.

Lemma verify_levels_Failed_inv T rm fm am texMipmap offsetX level md f :
  0 <= level -> level + Z.of_nat (length md) < 2 ^ 32 ->
  verify_levels T rm fm am texMipmap offsetX level md = Failed f ->
  exists (n : nat) d,
    md !! n = Some d /\
    (forall (n' : nat) d', (n' < n)%nat -> md !! n' = Some d' ->
       verify_level T rm fm am texMipmap offsetX (level + Z.of_nat n') d' = Done ()) /\
    verify_level T rm fm am texMipmap offsetX (level + Z.of_nat n) d = Failed f.
Proof.
  revert level. induction md as [|d0 md IH]; intros level Hl Hlen Hrun; [discriminate|].
  simpl in Hlen, Hrun.
  destruct (verify_level T rm fm am texMipmap offsetX level d0) as [[]|f0|] eqn:Hd0;
    simpl in Hrun; try discriminate.
  - rewrite wrap32_small in Hrun by lia.
    apply IH in Hrun as (n & d & Hn & Hpre & Hf); try lia.
    exists (S n), d. split; [exact Hn|]. split.
    + intros [|n'] d' Hn' Hd'.
      * injection Hd' as <-. rewrite Z.add_0_r. exact Hd0.
      * replace (level + Z.of_nat (S n')) with (level + 1 + Z.of_nat n') by lia.
        apply Hpre; [lia | exact Hd'].
    + replace (level + Z.of_nat (S n)) with (level + 1 + Z.of_nat n) by lia. exact Hf.
  - injection Hrun as <-. exists 0%nat, d0. split; [reflexivity|]. split.
    + intros n' d' Hn'. lia.
    + rewrite Z.add_0_r. exact Hd0.
Qed.

Lemma referenceData_length T rm d :
  Z.of_nat (length (data d)) = ext_width (e d) ->
  Z.of_nat (length (referenceData T rm d)) = ext_width (e d).
Proof.
  intros Hd. destruct rm; simpl; [exact Hd|].
  unfold normalizedLevel. rewrite length_fmap, length_take. lia.
Qed.

(** X8. A reported sampling failure is genuine and is the first: when the
    verification of a chain ends with the report of a mismatch, the report
    names a level [L] and an index [i] inside it where the comparison fails,
    every earlier level and every earlier index of [L] compare equal, and
    the record carries the lod, the coordinate [i + offsetX], the device's
    sample, the reference value and the host texel of that index. *)
Theorem reported_mismatch_is_genuine T rm fm am texMipmap offsetX chain r :
  chain_in_range chain = true ->
  verify_levels T rm fm am texMipmap offsetX 0 chain = Failed (SamplingMismatch r) ->
  exists (L : nat) d i texel,
    chain !! L = Some d /\ 0 <= i < ext_width (e d) /\
    referenceData T rm d !! Z.to_nat i = Some texel /\
    (forall (L' : nat) d' j, (L' < L)%nat -> chain !! L' = Some d' ->
       0 <= j < ext_width (e d') ->
       level_matches T rm fm am texMipmap offsetX L' d' j = true) /\
    (forall j, 0 <= j < i -> level_matches T rm fm am texMipmap offsetX L d j = true) /\
    level_matches T rm fm am texMipmap offsetX L d i = false /\
    r = {| mm_level := f32_of_Z (Z.of_nat L); mm_index := i;
           mm_coord := f32_add (f32_of_Z i) offsetX;
           mm_gpuOutput :=
             tex1DLod texMipmap
               (f32_mul (f32_add (f32_of_Z i) offsetX) (px (ext_width (e d))))
               (f32_of_Z (Z.of_nat L));
           mm_cpuExpected :=
             getExpectedValue (sampleType T rm) am fm (ext_width (e d))
               (f32_add (f32_of_Z i) offsetX) (referenceData T rm d);
           mm_data := texel |}.
Proof.
  intros Hchain Hrun.
  apply chain_in_range_spec in Hchain as [Hlen Hwidths].
  apply verify_levels_Failed_inv in Hrun as (L & d & HL & Hpre & Hf); [|lia|lia].
  rewrite Z.add_0_l, verify_level_unfold in Hf.
  assert (d ∈ chain) as Hd by (eapply list_elem_of_lookup_2; exact HL).
  apply verifyMipmapLevel_Failed in Hf as (i & Hi & Hbefore & Hm & Hrep);
    [|apply Hwidths, Hd].
  destruct (referenceData T rm d !! Z.to_nat i) as [texel|] eqn:Htexel;
    [|discriminate].
  injection Hrep as ->.
  exists L, d, i, texel. repeat split; try assumption; try lia.
  intros L' d' j HL' Hd' Hj.
  specialize (Hpre L' d' HL' Hd'). rewrite Z.add_0_l, verify_level_unfold in Hpre.
  assert (d' ∈ chain) as Hd'in by (eapply list_elem_of_lookup_2; exact Hd').
  rewrite verifyMipmapLevel_Done in Hpre by (apply Hwidths, Hd'in).
  apply Hpre, Hj.
Qed.

(** ** The level-count check *)

Lemma populateMipmaps_body_failure_kind T rm fm am arr width level md f :
  populateMipmaps_body T rm fm am arr width level md = Failed f ->
  is_level_count_failure f = false.
Proof.
  unfold populateMipmaps_body, hipGetMipmappedArrayLevel, launch_sync, HIP_CHECK.
  destruct (arr !! Z.to_nat level) as [la|]; simpl;
    [|intros H; injection H as <-; reflexivity].
  destruct (arr !! Z.to_nat (wrap32 (level + 1))) as [nla|]; simpl;
    [|intros H; injection H as <-; reflexivity].
  destruct (negb (Z.of_nat (length la) =? width));
    [intros H; injection H as <-; reflexivity|].
  destruct (negb (Z.of_nat (length nla) =? next_width width));
    [intros H; injection H as <-; reflexivity|].
  destruct (run_events _ _ _); simpl; [discriminate|].
  intros H; injection H as <-; reflexivity.
Qed.

Lemma populateMipmaps_loop_failure_kind fuel T rm fm am :
  forall arr width level md f,
  populateMipmaps_loop fuel T rm fm am arr width level md = Failed f ->
  is_level_count_failure f = false.
Proof.
  induction fuel as [|fuel IH]; intros arr width level md f Hrun; [discriminate|].
  simpl in Hrun. destruct (width =? 1); [discriminate|].
  destruct (populateMipmaps_body T rm fm am arr width level md)
    as [[[[arr1 width1] level1] md1]|f1|] eqn:Hbody; simpl in Hrun; try discriminate.
  - eapply IH, Hrun.
  - injection Hrun as <-. eapply populateMipmaps_body_failure_kind, Hbody.
Qed.

Lemma verify_loop_failure_kind T fm am data hOutput width level offsetX todo f :
  verify_loop T fm am data hOutput width level offsetX todo = Failed f ->
  is_level_count_failure f = false.
Proof.
  induction todo as [|i todo IH]; intros Hrun; simpl in Hrun; [discriminate|].
  destruct (hOutput !! Z.to_nat i); [|injection Hrun as <-; reflexivity].
  destruct (negb _); [|apply IH, Hrun].
  destruct (data !! Z.to_nat i); injection Hrun as <-; reflexivity.
Qed.

Lemma verify_levels_failure_kind T rm fm am texMipmap offsetX md :
  forall level f,
  verify_levels T rm fm am texMipmap offsetX level md = Failed f ->
  is_level_count_failure f = false.
Proof.
  induction md as [|d md IH]; intros level f Hrun; [discriminate|].
  simpl in Hrun.
  destruct (verify_level T rm fm am texMipmap offsetX level d) as [[]|f0|] eqn:Hd;
    simpl in Hrun; try discriminate.
  - eapply IH, Hrun.
  - injection Hrun as <-. rewrite verify_level_unfold in Hd.
    unfold verifyMipmapLevel, launch_sync, HIP_CHECK in Hd.
    destruct (run_events _ _ _); simpl in Hd.
    + eapply verify_loop_failure_kind, Hd.
    + injection Hd as <-. reflexivity.
Qed.

Lemma maxLevels_small width : 1 <= width < 2 ^ 32 -> maxLevels width = 1 + Z.log2 width.
Proof.
  intros Hw. unfold maxLevels. apply wrap32_small.
  pose proof (Z.log2_nonneg width).
  assert (0 < width) as Hpos by lia.
  pose proof (proj1 (Z.log2_lt_pow2 width 32 Hpos)). lia.
Qed.

Lemma populateMipmaps_chain_length T rm fm am (arr : hipMipmappedArray_t) width md arr' chain :
  1 <= width ->
  populateMipmaps T rm fm am arr (mk_hipExtent width 0 0) md = Done (arr', chain) ->
  Z.of_nat (length chain) = Z.of_nat (length md) + Z.log2 width.
Proof.
  intros Hw Hrun. pose proof (Z.log2_nonneg width).
  apply populateMipmaps_loop_widths in Hrun as (new & -> & Hnew); [|exact Hw].
  apply (f_equal length) in Hnew. unfold level_widths in Hnew.
  rewrite length_fmap, widths_from_length in Hnew. cbn [ext_width] in Hnew.
  rewrite length_app. lia.
Qed.

Lemma testMipmapTextureObj_failure_kind T rm fm am width offsetX f :
  1 <= width < 2 ^ 32 ->
  testMipmapTextureObj T rm fm am width offsetX = Failed f ->
  is_level_count_failure f = false.
Proof.
  intros Hw Hrun. unfold testMipmapTextureObj in Hrun.
  destruct (hipMallocMipmappedArray T (mk_hipExtent width 0 0) (maxLevels width))
    as [arr0|]; simpl in Hrun; [|injection Hrun as <-; reflexivity].
  destruct (hipMemcpy3D (initial_texel T fm width <$> seqZ 0 width) width arr0)
    as [arr|f0|] eqn:Hcopy; simpl in Hrun; try discriminate.
  - destruct (populateMipmaps T rm fm am arr (mk_hipExtent width 0 0)
                [mk_level (initial_texel T fm width <$> seqZ 0 width)
                   (mk_hipExtent width 0 0)])
      as [[arr' chain]|f1|] eqn:Hpop; simpl in Hrun; try discriminate.
    + apply populateMipmaps_chain_length in Hpop; [|lia]. simpl in Hpop.
      rewrite maxLevels_small in Hrun by exact Hw.
      replace (1 + Z.log2 width =? Z.of_nat (length chain)) with true in Hrun
        by (symmetry; apply Z.eqb_eq; lia).
      simpl in Hrun. eapply verify_levels_failure_kind, Hrun.
    + injection Hrun as <-. eapply populateMipmaps_loop_failure_kind, Hpop.
  - injection Hrun as <-. unfold hipMemcpy3D, hipGetMipmappedArrayLevel, HIP_CHECK in Hcopy.
    destruct (arr0 !! Z.to_nat 0); simpl in Hcopy.
    + destruct (width <=? _); [discriminate|]. injection Hcopy as <-. reflexivity.
    + injection Hcopy as <-. reflexivity.
Qed.

(** X9. The level-count check of [testMipmapTextureObj] cannot fail: for a
    width from 1 to [2^32 - 1] a completed synthesis has recorded exactly
    [maxLevels] levels, so whatever the allocator, the device and the
    helpers do, the test case never ends with the failure of
    [maxLevels != mipmapData.size()]. *)
Theorem level_count_check_never_fails T rm fm am width offsetX f :
  1 <= width < 2 ^ 32 ->
  testMipmapTextureObj T rm fm am width offsetX = Failed f ->
  is_level_count_failure f = false.
Proof.
  apply testMipmapTextureObj_failure_kind.
Qed.

(** ** Memory safety of the whole test case *)

Lemma populateMipmaps_body_safe T rm fm am (arr : hipMipmappedArray_t) width level md f :
  0 <= width -> next_width width * sizeof T <= INT_MAX ->
  populateMipmaps_body T rm fm am arr width level md = Failed f ->
  is_memory_fault f = false.
Proof.
  intros Hw Hsz.
  destruct (arr !! Z.to_nat level) as [la|] eqn:Hla.
  2: { unfold populateMipmaps_body, hipGetMipmappedArrayLevel, HIP_CHECK.
       rewrite Hla. simpl. intros H. injection H as <-. reflexivity. }
  destruct (arr !! Z.to_nat (wrap32 (level + 1))) as [nla|] eqn:Hnla.
  2: { unfold populateMipmaps_body, hipGetMipmappedArrayLevel, HIP_CHECK.
       rewrite Hla, Hnla. simpl. intros H. injection H as <-. reflexivity. }
  destruct (Z.eq_dec (Z.of_nat (length la)) width) as [Hl|Hl].
  2: { rewrite (populateMipmaps_body_level_mismatch T rm fm am arr width level md la nla
                  Hla Hnla Hl).
       intros H. injection H as <-. reflexivity. }
  destruct (Z.eq_dec (Z.of_nat (length nla)) (next_width width)) as [Hn|Hn].
  2: { rewrite (populateMipmaps_body_next_mismatch T rm fm am arr width level md la nla
                  Hla Hnla Hl Hn).
       intros H. injection H as <-. reflexivity. }
  destruct (populateMipmaps_body_completes T rm fm am arr width level md la nla
              Hw Hsz Hla Hnla Hl Hn) as (arr' & md' & ->).
  discriminate.
Qed.

Lemma populateMipmaps_loop_safe fuel T rm fm am :
  forall (arr : hipMipmappedArray_t) width level md f,
  1 <= width -> width * sizeof T <= INT_MAX ->
  populateMipmaps_loop fuel T rm fm am arr width level md = Failed f ->
  is_memory_fault f = false.
Proof.
  induction fuel as [|fuel IH]; intros arr width level md f Hw Hsz Hrun; [discriminate|].
  simpl in Hrun. destruct (Z.eqb_spec width 1) as [|Hne]; [discriminate|].
  pose proof (sizeof_pos T) as HT.
  pose proof (next_width_decreases width ltac:(lia)) as Hnext.
  assert (next_width width * sizeof T <= INT_MAX) as Hsz' by nia.
  destruct (populateMipmaps_body T rm fm am arr width level md)
    as [[[[arr1 width1] level1] md1]|f1|] eqn:Hbody; simpl in Hrun; try discriminate.
  - apply populateMipmaps_body_shape in Hbody as (_ & _ & _ & _ & _ & _ & -> & _).
    apply IH in Hrun; [exact Hrun|lia|exact Hsz'].
  - injection Hrun as <-.
    apply (populateMipmaps_body_safe T rm fm am arr width level md); [lia|exact Hsz'|exact Hbody].
Qed.

Lemma verify_levels_safe T rm fm am texMipmap offsetX chain f :
  chain_in_range chain = true ->
  data_covers_extent chain ->
  verify_levels T rm fm am texMipmap offsetX 0 chain = Failed f ->
  is_memory_fault f = false.
Proof.
  intros Hchain Hcover Hrun.
  apply chain_in_range_spec in Hchain as [Hlen Hwidths].
  apply verify_levels_Failed_inv in Hrun as (L & d & HL & _ & Hf); [|lia|lia].
  rewrite verify_level_unfold in Hf.
  assert (d ∈ chain) as Hd by (eapply list_elem_of_lookup_2; exact HL).
  apply verifyMipmapLevel_Failed in Hf as (i & Hi & _ & _ & Hrep); [|apply Hwidths, Hd].
  pose proof (referenceData_length T rm d (Hcover d Hd)) as Hreflen.
  destruct (referenceData T rm d !! Z.to_nat i) as [texel|] eqn:Htexel.
  - rewrite Hrep. reflexivity.
  - apply lookup_ge_None_1 in Htexel. lia.
Qed.

(** The chain a completed synthesis records is in the range of the
    launches, and the host data of each level cover its extent. *)
Lemma synthesized_chain_covers T rm fm am (arr : hipMipmappedArray_t) baseWidth
    (texels : list PixelValue) arr' chain :
  1 <= baseWidth -> baseWidth * sizeof T <= INT_MAX ->
  Z.of_nat (length texels) = baseWidth ->
  populateMipmaps T rm fm am arr (mk_hipExtent baseWidth 0 0)
    [mk_level texels (mk_hipExtent baseWidth 0 0)] = Done (arr', chain) ->
  chain_in_range chain = true /\ data_covers_extent chain.
Proof.
  intros Hw Hsz Htexels Hrun.
  pose proof (sizeof_pos T) as HT.
  assert (baseWidth <= INT_MAX) as Hint by nia.
  assert (Z.log2 baseWidth < 32) as Hlog.
  { assert (0 < baseWidth) as Hpos by lia.
    apply (proj1 (Z.log2_lt_pow2 baseWidth 32 Hpos)). unfold INT_MAX in Hint. lia. }
  pose proof (Z.log2_nonneg baseWidth) as Hnn.
  pose proof Hrun as Hlength.
  apply populateMipmaps_chain_length in Hlength; [|exact Hw]. simpl in Hlength.
  unfold populateMipmaps in Hrun. cbn [ext_width] in Hrun.
  assert (0 + Z.log2 baseWidth < 2 ^ 32) as H32 by lia.
  destruct (populateMipmaps_loop_texels 65 T rm fm am arr baseWidth 0 _ arr' chain
              Hw Hsz (Z.le_refl 0) H32 Hrun) as (_ & Htex).
  apply populateMipmaps_loop_widths in Hrun as (new & Hchain & _); [|exact Hw].
  assert (forall d, d ∈ chain ->
            1 <= ext_width (e d) <= baseWidth /\
            Z.of_nat (length (data d)) = ext_width (e d)) as Hall.
  { intros d Hd. apply list_elem_of_lookup in Hd as [n Hn].
    destruct n as [|k].
    - rewrite Hchain in Hn. injection Hn as <-. simpl. lia.
    - assert (Z.of_nat k < Z.log2 baseWidth) as Hk.
      { apply lookup_lt_Some in Hn. lia. }
      destruct (Htex k Hk) as (src & _ & _ & Hmd).
      cbn [length Nat.add] in Hmd. rewrite Hn in Hmd. injection Hmd as ->.
      cbn [data e ext_width].
      pose proof (level_width_range baseWidth (S k) Hw) as Hlw.
      change (level_width baseWidth (S k))
        with (next_width (level_width baseWidth k)) in Hlw.
      rewrite length_fmap, length_seqZ. lia. }
  split.
  - unfold chain_in_range. apply andb_true_intro. split; [apply Z.ltb_lt; lia|].
    apply forallb_forall. intros d Hd. apply list_elem_of_In in Hd.
    destruct (Hall d Hd) as [Hrange _].
    apply andb_true_intro. split; apply Z.leb_le; lia.
  - intros d Hd. apply Hall, Hd.
Qed.

Lemma testMipmapTextureObj_safe T rm fm am width offsetX f :
  1 <= width -> width * sizeof T <= INT_MAX ->
  testMipmapTextureObj T rm fm am width offsetX = Failed f ->
  is_memory_fault f = false.
Proof.
  intros Hw Hsz Hrun. unfold testMipmapTextureObj in Hrun.
  destruct (hipMallocMipmappedArray T (mk_hipExtent width 0 0) (maxLevels width))
    as [arr0|]; simpl in Hrun; [|injection Hrun as <-; reflexivity].
  destruct (hipMemcpy3D (initial_texel T fm width <$> seqZ 0 width) width arr0)
    as [arr|f0|] eqn:Hcopy; simpl in Hrun; try discriminate.
  - destruct (populateMipmaps T rm fm am arr (mk_hipExtent width 0 0)
                [mk_level (initial_texel T fm width <$> seqZ 0 width)
                   (mk_hipExtent width 0 0)])
      as [[arr' chain]|f1|] eqn:Hpop; simpl in Hrun; try discriminate.
    + destruct (negb (maxLevels width =? Z.of_nat (length chain)));
        [injection Hrun as <-; reflexivity|].
      apply synthesized_chain_covers in Hpop as [Hrange Hcover];
        [|exact Hw|exact Hsz|rewrite length_fmap, length_seqZ; lia].
      eapply verify_levels_safe; [exact Hrange|exact Hcover|exact Hrun].
    + injection Hrun as <-.
      eapply populateMipmaps_loop_safe; [exact Hw|exact Hsz|exact Hpop].
  - injection Hrun as <-. unfold hipMemcpy3D, hipGetMipmappedArrayLevel, HIP_CHECK in Hcopy.
    destruct (arr0 !! Z.to_nat 0); simpl in Hcopy.
    + destruct (width <=? _); [discriminate|]. injection Hcopy as <-. reflexivity.
    + injection Hcopy as <-. reflexivity.
Qed.

(** X10. The test case is memory safe: for a width from 1 on whose level 0
    takes at most [INT_MAX] bytes, whatever the allocator returns and the
    device samples, no launch of either kernel makes an access out of range
    and no read of [hOutput], [data] or [fData] in the verification loop
    leaves its buffer.  In the embedding these are the failures
    [is_memory_fault] names; the test case never ends with one. *)
Theorem test_is_memory_safe T rm fm am width offsetX f :
  1 <= width -> width * sizeof T <= INT_MAX ->
  testMipmapTextureObj T rm fm am width offsetX = Failed f ->
  is_memory_fault f = false.
Proof.
  apply testMipmapTextureObj_safe.
Qed.

(** ** The test case end to end *)

(** X11. A passing test case has checked every texel: for a width from 1 on
    whose level 0 takes at most [INT_MAX] bytes, when
    [testMipmapTextureObj] returns without a failure, the allocation and the
    upload of level 0 succeeded, synthesis completed and recorded
    [maxLevels] levels, and the sample of every index of every level of the
    chain compared equal to the reference value. *)
Theorem passing_test_checked_every_texel T rm fm am width offsetX :
  1 <= width -> width * sizeof T <= INT_MAX ->
  testMipmapTextureObj T rm fm am width offsetX = Done () ->
  exists (arr0 arr arr' : hipMipmappedArray_t) chain,
    hipMallocMipmappedArray T (mk_hipExtent width 0 0) (maxLevels width) = Some arr0 /\
    hipMemcpy3D (initial_texel T fm width <$> seqZ 0 width) width arr0 = Done arr /\
    populateMipmaps T rm fm am arr (mk_hipExtent width 0 0)
      [mk_level (initial_texel T fm width <$> seqZ 0 width) (mk_hipExtent width 0 0)]
    = Done (arr', chain) /\
    Z.of_nat (length chain) = maxLevels width /\
    forall (L : nat) d i, chain !! L = Some d -> 0 <= i < ext_width (e d) ->
      level_matches T rm fm am
        (mk_tex (hipResourceTypeMipmappedArray arr')
                (mipmap_texDescr rm fm am (maxLevels width)))
        offsetX L d i = true.
Proof.
  intros Hw Hsz Hrun. unfold testMipmapTextureObj in Hrun.
  destruct (hipMallocMipmappedArray T (mk_hipExtent width 0 0) (maxLevels width))
    as [arr0|]; simpl in Hrun; [|discriminate].
  destruct (hipMemcpy3D (initial_texel T fm width <$> seqZ 0 width) width arr0)
    as [arr|f0|] eqn:Hcopy; simpl in Hrun; try discriminate.
  destruct (populateMipmaps T rm fm am arr (mk_hipExtent width 0 0)
              [mk_level (initial_texel T fm width <$> seqZ 0 width)
                 (mk_hipExtent width 0 0)])
    as [[arr' chain]|f1|] eqn:Hpop; simpl in Hrun; try discriminate.
  destruct (Z.eqb_spec (maxLevels width) (Z.of_nat (length chain))) as [Hmax|Hmax];
    simpl in Hrun; [|discriminate].
  exists arr0, arr, arr', chain.
  split; [reflexivity|]. split; [exact Hcopy|]. split; [exact Hpop|].
  split; [symmetry; exact Hmax|].
  apply verify_levels_passes; [|exact Hrun].
  apply (synthesized_chain_covers T rm fm am arr width
           (initial_texel T fm width <$> seqZ 0 width) arr' chain Hw Hsz);
    [rewrite length_fmap, length_seqZ; lia | exact Hpop].
Qed.

Lemma hipMemcpy3D_level0 (texels : list PixelValue) width (arr0 : hipMipmappedArray_t)
    (level0 : hipArray_t) :
  0 <= width -> Z.of_nat (length texels) = width ->
  arr0 !! 0%nat = Some level0 -> Z.of_nat (length level0) = width ->
  hipMemcpy3D texels width arr0 = Done (<[0%nat := texels]> arr0).
Proof.
  intros Hw Htexels Hlevel Hlen.
  unfold hipMemcpy3D, hipGetMipmappedArrayLevel, HIP_CHECK.
  change (Z.to_nat 0) with 0%nat. rewrite Hlevel. simpl.
  destruct (Z.leb_spec width (Z.of_nat (length level0))); [|lia].
  rewrite take_ge, drop_ge, app_nil_r by lia. reflexivity.
Qed.

Lemma allocated_by_halving_upload (arr0 : hipMipmappedArray_t) width
    (texels : list PixelValue) :
  Z.of_nat (length texels) = width ->
  allocated_by_halving arr0 width 0 ->
  allocated_by_halving (<[0%nat := texels]> arr0) width 0.
Proof.
  intros Htexels Hall i Hi. destruct (Hall i Hi) as (a & Ha & Hlen).
  change (Z.to_nat 0) with 0%nat in *. simpl in *.
  destruct i as [|i].
  - exists texels. split; [|exact Htexels].
    apply list_lookup_insert_eq. apply lookup_lt_Some in Ha. exact Ha.
  - exists a. split; [|exact Hlen].
    rewrite list_lookup_insert_ne by lia. exact Ha.
Qed.

Lemma verify_loop_not_size T fm am data hOutput width level offsetX todo f :
  verify_loop T fm am data hOutput width level offsetX todo = Failed f ->
  is_size_failure f = false.
Proof.
  induction todo as [|i todo IH]; intros Hrun; simpl in Hrun; [discriminate|].
  destruct (hOutput !! Z.to_nat i); [|injection Hrun as <-; reflexivity].
  destruct (negb _); [|apply IH, Hrun].
  destruct (data !! Z.to_nat i); injection Hrun as <-; reflexivity.
Qed.

Lemma verify_levels_not_size T rm fm am texMipmap offsetX md :
  forall level f,
  verify_levels T rm fm am texMipmap offsetX level md = Failed f ->
  is_size_failure f = false.
Proof.
  induction md as [|d md IH]; intros level f Hrun; [discriminate|].
  simpl in Hrun.
  destruct (verify_level T rm fm am texMipmap offsetX level d) as [[]|f0|] eqn:Hd;
    simpl in Hrun; try discriminate.
  - eapply IH, Hrun.
  - injection Hrun as <-. rewrite verify_level_unfold in Hd.
    unfold verifyMipmapLevel, launch_sync, HIP_CHECK in Hd.
    destruct (run_events _ _ _); simpl in Hd.
    + eapply verify_loop_not_size, Hd.
    + injection Hd as <-. reflexivity.
Qed.

(** X21. With an allocator that follows the halving rule the size checks
    never fire: for a width from 1 on whose level 0 takes at most [INT_MAX]
    bytes, when the allocated levels have the widths of the halving rule,
    the test case does not end with the failure of either size check of
    [populateMipmaps], whatever the device samples. *)
Theorem halving_allocator_passes_size_checks T rm fm am width offsetX
    (arr0 : hipMipmappedArray_t) f :
  1 <= width -> width * sizeof T <= INT_MAX ->
  hipMallocMipmappedArray T (mk_hipExtent width 0 0) (maxLevels width) = Some arr0 ->
  allocated_by_halving arr0 width 0 ->
  testMipmapTextureObj T rm fm am width offsetX = Failed f ->
  is_size_failure f = false.
Proof.
  intros Hw Hsz Halloc Hall Hrun.
  pose proof (sizeof_pos T) as HT.
  assert (width <= INT_MAX) as Hint by nia.
  assert (width < 2 ^ 32) as H32 by (unfold INT_MAX in Hint; lia).
  pose proof (Z.log2_nonneg width) as Hnn.
  assert (Z.log2 width < 32) as Hlog.
  { assert (0 < width) as Hpos by lia.
    apply (proj1 (Z.log2_lt_pow2 width 32 Hpos)). lia. }
  set (texels := initial_texel T fm width <$> seqZ 0 width) in *.
  assert (Z.of_nat (length texels) = width) as Htexels.
  { unfold texels. rewrite length_fmap, length_seqZ. lia. }
  destruct (Hall 0%nat ltac:(lia)) as (level0 & Hlevel0 & Hlen0).
  change (Z.to_nat 0 + 0)%nat with 0%nat in Hlevel0.
  change (level_width width 0) with width in Hlen0.
  pose proof (hipMemcpy3D_level0 texels width arr0 level0 ltac:(lia) Htexels Hlevel0 Hlen0)
    as Hcopy.
  pose proof (allocated_by_halving_upload arr0 width texels Htexels Hall) as Hall'.
  assert (0 + Z.log2 width < 2 ^ 32) as Hwrap by lia.
  assert (Z.to_nat (Z.log2 width) < 65)%nat as Hfuel by lia.
  destruct (populateMipmaps_loop_completes 65 T rm fm am (<[0%nat := texels]> arr0)
              width 0 [mk_level texels (mk_hipExtent width 0 0)]
              Hw Hsz (Z.le_refl 0) Hwrap Hfuel Hall') as (arr' & chain & Hpop).
  change (populateMipmaps_loop 65 T rm fm am (<[0%nat := texels]> arr0) width 0
            [mk_level texels (mk_hipExtent width 0 0)])
    with (populateMipmaps T rm fm am (<[0%nat := texels]> arr0) (mk_hipExtent width 0 0)
            [mk_level texels (mk_hipExtent width 0 0)]) in Hpop.
  pose proof (populateMipmaps_chain_length _ _ _ _ _ _ _ _ _ Hw Hpop) as Hlength.
  simpl in Hlength.
  assert (maxLevels width = Z.of_nat (length chain)) as Hmax.
  { rewrite maxLevels_small by lia. lia. }
  rewrite (testMipmapTextureObj_verifies T rm fm am width offsetX arr0 _ arr' chain
             Halloc Hcopy Hpop Hmax) in Hrun.
  eapply verify_levels_not_size, Hrun.
Qed.

(** ** What a failure of synthesis means *)

Lemma populateMipmaps_body_level_failure T rm fm am (arr : hipMipmappedArray_t)
    width level md l r x :
  populateMipmaps_body T rm fm am arr width level md = Failed (LevelSizeMismatch l r x) ->
  l = level /\ x = width /\ r <> x /\
  exists a : hipArray_t, arr !! Z.to_nat l = Some a /\ Z.of_nat (length a) = r.
Proof.
  unfold populateMipmaps_body, hipGetMipmappedArrayLevel, launch_sync, HIP_CHECK.
  destruct (arr !! Z.to_nat level) as [la|] eqn:Hla; simpl; [|discriminate].
  destruct (arr !! Z.to_nat (wrap32 (level + 1))) as [nla|]; simpl; [|discriminate].
  destruct (Z.eqb_spec (Z.of_nat (length la)) width) as [Hl|Hl]; simpl.
  - destruct (negb (Z.of_nat (length nla) =? next_width width)); [discriminate|].
    destruct (run_events _ _ _); discriminate.
  - intros H. injection H as <- <- <-. repeat split; try assumption. eauto.
Qed.

Lemma populateMipmaps_body_next_failure T rm fm am (arr : hipMipmappedArray_t)
    width level md l r x :
  populateMipmaps_body T rm fm am arr width level md
  = Failed (NextLevelSizeMismatch l r x) ->
  l = wrap32 (level + 1) /\ x = next_width width /\ r <> x /\
  exists a : hipArray_t, arr !! Z.to_nat l = Some a /\ Z.of_nat (length a) = r.
Proof.
  unfold populateMipmaps_body, hipGetMipmappedArrayLevel, launch_sync, HIP_CHECK.
  destruct (arr !! Z.to_nat level) as [la|]; simpl; [|discriminate].
  destruct (arr !! Z.to_nat (wrap32 (level + 1))) as [nla|] eqn:Hnla; simpl; [|discriminate].
  destruct (Z.eqb_spec (Z.of_nat (length la)) width) as [Hl|Hl]; simpl; [|discriminate].
  destruct (Z.eqb_spec (Z.of_nat (length nla)) (next_width width)) as [Hn|Hn]; simpl.
  - destruct (run_events _ _ _); discriminate.
  - intros H. injection H as <- <- <-. repeat split; try assumption. eauto.
Qed.

Lemma populateMipmaps_loop_size_failure fuel T rm fm am :
  forall (arr : hipMipmappedArray_t) width level md l r x,
  1 <= width -> 0 <= level -> level + Z.log2 width < 2 ^ 32 ->
  (populateMipmaps_loop fuel T rm fm am arr width level md
   = Failed (LevelSizeMismatch l r x) ->
   l = level /\ x = width /\ r <> x /\
   exists a : hipArray_t, arr !! Z.to_nat l = Some a /\ Z.of_nat (length a) = r) /\
  (populateMipmaps_loop fuel T rm fm am arr width level md
   = Failed (NextLevelSizeMismatch l r x) ->
   exists k : nat,
     l = level + Z.of_nat (S k) /\ Z.of_nat (S k) <= Z.log2 width /\
     x = level_width width (S k) /\ r <> x /\
     exists a : hipArray_t, arr !! Z.to_nat l = Some a /\ Z.of_nat (length a) = r).
Proof.
  induction fuel as [|fuel IH]; intros arr width level md l r x Hw Hl Hwrap;
    [split; discriminate|].
  simpl. destruct (Z.eqb_spec width 1) as [|Hne]; [split; discriminate|].
  pose proof (next_width_decreases width ltac:(lia)) as Hnext.
  pose proof (next_width_log2 width ltac:(lia)) as Hlog.
  pose proof (log2_pos width ltac:(lia)) as Hpos.
  destruct (populateMipmaps_body T rm fm am arr width level md)
    as [[[[arr1 width1] level1] md1]|f1|] eqn:Hbody; simpl; [| |split; discriminate].
  - apply populateMipmaps_body_shape in Hbody
      as (nla & texels & Hnla & Hnlen & Htexels & -> & -> & ->).
    rewrite wrap32_small in * by lia.
    assert (level + 1 + Z.log2 (next_width width) < 2 ^ 32) as Hwrap' by lia.
    destruct (IH (<[Z.to_nat (level + 1) := texels]> arr) (next_width width) (level + 1)
                md1 l r x ltac:(lia) ltac:(lia) Hwrap') as [IHlevel IHnext].
    split.
    + intros Hrun. exfalso.
      destruct (IHlevel Hrun) as (-> & -> & Hr & a & Ha & Hlen).
      rewrite list_lookup_insert_eq in Ha by (apply lookup_lt_Some in Hnla; exact Hnla).
      injection Ha as <-. apply Hr. rewrite <- Hlen, Htexels. exact Hnlen.
    + intros Hrun.
      destruct (IHnext Hrun) as (k & -> & Hk & -> & Hr & a & Ha & Hlen).
      exists (S k). split; [lia|]. split; [lia|].
      split; [symmetry; apply (level_width_S width (S k))|].
      split; [exact Hr|].
      exists a. split; [|exact Hlen].
      rewrite list_lookup_insert_ne in Ha by lia. exact Ha.
  - split.
    + intros H. injection H as ->.
      apply populateMipmaps_body_level_failure in Hbody. exact Hbody.
    + intros H. injection H as ->.
      apply populateMipmaps_body_next_failure in Hbody as (-> & -> & Hr & Ha).
      rewrite wrap32_small in * by lia.
      exists 0%nat. split; [lia|]. split; [lia|]. split; [reflexivity|].
      split; [exact Hr|]. replace (level + Z.of_nat 1) with (level + 1) by lia. exact Ha.
Qed.

(** X12. A reported size mismatch is genuine: when [populateMipmaps] ends
    with the failure of the next-level check, the level it names lies
    between 1 and [floor(log2 baseWidth)], the device array has that level
    with the reported width, the expected width is [baseWidth] shifted right
    by the level, and the two differ; the failure of the current-level check
    can only name level 0 and the base width. *)
Theorem reported_size_mismatch_is_genuine T rm fm am (arr : hipMipmappedArray_t)
    baseWidth md l r x :
  1 <= baseWidth <= SIZE_MAX ->
  (populateMipmaps T rm fm am arr (mk_hipExtent baseWidth 0 0) md
   = Failed (LevelSizeMismatch l r x) ->
   l = 0 /\ x = baseWidth /\ r <> x /\
   exists a : hipArray_t, arr !! 0%nat = Some a /\ Z.of_nat (length a) = r) /\
  (populateMipmaps T rm fm am arr (mk_hipExtent baseWidth 0 0) md
   = Failed (NextLevelSizeMismatch l r x) ->
   1 <= l <= Z.log2 baseWidth /\
   x = level_width baseWidth (Z.to_nat l) /\ x = Z.shiftr baseWidth l /\ r <> x /\
   exists a : hipArray_t, arr !! Z.to_nat l = Some a /\ Z.of_nat (length a) = r).
Proof.
  intros Hw. unfold populateMipmaps. cbn [ext_width].
  pose proof (log2_lt_64 baseWidth Hw) as H64.
  assert (1 <= baseWidth) as H1 by lia.
  assert (0 + Z.log2 baseWidth < 2 ^ 32) as H32 by lia.
  destruct (populateMipmaps_loop_size_failure 65 T rm fm am arr baseWidth 0 md l r x
              H1 (Z.le_refl 0) H32) as [Hlevel Hnext].
  split.
  - intros Hrun. destruct (Hlevel Hrun) as (-> & -> & Hr & a & Ha & Hlen).
    repeat split; try assumption. exists a. split; assumption.
  - intros Hrun. destruct (Hnext Hrun) as (k & -> & Hk & -> & Hr & a & Ha & Hlen).
    rewrite Z.add_0_l in *. rewrite Nat2Z.id.
    split; [lia|]. split; [reflexivity|]. split.
    + rewrite level_width_shiftr by exact H1.
      pose proof (shiftr_log2_pos baseWidth (S k) H1 Hk). lia.
    + split; [exact Hr|]. exists a. rewrite Nat2Z.id in Ha. split; assumption.
Qed.

Lemma populateMipmaps_body_missing_next T rm fm am (arr : hipMipmappedArray_t)
    width level md (levelArray : hipArray_t) :
  arr !! Z.to_nat level = Some levelArray ->
  arr !! Z.to_nat (wrap32 (level + 1)) = None ->
  populateMipmaps_body T rm fm am arr width level md
  = Failed (HipCheckFailed (hipGetMipmappedArrayLevel_call (wrap32 (level + 1)))).
Proof.
  intros Hla Hnla. unfold populateMipmaps_body, hipGetMipmappedArrayLevel, HIP_CHECK.
  rewrite Hla, Hnla. reflexivity.
Qed.

Lemma populateMipmaps_loop_missing_level (k : nat) :
  forall fuel T rm fm am (arr : hipMipmappedArray_t) width level md,
  width * sizeof T <= INT_MAX ->
  0 <= level -> level + Z.log2 width < 2 ^ 32 ->
  Z.of_nat (S k) <= Z.log2 width -> (S k <= fuel)%nat ->
  (forall i, (i <= k)%nat ->
     exists a, arr !! (Z.to_nat level + i)%nat = Some a /\
               Z.of_nat (length a) = level_width width i) ->
  arr !! (Z.to_nat level + S k)%nat = None ->
  populateMipmaps_loop fuel T rm fm am arr width level md
  = Failed (HipCheckFailed (hipGetMipmappedArrayLevel_call (level + Z.of_nat (S k)))).
Proof.
  induction k as [|k IH];
    intros fuel T rm fm am arr width level md Hsz Hl Hwrap Hk Hfuel Hgood Hbad;
    (destruct fuel as [|fuel]; [lia|]);
    pose proof (sizeof_pos T) as HT;
    assert (2 <= width) as Hw by (apply log2_pos_inv; lia);
    pose proof (next_width_decreases width Hw) as Hdec;
    destruct (Hgood 0%nat ltac:(lia)) as (la & Hla & Hlena);
    rewrite Nat.add_0_r in Hla; change (level_width width 0) with width in Hlena;
    simpl; (destruct (Z.eqb_spec width 1); [lia|]).
  - replace (Z.to_nat level + 1)%nat with (Z.to_nat (wrap32 (level + 1))) in Hbad
      by (rewrite wrap32_small by lia; lia).
    rewrite (populateMipmaps_body_missing_next _ _ _ _ _ _ _ _ la) by assumption.
    simpl. rewrite wrap32_small by lia. reflexivity.
  - destruct (Hgood 1%nat ltac:(lia)) as (nla & Hnla & Hlennla).
    replace (Z.to_nat level + 1)%nat with (Z.to_nat (wrap32 (level + 1))) in Hnla
      by (rewrite wrap32_small by lia; lia).
    assert (next_width width * sizeof T <= INT_MAX) as Hsz' by nia.
    destruct (populateMipmaps_body_completes T rm fm am arr width level md la nla
                ltac:(lia) Hsz' Hla Hnla Hlena Hlennla) as (arr1 & md1 & Hbody).
    rewrite Hbody. simpl.
    apply populateMipmaps_body_texels in Hbody
      as (la' & nla' & _ & _ & _ & _ & -> & _ & _ & _); [|lia|assumption].
    rewrite wrap32_small in * by lia.
    assert (Z.to_nat (level + 1) = S (Z.to_nat level)) as Hnat by lia.
    rewrite (IH fuel T rm fm am _ (next_width width) (level + 1) md1);
      try lia; try (rewrite next_width_log2 by lia; lia).
    + do 3 f_equal. lia.
    + intros i Hi. rewrite Hnat. destruct i as [|i].
      * eexists. split.
        -- rewrite Nat.add_0_r. apply list_lookup_insert_eq.
           apply lookup_lt_Some in Hnla. lia.
        -- rewrite length_fmap, length_seqZ. unfold level_width. simpl. lia.
      * destruct (Hgood (S (S i)) ltac:(lia)) as (a & Ha & Hlena').
        exists a. split.
        -- rewrite list_lookup_insert_ne by lia.
           rewrite <- Ha. f_equal. lia.
        -- rewrite Hlena'. apply level_width_S.
    + rewrite Hnat, list_lookup_insert_ne by lia.
      rewrite <- Hbad. f_equal. lia.
Qed.

(** X13. A mipmapped array with too few levels stops synthesis at the first
    missing level: when the array has between 1 and [floor(log2 baseWidth)]
    levels, each of the width of the halving rule, [populateMipmaps] derives
    the levels that exist and then ends with the failed call
    [hipGetMipmappedArrayLevel] for the level whose index is the number of
    levels; it never reads a level that is not there. *)
Theorem missing_level_stops_synthesis T rm fm am (arr : hipMipmappedArray_t)
    baseWidth md :
  baseWidth * sizeof T <= INT_MAX ->
  1 <= Z.of_nat (length arr) <= Z.log2 baseWidth ->
  (forall (i : nat), (i < length arr)%nat ->
     exists a, arr !! i = Some a /\ Z.of_nat (length a) = level_width baseWidth i) ->
  populateMipmaps T rm fm am arr (mk_hipExtent baseWidth 0 0) md
  = Failed (HipCheckFailed (hipGetMipmappedArrayLevel_call (Z.of_nat (length arr)))).
Proof.
  intros Hsz Hlen Hgood. unfold populateMipmaps. cbn [ext_width].
  pose proof (sizeof_pos T) as HT.
  assert (2 <= baseWidth) as Hw by (apply log2_pos_inv; lia).
  assert (baseWidth <= INT_MAX) as Hint by nia.
  assert (Z.log2 baseWidth < 32) as Hlog.
  { assert (0 < baseWidth) as Hpos by lia.
    apply (proj1 (Z.log2_lt_pow2 baseWidth 32 Hpos)). unfold INT_MAX in Hint. lia. }
  destruct (length arr) as [|k] eqn:Hk; [lia|].
  assert (0 + Z.log2 baseWidth < 2 ^ 32) as H32 by lia.
  assert (S k <= 65)%nat as Hfuel by lia.
  rewrite (populateMipmaps_loop_missing_level k 65 T rm fm am arr baseWidth 0 md
             Hsz (Z.le_refl 0) H32 (proj2 Hlen) Hfuel).
  - rewrite Z.add_0_l. reflexivity.
  - intros i Hi. apply Hgood. lia.
  - apply lookup_ge_None_2. simpl. lia.
Qed.

(** ** The kernels without a buffer, and beyond the range of [int] *)

Lemma launch_Forall (P : event -> Prop) (kernel : Z -> Z -> Z -> list event) g bs :
  (forall b t, Forall P (kernel b bs t)) -> Forall P (launch kernel g bs).
Proof.
  intros Hk. unfold launch.
  apply Forall_bind, Forall_forall. intros b _.
  apply Forall_bind, Forall_forall. intros t _. apply Hk.
Qed.

Lemma run_events_no_store T evs :
  Forall (fun ev => forall x t, ev <> ev_store x t) evs ->
  forall m m', run_events T evs m = Some m' -> dataBuf m' = dataBuf m.
Proof.
  induction 1 as [|ev evs Hev _ IH]; intros m m' Hrun.
  - injection Hrun as <-. reflexivity.
  - rewrite run_events_cons in Hrun.
    destruct (apply_event T m ev) as [m1|] eqn:Hap; [|discriminate].
    rewrite (IH m1 m' Hrun).
    destruct ev as [tex c|tex c l|v x|x v]; simpl in Hap.
    + injection Hap as <-. reflexivity.
    + injection Hap as <-. reflexivity.
    + destruct (_ && _); [|discriminate]. injection Hap as <-. reflexivity.
    + exfalso. apply (Hev x v). reflexivity.
Qed.

Lemma run_events_fetches T evs m :
  Forall (fun ev => cell T ev = None) evs -> run_events T evs m = Some m.
Proof.
  induction 1 as [|ev evs Hev _ IH]; [reflexivity|].
  rewrite run_events_cons.
  destruct ev as [tex c|tex c l|v x|x v]; simpl in *; try discriminate; exact IH.
Qed.

(** X14. Without a buffer the kernels skip the store: launched with
    [data == nullptr], in any grid and over any memory, [getMipmap] only
    samples and leaves memory as it was, and
    [populateMipmapNextLevelArray] writes the surface only. *)
Theorem null_data_skips_the_store T rm texIn texMipmap width offsetX lod g bs m :
  run_events T (launch (getMipmap texMipmap width offsetX lod false) g bs) m = Some m /\
  forall m',
    run_events T (launch (populateMipmapNextLevelArray T rm texIn width false) g bs) m
    = Some m' ->
    dataBuf m' = dataBuf m.
Proof.
  split.
  - apply run_events_fetches, launch_Forall. intros b t.
    unfold getMipmap. destruct (_ <? _); repeat constructor.
  - apply run_events_no_store, launch_Forall. intros b t.
    unfold populateMipmapNextLevelArray.
    destruct (_ <? _); [|constructor].
    destruct rm; repeat constructor; discriminate.
Qed.

(** X15. The [int] index bounds the widths the sampling kernel can serve:
    for a width above [2^31], thread 0 of block [2^27] is part of the grid
    [verifyMipmapLevel] launches, computes the index [-2^31], passes the
    guard, which compares it as unsigned, and stores at that index, which
    lies outside a buffer of any size. *)
Theorem index_wraps_above_INT_MAX T texMipmap width offsetX lod dataWidth :
  2 ^ 31 < width < 2 ^ 32 ->
  thread_x (2 ^ 27) blockSize_x 0 = - 2 ^ 31 /\
  2 ^ 27 < gridSize_x width /\
  getMipmap texMipmap width offsetX lod true (2 ^ 27) blockSize_x 0
  = [ev_tex1DLod texMipmap
       (f32_mul (f32_add (f32_of_Z (- 2 ^ 31)) offsetX) (px width)) lod;
     ev_store (- 2 ^ 31)
       (tex1DLod texMipmap
          (f32_mul (f32_add (f32_of_Z (- 2 ^ 31)) offsetX) (px width)) lod)] /\
  in_bounds T 0 dataWidth
    (ev_store (- 2 ^ 31)
       (tex1DLod texMipmap
          (f32_mul (f32_add (f32_of_Z (- 2 ^ 31)) offsetX) (px width)) lod))
  = false.
Proof.
  intros Hw.
  assert (thread_x (2 ^ 27) blockSize_x 0 = - 2 ^ 31) as Hx by reflexivity.
  split; [exact Hx|]. split; [|split].
  - unfold gridSize_x, blockSize_x. rewrite wrap64_small by lia.
    assert (2 ^ 27 < (width + 16 - 1) / 16 < 2 ^ 28 + 1) as Hdiv.
    { split.
      - apply Z.lt_le_trans with ((2 ^ 31 + 16) / 16); [reflexivity|].
        apply Z.div_le_mono; lia.
      - apply Z.div_lt_upper_bound; lia. }
    rewrite wrap32_small by lia. lia.
  - unfold getMipmap. rewrite Hx.
    change (wrap32 (- 2 ^ 31)) with (2 ^ 31).
    destruct (Z.ltb_spec (2 ^ 31) width); [reflexivity|lia].
  - reflexivity.
Qed.

(** ** The levels the texture is sampled at *)

Lemma small_lods_ordered :
  forallb (fun a => forallb (fun b => implb (a <=? b) (SFleb (f32_of_Z a) (f32_of_Z b)))
                      (seqZ 0 32))
          (seqZ 0 32) = true.
Proof. vm_compute. reflexivity. Qed.

(** X16. Every level is sampled within the clamp the texture was created
    with: for a width from 1 to [2^32 - 1] and every level [L] below
    [maxLevels], the lod [float(L)] the verification passes to [tex1DLod]
    is at most [maxMipmapLevelClamp = float(maxLevels - 1)] of the texture
    descriptor, so the clamp never redirects a verified level. *)
Theorem verified_lods_within_clamp rm fm am width L :
  1 <= width < 2 ^ 32 -> 0 <= L < maxLevels width ->
  SFleb (f32_of_Z L)
    (maxMipmapLevelClamp (mipmap_texDescr rm fm am (maxLevels width))) = true.
Proof.
  intros Hw HL. rewrite maxLevels_small in * by exact Hw.
  assert (0 < width) as Hpos by lia.
  pose proof (proj1 (Z.log2_lt_pow2 width 32 Hpos) ltac:(lia)) as Hlog.
  unfold mipmap_texDescr. cbn [maxMipmapLevelClamp].
  replace (1 + Z.log2 width - 1) with (Z.log2 width) by lia.
  rewrite wrap32_small by lia.
  pose proof small_lods_ordered as Hall.
  rewrite forallb_forall in Hall.
  assert (L ∈ seqZ 0 32) as HinL by (apply elem_of_seqZ; lia).
  assert (Z.log2 width ∈ seqZ 0 32) as HinC by (apply elem_of_seqZ; lia).
  apply list_elem_of_In in HinL, HinC.
  specialize (Hall L HinL).
  rewrite forallb_forall in Hall.
  specialize (Hall (Z.log2 width) HinC).
  destruct (Z.leb_spec L (Z.log2 width)); [exact Hall | lia].
Qed.

(** ** The test cases *)

Lemma test_runs_checked : forallb run_in_range test_runs = true.
Proof. vm_compute. reflexivity. Qed.

(** X17. What the 260 instantiations of the three test cases have in
    common: the width is between 1 and 263, level 0 takes at most 4208
    bytes, so the width and the byte size are far inside the range of [int],
    the chain has at most 9 levels, the address mode is clamp or border, the
    offset is smaller than one texel, normalised reads are instantiated on
    integer texels only, and linear filtering with element reads on float
    texels only. *)
Theorem test_runs_are_in_range r :
  r ∈ test_runs ->
  1 <= run_width r <= 263 /\
  run_width r * sizeof (run_T r) <= 4208 /\
  run_width r * sizeof (run_T r) <= INT_MAX /\
  maxLevels (run_width r) <= 9 /\
  (run_readMode r = hipReadModeNormalizedFloat -> isFloat (run_T r) = false) /\
  (run_readMode r = hipReadModeElementType -> run_filterMode r = hipFilterModeLinear ->
   isFloat (run_T r) = true) /\
  (run_addressMode r = hipAddressModeClamp \/ run_addressMode r = hipAddressModeBorder) /\
  SFltb (SFabs (run_offsetX r)) (f32_of_Z 1) = true /\
  length test_runs = 260%nat.
Proof.
  intros Hr. pose proof test_runs_checked as Hall.
  rewrite forallb_forall in Hall.
  specialize (Hall r (proj1 (list_elem_of_In _ _) Hr)).
  unfold run_in_range in Hall.
  repeat (apply andb_prop in Hall as [Hall ?]).
  repeat match goal with
         | H : (_ <=? _) = true |- _ => apply Z.leb_le in H
         end.
  split; [lia|]. split; [assumption|]. split; [unfold INT_MAX; lia|].
  split; [assumption|]. split.
  { intros Hrm. rewrite Hrm in *. destruct (isFloat (run_T r)); [discriminate|reflexivity]. }
  split.
  { intros Hrm Hfm. rewrite Hrm, Hfm in *. assumption. }
  split.
  { destruct (run_addressMode r); try discriminate; auto. }
  split; [assumption|]. reflexivity.
Qed.

Lemma test_runs_in_range r :
  r ∈ test_runs ->
  1 <= run_width r <= 263 /\ run_width r * sizeof (run_T r) <= 4208.
Proof.
  intros Hr. pose proof test_runs_checked as Hall.
  rewrite forallb_forall in Hall.
  specialize (Hall r (proj1 (list_elem_of_In _ _) Hr)).
  unfold run_in_range in Hall.
  repeat (apply andb_prop in Hall as [Hall ?]).
  repeat match goal with
         | H : (_ <=? _) = true |- _ => apply Z.leb_le in H
         end.
  lia.
Qed.

(** X18. No instantiation of the test cases can make an access out of
    range or trip the level-count check: whatever the allocator, the device
    and the helpers do, in each of the 260 runs no kernel and no host read
    leaves its buffer, and the check [maxLevels != mipmapData.size()] does
    not fail. *)
Theorem every_test_run_is_safe r f :
  r ∈ test_runs ->
  run_test r = Failed f ->
  is_memory_fault f = false /\ is_level_count_failure f = false.
Proof.
  intros Hr Hrun. destruct (test_runs_in_range r Hr) as [Hw Hsz].
  unfold run_test in Hrun. split.
  - eapply testMipmapTextureObj_safe; [| |exact Hrun]; [lia|unfold INT_MAX; lia].
  - eapply testMipmapTextureObj_failure_kind; [|exact Hrun]. lia.
Qed.

(** ** Host records and device levels *)

(** X19. The host keeps what the device holds: after a completed synthesis
    over an array whose level 0 holds the base texels, the host data
    recorded for every level of the chain are, texel for texel, the
    contents of that level of the device array, and there are as many as the
    extent recorded with them. *)
Theorem host_records_mirror_device_levels T rm fm am (arr : hipMipmappedArray_t)
    baseWidth (texels : list PixelValue) arr' chain :
  1 <= baseWidth -> baseWidth * sizeof T <= INT_MAX ->
  arr !! 0%nat = Some texels -> Z.of_nat (length texels) = baseWidth ->
  populateMipmaps T rm fm am arr (mk_hipExtent baseWidth 0 0)
    [mk_level texels (mk_hipExtent baseWidth 0 0)] = Done (arr', chain) ->
  forall (L : nat) d, chain !! L = Some d ->
    arr' !! L = Some (data d) /\ Z.of_nat (length (data d)) = ext_width (e d).
Proof.
  intros Hw Hsz Hbase Htexels Hrun L d HL.
  pose proof (synthesized_chain_covers T rm fm am arr baseWidth texels arr' chain
                Hw Hsz Htexels Hrun) as [_ Hcover].
  split; [|apply Hcover; eapply list_elem_of_lookup_2; exact HL].
  pose proof (sizeof_pos T) as HT.
  assert (baseWidth <= INT_MAX) as Hint by nia.
  assert (Z.log2 baseWidth < 32) as Hlog.
  { assert (0 < baseWidth) as Hpos by lia.
    apply (proj1 (Z.log2_lt_pow2 baseWidth 32 Hpos)). unfold INT_MAX in Hint. lia. }
  pose proof Hrun as Hlength.
  apply populateMipmaps_chain_length in Hlength; [|exact Hw]. simpl in Hlength.
  unfold populateMipmaps in Hrun. cbn [ext_width] in Hrun.
  assert (0 + Z.log2 baseWidth < 2 ^ 32) as H32 by lia.
  destruct (populateMipmaps_loop_texels 65 T rm fm am arr baseWidth 0 _ arr' chain
              Hw Hsz (Z.le_refl 0) H32 Hrun) as (Hkeep & Htex).
  apply populateMipmaps_loop_widths in Hrun as (new & Hchain & _); [|exact Hw].
  destruct L as [|k].
  - rewrite Hchain in HL. injection HL as <-.
    rewrite Hkeep by (simpl; lia). exact Hbase.
  - assert (Z.of_nat k < Z.log2 baseWidth) as Hk.
    { apply lookup_lt_Some in HL. lia. }
    destruct (Htex k Hk) as (src & _ & Hdst & Hmd).
    cbn [length Nat.add] in Hmd. change (Z.to_nat 0 + S k)%nat with (S k) in Hdst.
    rewrite HL in Hmd. injection Hmd as ->. exact Hdst.
Qed.

(** ** The data of level 0 *)

Lemma ramp_checked :
  forallb (fun width => forallb (ramp_exact width) (seqZ 0 width)) (seqZ 1 263) = true.
Proof. vm_compute. reflexivity. Qed.

(** X20. The ramp is computed without rounding: for a float texel type
    under linear filtering and every width up to 263, the largest the test
    cases use, each lane of texel [i] of level 0 holds exactly
    [i * (i - width + 1)], the parabola that is zero at both ends of the
    level and negative between them; every other instantiation takes its
    texel from [initVal]. *)
Theorem ramp_is_exact T fm width i :
  1 <= width <= 263 -> 0 <= i < width ->
  (isFloat T = true ->
   exists v,
     initial_texel T hipFilterModeLinear width i
     = replicate (Z.to_nat (lane_count (lanes T))) (FloatChannel v) /\
     SF2Q v = Some (inject_Z (i * (i - width + 1))) /\
     i * (i - width + 1) <= 0) /\
  (isFloat T = false \/ fm = hipFilterModePoint ->
   initial_texel T fm width i = initVal T i).
Proof.
  intros Hw Hi. split.
  - intros HT.
    pose proof ramp_checked as Hall. rewrite forallb_forall in Hall.
    assert (width ∈ seqZ 1 263) as Hinw by (apply elem_of_seqZ; lia).
    assert (i ∈ seqZ 0 width) as Hini by (apply elem_of_seqZ; lia).
    apply list_elem_of_In in Hinw, Hini.
    specialize (Hall width Hinw). rewrite forallb_forall in Hall.
    specialize (Hall i Hini). unfold ramp_exact in Hall.
    unfold initial_texel in *. rewrite HT.
    change (isFloat (mk_T Float Scalar)) with true in Hall.
    change (replicate (Z.to_nat (lane_count (lanes (mk_T Float Scalar)))) ?x)
      with [x] in Hall.
    cbv zeta in *.
    set (v := f32_mul (f32_of_Z i)
                (f32_add (SFsub 24 128 (f32_of_Z i) (f32_of_Z width)) (f32_of_Z 1))) in *.
    exists v. split; [reflexivity|]. cbv iota in Hall.
    destruct (SF2Q v) as [[n dn]|]; [|discriminate].
    apply andb_prop in Hall as [Hn Hd]. cbn [Qnum Qden] in Hn, Hd.
    apply Z.eqb_eq in Hn. apply Pos.eqb_eq in Hd. subst n dn.
    split; [reflexivity|]. nia.
  - intros [HT|Hfm]; unfold initial_texel.
    + rewrite HT. reflexivity.
    + rewrite Hfm. destruct (isFloat T); reflexivity.
Qed.
End Mipmap1D.

(** ** The rules the specification states for the missing helpers *)

Lemma sampling_verify_integer tolerance (a b : PixelValue) :
  forallb is_integer_channel a && approx_equal tolerance a b = true
  <-> exactly_equal a b.
Proof.
  unfold exactly_equal. revert b. induction a as [|x a IH]; intros b.
  - destruct b; simpl; split.
    + intros _. split; [constructor | reflexivity].
    + reflexivity.
    + discriminate.
    + intros [_ H]. discriminate.
  - destruct b as [|y b]; simpl.
    + split; [rewrite andb_false_r; discriminate | intros [_ H]; discriminate].
    + destruct x as [u|u]; simpl.
      * destruct y as [v|v]; simpl.
        -- specialize (IH b). split.
           ++ intros H. apply andb_prop in H as [Hall H].
              apply andb_prop in H as [Huv H]. apply Z.eqb_eq in Huv. subst v.
              destruct (proj1 IH) as [Hint ->]; [rewrite Hall, H; reflexivity|].
              split; [constructor; eauto | reflexivity].
           ++ intros [Hint Heq]. injection Heq as <- <-.
              inversion Hint as [|? ? _ Hint']; subst.
              rewrite Z.eqb_refl. simpl. apply IH. split; [exact Hint' | reflexivity].
        -- split; [rewrite andb_false_r; discriminate | intros [_ H]; discriminate].
      * split; [discriminate|]. intros [Hint _].
        inversion Hint as [|? ? [w Hw] _]. discriminate.
Qed.

Lemma sampling_verify_float tolerance (a b : PixelValue) :
  forallb is_float_channel a && approx_equal tolerance a b = true
  <-> tolerance_equal tolerance a b.
Proof.
  unfold tolerance_equal. revert b. induction a as [|x a IH]; intros b.
  - destruct b; simpl; split.
    + intros _. constructor.
    + reflexivity.
    + discriminate.
    + intros H. inversion H.
  - destruct b as [|y b]; simpl.
    + split; [rewrite andb_false_r; discriminate | intros H; inversion H].
    + destruct x as [u|u]; simpl.
      * split; [discriminate|]. intros H.
        inversion H as [|? ? ? ? (u' & v' & Hu & _) _]. discriminate.
      * destruct y as [v|v]; simpl.
        -- split; [rewrite andb_false_r; discriminate|]. intros H.
           inversion H as [|? ? ? ? (u' & v' & _ & Hv & _) _]. discriminate.
        -- specialize (IH b). split.
           ++ intros H. apply andb_prop in H as [Hall H].
              apply andb_prop in H as [Huv H].
              constructor; [exists u, v; auto|].
              apply IH. rewrite Hall, H. reflexivity.
           ++ intros H. inversion H as [|? ? ? ? (u' & v' & Hu & Hv & Hle) Hrest]; subst.
              injection Hu as <-. injection Hv as <-.
              apply IH in Hrest. apply andb_prop in Hrest as [-> ->].
              rewrite Hle. reflexivity.
Qed.

(** The rule decides the proposition of the storage the samples are
    compared in. *)
Lemma sampling_verify_spec tolerance U fm (a b : PixelValue) :
  sampling_verify tolerance U fm a b = true
  <-> if isFloat U then tolerance_equal tolerance a b else exactly_equal a b.
Proof.
  unfold sampling_verify. destruct (isFloat U).
  - apply sampling_verify_float.
  - apply sampling_verify_integer.
Qed.

(** C5. Verification driver, with the comparison rule of the
    specification: verification of a chain passes exactly when, for every
    level [L] and every index [i] below the width of [L], the sample the
    device returns at level [L] and normalised coordinate
    [(i + offsetX) * px], [px = 1 / width(L)], agrees with the value the
    reference computes for the same coordinate in texel units,
    [i + offsetX], and the width of [L].  Under a normalised read the two
    are compared in the float vector type, against the reference on the
    level's data converted by [getNormalizedFloatType], and must agree
    within the tolerance in every channel; read as stored, float texels
    must agree within the tolerance and integer texels must be equal. *)
Theorem verification_compares_every_texel (tolerance : float)
    (tex1DLod : hipTextureObject_t -> float -> float -> PixelValue)
    (getExpectedValue : texelType -> hipTextureAddressMode -> hipTextureFilterMode ->
                        Z -> float -> list PixelValue -> PixelValue)
    (getNormalizedFloatType : texelType -> PixelValue -> PixelValue)
    T rm fm am texMipmap offsetX chain :
  chain_in_range chain = true ->
  verify_levels tex1DLod getExpectedValue (sampling_verify tolerance)
    getNormalizedFloatType T rm fm am texMipmap offsetX 0 chain = Done ()
  <-> forall (L : nat) d i, chain !! L = Some d -> 0 <= i < ext_width (e d) ->
        let observed :=
          tex1DLod texMipmap
            (f32_mul (f32_add (f32_of_Z i) offsetX) (px (ext_width (e d))))
            (f32_of_Z (Z.of_nat L)) in
        let coord := f32_add (f32_of_Z i) offsetX in
        match rm with
        | hipReadModeNormalizedFloat =>
            tolerance_equal tolerance observed
              (getExpectedValue (mk_T Float (lanes T)) am fm (ext_width (e d)) coord
                 (getNormalizedFloatType T
                    <$> take (Z.to_nat (ext_width (e d))) (data d)))
        | hipReadModeElementType =>
            if isFloat T
            then tolerance_equal tolerance observed
                   (getExpectedValue T am fm (ext_width (e d)) coord (data d))
            else exactly_equal observed
                   (getExpectedValue T am fm (ext_width (e d)) coord (data d))
        end.
Proof.
  intros Hchain.
  rewrite (verify_levels_passes tex1DLod getExpectedValue (sampling_verify tolerance)
             getNormalizedFloatType T rm fm am texMipmap offsetX chain Hchain).
  split; intros H L d i HL Hi; specialize (H L d i HL Hi).
  - unfold level_matches, matches, observed, expected in H.
    apply sampling_verify_spec in H. cbv zeta.
    destruct rm; simpl in H; exact H.
  - unfold level_matches, matches, observed, expected.
    apply sampling_verify_spec. cbv zeta in H.
    destruct rm; simpl; exact H.
Qed.

(** C7. Normalised read of an 8-bit unsigned channel, by the rescaling of
    the specification: the stored value 255 reads as the float 1.0 and the
    stored value 0 as the float 0.0, and so do the texels of a level that
    [testMipmapTextureObj] converts for verification. *)
Theorem normalized_uchar_endpoints :
  normalized_unsigned 8 255 = f32_of_Z 1 /\
  normalized_unsigned 8 0 = f32_of_Z 0 /\
  SF2Q (normalized_unsigned 8 255) = Some 1%Q /\
  SF2Q (normalized_unsigned 8 0) = Some 0%Q /\
  normalizedLevel getNormalizedFloatType_uchar uchar
    (mk_level (texels_of [255; 0]) (mk_hipExtent 2 0 0))
  = [[FloatChannel (f32_of_Z 1)]; [FloatChannel (f32_of_Z 0)]].
Proof. repeat split; vm_compute; reflexivity. Qed.

(** C8. Resolver idempotence: under Clamp, for a width of at least 1, the
    resolver returns the valid index [max(0, min(i, w-1))] without asking
    for the border, and resolving that index again returns the same
    result. *)
Theorem resolve_clamp_idempotent (i w : Z) :
  1 <= w ->
  exists r,
    resolve i w Clamp = (Some r, false) /\
    r = Z.max 0 (Z.min i (w - 1)) /\
    0 <= r < w /\
    resolve r w Clamp = resolve i w Clamp.
Proof.
  intros Hw. exists (Z.max 0 (Z.min i (w - 1))).
  split; [reflexivity|]. split; [reflexivity|]. split; [lia|].
  unfold resolve. do 2 f_equal. lia.
Qed.

(** * Concrete runs *)

(** Scenario 1 of the specification: base width 23 gives widths
    23, 11, 5, 2, 1. *)
Example widths_of_23 : 23 :: widths_from 23 (Z.to_nat (Z.log2 23)) = [23; 11; 5; 2; 1].
Proof. reflexivity. Qed.

(** Scenario 3: a base of width 1 is a chain of one level, no pass is made. *)
Example synthesis_of_width_1 :
  populateMipmaps soft_tex1D soft_tex1D soft_getTypeFromNormalizedFloat
    uchar hipReadModeElementType hipFilterModePoint hipAddressModeClamp
    [texels_of [7]] (mk_hipExtent 1 0 0) [mk_level (texels_of [7]) (mk_hipExtent 1 0 0)]
  = Done ([texels_of [7]], [mk_level (texels_of [7]) (mk_hipExtent 1 0 0)]).
Proof. reflexivity. Qed.

(** The whole test case on the software device: it passes for the widths
    23 and 67 of the source, and fails in synthesis when the allocator gives
    level 1 a texel too many. *)
Example test_passes_23 :
  testMipmapTextureObj soft_tex1D soft_tex1D soft_tex1DLod
    soft_getTypeFromNormalizedFloat soft_getExpectedValue exact_verify
    getNormalizedFloatType_uchar soft_initVal soft_alloc
    uchar hipReadModeElementType hipFilterModePoint hipAddressModeClamp 23 quarter
  = Done ().
Proof. vm_compute. reflexivity. Qed.

Example test_passes_67 :
  testMipmapTextureObj soft_tex1D soft_tex1D soft_tex1DLod
    soft_getTypeFromNormalizedFloat soft_getExpectedValue exact_verify
    getNormalizedFloatType_uchar soft_initVal soft_alloc
    uchar hipReadModeElementType hipFilterModePoint hipAddressModeClamp 67 quarter
  = Done ().
Proof. vm_compute. reflexivity. Qed.

Example test_fails_on_bad_allocation :
  testMipmapTextureObj soft_tex1D soft_tex1D soft_tex1DLod
    soft_getTypeFromNormalizedFloat soft_getExpectedValue exact_verify
    getNormalizedFloatType_uchar soft_initVal bad_alloc
    uchar hipReadModeElementType hipFilterModePoint hipAddressModeClamp 5 quarter
  = Failed (NextLevelSizeMismatch 1 3 2).
Proof. vm_compute. reflexivity. Qed.

Example test_fails_on_faulty_sampler :
  testMipmapTextureObj soft_tex1D soft_tex1D faulty_tex1DLod
    soft_getTypeFromNormalizedFloat soft_getExpectedValue exact_verify
    getNormalizedFloatType_uchar soft_initVal soft_alloc
    uchar hipReadModeElementType hipFilterModePoint hipAddressModeClamp 5 quarter
  = Failed (SamplingMismatch
      {| mm_level := f32_of_Z 1; mm_index := 1;
         mm_coord := f32_add (f32_of_Z 1) quarter;
         mm_gpuOutput := [IntChannel 99];
         mm_cpuExpected := [IntChannel 12];
         mm_data := [IntChannel 12] |}).
Proof. vm_compute. reflexivity. Qed.

(** [px] for a width of 4 is the float 0.25, for 65 the float nearest to
    1/65. *)
Example px_4 : SF2Q (px 4) = Some (1 # 4)%Q.
Proof. vm_compute. reflexivity. Qed.

Example px_65 : SF2Q (px 65) = Some (16519105 # 1073741824)%Q.
Proof. vm_compute. reflexivity. Qed.

Lemma array5_allocated_by_halving : allocated_by_halving array5 5 0.
Proof.
  intros [|[|[|i]]] Hi; try (eexists; split; reflexivity).
  change (Z.log2 5) with 2 in Hi. lia.
Defined.

Lemma array5_synthesis :
  populateMipmaps soft_tex1D soft_tex1D soft_getTypeFromNormalizedFloat
    uchar hipReadModeElementType hipFilterModePoint hipAddressModeClamp
    array5 (mk_hipExtent 5 0 0) [mk_level base5 (mk_hipExtent 5 0 0)]
  = Done (synthesized5, chain5).
Proof. vm_compute. reflexivity. Defined.

(** A run of C2: base width 5 gives the three levels 5, 2, 1. *)
Lemma chain_length_law_witness :
  1 <= 5 <= SIZE_MAX /\
  (Z.of_nat (length chain5) = 1 + Z.log2 5 /\
   last (level_widths chain5) = Some 1 /\
   (5 < 2 ^ 32 -> maxLevels 5 = Z.of_nat (length chain5))) /\
  exists arr' chain,
    populateMipmaps soft_tex1D soft_tex1D soft_getTypeFromNormalizedFloat
      uchar hipReadModeElementType hipFilterModePoint hipAddressModeClamp
      array5 (mk_hipExtent 5 0 0) [mk_level base5 (mk_hipExtent 5 0 0)]
    = Done (arr', chain).
Proof.
  assert (1 <= 5 <= SIZE_MAX) as Hw by (unfold SIZE_MAX; lia).
  assert (5 * sizeof uchar <= INT_MAX) as Hsz by (vm_compute; discriminate).
  split; [exact Hw|].
  destruct (chain_length_law soft_tex1D soft_tex1D soft_getTypeFromNormalizedFloat
              uchar hipReadModeElementType hipFilterModePoint hipAddressModeClamp
              array5 5 base5 Hw) as [Hlen Hdone].
  split.
  - exact (Hlen synthesized5 chain5 array5_synthesis).
  - exact (Hdone Hsz array5_allocated_by_halving).
Defined.

(** A run of C3 on the same chain. *)
Lemma monotone_halving_law_witness :
  1 <= 5 <= SIZE_MAX /\ halving_chain 5 (level_widths chain5) 1.
Proof.
  assert (1 <= 5 <= SIZE_MAX) as Hw by (unfold SIZE_MAX; lia).
  split; [exact Hw|].
  exact (proj1 (proj1 (monotone_halving_law soft_tex1D soft_tex1D
                         soft_getTypeFromNormalizedFloat
                         uchar hipReadModeElementType hipFilterModePoint
                         hipAddressModeClamp array5 5 base5 Hw)
                  synthesized5 chain5 array5_synthesis)).
Defined.

(** A run of C9: the loop ends on base width 5 whatever the array holds. *)
Lemma populateMipmaps_terminates_witness :
  1 <= 5 <= SIZE_MAX /\
  populateMipmaps soft_tex1D soft_tex1D soft_getTypeFromNormalizedFloat
    uchar hipReadModeElementType hipFilterModePoint hipAddressModeClamp
    array5_bad (mk_hipExtent 5 0 0) [mk_level base5 (mk_hipExtent 5 0 0)]
  <> OutOfFuel.
Proof.
  assert (1 <= 5 <= SIZE_MAX) as Hw by (unfold SIZE_MAX; lia).
  split; [exact Hw|].
  exact (proj1 (populateMipmaps_terminates soft_tex1D soft_tex1D
                  soft_getTypeFromNormalizedFloat
                  uchar hipReadModeElementType hipFilterModePoint hipAddressModeClamp
                  array5_bad 5 [mk_level base5 (mk_hipExtent 5 0 0)] Hw)).
Defined.

(** A run of C4: a level 1 of three texels under a base of five. *)
Lemma contract_violation_is_fatal_witness :
  2 <= 5 <= SIZE_MAX /\
  exists f,
    populateMipmaps soft_tex1D soft_tex1D soft_getTypeFromNormalizedFloat
      uchar hipReadModeElementType hipFilterModePoint hipAddressModeClamp
      array5_bad (mk_hipExtent 5 0 0) [mk_level base5 (mk_hipExtent 5 0 0)]
    = Failed f /\
    f = NextLevelSizeMismatch 1 3 2.
Proof.
  assert (2 <= 5 <= SIZE_MAX) as Hw by (unfold SIZE_MAX; lia).
  split; [exact Hw|].
  destruct (contract_violation_is_fatal soft_tex1D soft_tex1D soft_tex1DLod
              soft_getTypeFromNormalizedFloat soft_getExpectedValue exact_verify
              getNormalizedFloatType_uchar soft_initVal soft_alloc
              uchar hipReadModeElementType hipFilterModePoint hipAddressModeClamp
              array5_bad 5 [mk_level base5 (mk_hipExtent 5 0 0)] 1%nat
              (replicate 3 (zero_texel uchar)) Hw)
    as (f & Hfail & Hf & _).
  - vm_compute. discriminate.
  - intros [|i] Hi; [|lia]. eexists. split; reflexivity.
  - reflexivity.
  - vm_compute. discriminate.
  - exists f. split; [exact Hfail|].
    apply Hf. vm_compute. discriminate.
Defined.

(** A run of C1 as amended: level 1 of the chain of base width 5. *)
Lemma synthesis_samples_previous_level_witness :
  exists src dst,
    synthesized5 !! 0%nat = Some src /\ synthesized5 !! 1%nat = Some dst /\
    Z.of_nat (length dst) = 2 /\
    dst !! 0%nat = Some (soft_tex1D
                           (mk_tex (hipResourceTypeArray src)
                              (populate_texDescr hipReadModeElementType
                                 hipFilterModePoint hipAddressModeClamp))
                           (f32_mul (f32_of_Z 0) (px 2))).
Proof.
  destruct (synthesis_samples_previous_level soft_tex1D soft_tex1D
              soft_getTypeFromNormalizedFloat
              uchar hipReadModeElementType hipFilterModePoint hipAddressModeClamp
              array5 5 [mk_level base5 (mk_hipExtent 5 0 0)] synthesized5 chain5
              ltac:(lia) ltac:(vm_compute; discriminate) array5_synthesis
              0%nat ltac:(vm_compute; reflexivity))
    as (src & dst & Hsrc & Hdst & Hw & _ & _ & _ & _ & _ & Htexel).
  exists src, dst. split; [exact Hsrc|]. split; [exact Hdst|].
  injection Hdst as <-. split; [reflexivity|].
  exact (proj2 (Htexel 0 ltac:(vm_compute; split; [discriminate|reflexivity]))).
Defined.


Lemma below_5 (j : Z) : 0 <= j < 5 -> j = 0 \/ j = 1 \/ j = 2 \/ j = 3 \/ j = 4.
Proof. lia. Defined.

(** A run of C6: a device that returns 99 in the upper half of level 1 is
    caught at index 1 of level 1, after level 0 and index 0 passed. *)
Lemma first_mismatch_is_reported_witness :
  chain_in_range chain5 = true /\
  verify_levels faulty_tex1DLod soft_getExpectedValue exact_verify
    getNormalizedFloatType_uchar uchar hipReadModeElementType hipFilterModePoint
    hipAddressModeClamp texMipmap5 quarter 0 chain5
  = Failed (SamplingMismatch
      {| mm_level := f32_of_Z 1; mm_index := 1;
         mm_coord := f32_add (f32_of_Z 1) quarter;
         mm_gpuOutput := [IntChannel 99];
         mm_cpuExpected := [IntChannel 12];
         mm_data := [IntChannel 12] |}).
Proof.
  assert (chain_in_range chain5 = true) as Hchain by reflexivity.
  split; [exact Hchain|].
  refine (proj1 (first_mismatch_is_reported soft_tex1D soft_tex1D faulty_tex1DLod
                   soft_getTypeFromNormalizedFloat soft_getExpectedValue exact_verify
                   getNormalizedFloatType_uchar soft_initVal soft_alloc
                   uchar hipReadModeElementType hipFilterModePoint hipAddressModeClamp
                   texMipmap5 quarter chain5 Hchain)
            1%nat (mk_level (texels_of [10; 12]) (mk_hipExtent 2 0 0)) 1 [IntChannel 12]
            _ _ _ _ _ _).
  - reflexivity.
  - simpl. lia.
  - reflexivity.
  - intros [|L'] d' j HL' Hd' Hj; [|lia].
    injection Hd' as <-. simpl in Hj.
    destruct (below_5 j Hj) as [->|[->|[->|[->| ->]]]]; vm_compute; reflexivity.
  - intros j Hj. assert (j = 0) as -> by lia. vm_compute. reflexivity.
  - vm_compute. reflexivity.
Defined.

(** A run of C5: the software device passes verification of the chain of
    [uchar] texels, compared for equality. *)
Lemma verification_compares_every_texel_witness :
  chain_in_range chain5 = true /\
  (verify_levels soft_tex1DLod soft_getExpectedValue
     (sampling_verify (f32_of_Z 0))
     getNormalizedFloatType_uchar uchar hipReadModeElementType hipFilterModePoint
     hipAddressModeClamp texMipmap5 quarter 0 chain5 = Done ()
   <-> forall (L : nat) d i, chain5 !! L = Some d -> 0 <= i < ext_width (e d) ->
         exactly_equal
           (soft_tex1DLod texMipmap5
              (f32_mul (f32_add (f32_of_Z i) quarter) (px (ext_width (e d))))
              (f32_of_Z (Z.of_nat L)))
           (soft_getExpectedValue uchar hipAddressModeClamp hipFilterModePoint
              (ext_width (e d)) (f32_add (f32_of_Z i) quarter) (data d))).
Proof.
  assert (chain_in_range chain5 = true) as Hchain by reflexivity.
  split; [exact Hchain|].
  exact (verification_compares_every_texel (f32_of_Z 0) soft_tex1DLod
           soft_getExpectedValue getNormalizedFloatType_uchar
           uchar hipReadModeElementType hipFilterModePoint hipAddressModeClamp
           texMipmap5 quarter chain5 Hchain).
Defined.

(** A run of C8: index 7 in a level of width 5 clamps to 4, and 4 stays. *)
Lemma resolve_clamp_idempotent_witness :
  1 <= 5 /\
  exists r, resolve 7 5 Clamp = (Some r, false) /\ r = Z.max 0 (Z.min 7 (5 - 1)) /\
            0 <= r < 5 /\ resolve r 5 Clamp = resolve 7 5 Clamp.
Proof.
  assert (1 <= 5) as Hw by lia.
  split; [exact Hw|]. exact (resolve_clamp_idempotent 7 5 Hw).
Defined.

(** Against C1 as stated. In the first pass of the float test
    of width 131 under linear filtering and border addressing, thread 0
    fetches at coordinate 0 and thread 1 at [float(1/65)], not at the
    centres [0.5/65] and [1.5/65]; and the source level is bound with
    linear filtering and border addressing, not point and clamp. *)
Lemma synthesis_does_not_sample_centres :
  ~ fetches_at_centre soft_tex1D soft_tex1D soft_getTypeFromNormalizedFloat
      float1 hipReadModeElementType texIn131 65 0 /\
  ~ fetches_at_centre soft_tex1D soft_tex1D soft_getTypeFromNormalizedFloat
      float1 hipReadModeElementType texIn131 65 1 /\
  ~ bound_point_clamp texIn131.
Proof.
  split; [|split].
  - intros (coord & q & Hin & Hq & Heq).
    unfold populateMipmapNextLevelArray in Hin.
    change (0 / blockSize_x) with 0 in Hin. change (0 mod blockSize_x) with 0 in Hin.
    change (thread_x 0 blockSize_x 0) with 0 in Hin.
    change (wrap32 0 <? 65) with true in Hin. cbv iota in Hin.
    apply elem_of_cons in Hin as [Hin|Hin].
    + injection Hin as ->. vm_compute in Hq. injection Hq as <-.
      vm_compute in Heq. discriminate.
    + apply elem_of_cons in Hin as [Hin|Hin]; [discriminate|].
      apply elem_of_cons in Hin as [Hin|Hin]; [discriminate|].
      inversion Hin.
  - intros (coord & q & Hin & Hq & Heq).
    unfold populateMipmapNextLevelArray in Hin.
    change (1 / blockSize_x) with 0 in Hin. change (1 mod blockSize_x) with 1 in Hin.
    change (thread_x 0 blockSize_x 1) with 1 in Hin.
    change (wrap32 1 <? 65) with true in Hin. cbv iota in Hin.
    apply elem_of_cons in Hin as [Hin|Hin].
    + injection Hin as ->. vm_compute in Hq. injection Hq as <-.
      vm_compute in Heq. discriminate.
    + apply elem_of_cons in Hin as [Hin|Hin]; [discriminate|].
      apply elem_of_cons in Hin as [Hin|Hin]; [discriminate|].
      inversion Hin.
  - intros (Hfilter & _). discriminate.
Qed.


(** * Runs of the further properties *)

Lemma array5_stale_synthesis :
  populateMipmaps soft_tex1D soft_tex1D soft_getTypeFromNormalizedFloat
    uchar hipReadModeElementType hipFilterModePoint hipAddressModeClamp
    array5_stale (mk_hipExtent 5 0 0) [mk_level base5 (mk_hipExtent 5 0 0)]
  = Done (synthesized5, chain5).
Proof. vm_compute. reflexivity. Defined.

Lemma array5_bad_synthesis :
  populateMipmaps soft_tex1D soft_tex1D soft_getTypeFromNormalizedFloat
    uchar hipReadModeElementType hipFilterModePoint hipAddressModeClamp
    array5_bad (mk_hipExtent 5 0 0) [mk_level base5 (mk_hipExtent 5 0 0)]
  = Failed (NextLevelSizeMismatch 1 3 2).
Proof. vm_compute. reflexivity. Defined.

Lemma bad_allocation_run :
  testMipmapTextureObj soft_tex1D soft_tex1D soft_tex1DLod
    soft_getTypeFromNormalizedFloat soft_getExpectedValue exact_verify
    getNormalizedFloatType_uchar soft_initVal bad_alloc
    uchar hipReadModeElementType hipFilterModePoint hipAddressModeClamp 5 quarter
  = Failed (NextLevelSizeMismatch 1 3 2).
Proof. vm_compute. reflexivity. Defined.

Lemma faulty_sampler_run :
  verify_levels faulty_tex1DLod soft_getExpectedValue exact_verify
    getNormalizedFloatType_uchar uchar hipReadModeElementType hipFilterModePoint
    hipAddressModeClamp texMipmap5 quarter 0 chain5
  = Failed (SamplingMismatch
      {| mm_level := f32_of_Z 1; mm_index := 1;
         mm_coord := f32_add (f32_of_Z 1) quarter;
         mm_gpuOutput := [IntChannel 99];
         mm_cpuExpected := [IntChannel 12];
         mm_data := [IntChannel 12] |}).
Proof. vm_compute. reflexivity. Defined.

Lemma zeros5_allocated_by_halving : allocated_by_halving zeros5 5 0.
Proof.
  intros [|[|[|i]]] Hi; try (eexists; split; reflexivity).
  change (Z.log2 5) with 2 in Hi. lia.
Defined.

Lemma passing_run :
  testMipmapTextureObj soft_tex1D soft_tex1D soft_tex1DLod
    soft_getTypeFromNormalizedFloat soft_getExpectedValue exact_verify
    getNormalizedFloatType_uchar soft_initVal soft_alloc
    uchar hipReadModeElementType hipFilterModePoint hipAddressModeClamp 5 quarter
  = Done ().
Proof. vm_compute. reflexivity. Defined.

(** A run of X1: level 1 of the chain of base width 5 has width [5 >> 1]. *)
Lemma recorded_width_is_shifted_base_witness :
  1 <= 5 <= SIZE_MAX /\
  2 = Z.shiftr 5 (Z.of_nat 1) /\ 1 <= 2 /\ Z.of_nat 1 <= Z.log2 5.
Proof.
  assert (1 <= 5 <= SIZE_MAX) as Hw by (unfold SIZE_MAX; lia).
  split; [exact Hw|].
  exact (recorded_width_is_shifted_base soft_tex1D soft_tex1D
           soft_getTypeFromNormalizedFloat
           uchar hipReadModeElementType hipFilterModePoint hipAddressModeClamp
           array5 5 base5 synthesized5 chain5 Hw array5_synthesis 1%nat 2 eq_refl).
Defined.

(** A run of X2: the chain 5, 2, 1 holds 8 texels. *)
Lemma chain_holds_less_than_twice_the_base_witness :
  1 <= 5 <= SIZE_MAX /\ 5 <= total_texels chain5 <= 2 * 5 - 1.
Proof.
  assert (1 <= 5 <= SIZE_MAX) as Hw by (unfold SIZE_MAX; lia).
  split; [exact Hw|].
  exact (chain_holds_less_than_twice_the_base soft_tex1D soft_tex1D
           soft_getTypeFromNormalizedFloat
           uchar hipReadModeElementType hipFilterModePoint hipAddressModeClamp
           array5 5 base5 synthesized5 chain5 Hw array5_synthesis).
Defined.

(** A run of X3 on the same synthesis. *)
Lemma synthesis_writes_only_derived_levels_witness :
  1 <= 5 <= SIZE_MAX /\
  length synthesized5 = length array5 /\
  synthesized5 !! 0%nat = array5 !! 0%nat.
Proof.
  assert (1 <= 5 <= SIZE_MAX) as Hw by (unfold SIZE_MAX; lia).
  split; [exact Hw|].
  destruct (synthesis_writes_only_derived_levels soft_tex1D soft_tex1D
              soft_getTypeFromNormalizedFloat
              uchar hipReadModeElementType hipFilterModePoint hipAddressModeClamp
              array5 5 [mk_level base5 (mk_hipExtent 5 0 0)] synthesized5 chain5
              Hw array5_synthesis) as (Hlen & Hbase & _).
  split; [exact Hlen | exact Hbase].
Defined.

(** A run of X4: zeroed and stale derived levels give the same chain. *)
Lemma synthesis_ignores_stale_levels_witness :
  array5 !! 0%nat = array5_stale !! 0%nat /\
  array5 !! 1%nat <> array5_stale !! 1%nat /\
  chain5 = chain5 /\
  forall k : nat, Z.of_nat k <= Z.log2 5 -> synthesized5 !! k = synthesized5 !! k.
Proof.
  assert (1 <= 5) as Hw by lia.
  assert (5 * sizeof uchar <= INT_MAX) as Hsz by (vm_compute; discriminate).
  assert (array5 !! 0%nat = array5_stale !! 0%nat) as Hbase by reflexivity.
  split; [exact Hbase|]. split; [discriminate|].
  exact (synthesis_ignores_stale_levels soft_tex1D soft_tex1D
           soft_getTypeFromNormalizedFloat
           uchar hipReadModeElementType hipFilterModePoint hipAddressModeClamp
           array5 array5_stale 5 [mk_level base5 (mk_hipExtent 5 0 0)]
           synthesized5 synthesized5 chain5 chain5
           Hw Hsz Hbase array5_synthesis array5_stale_synthesis).
Defined.

(** A run of X5: an empty level 0 over a level 1 of one texel. *)
Lemma synthesis_of_empty_base_witness :
  array0 !! 0%nat = Some [] /\ array0 !! 1%nat = Some [zero_texel uchar] /\
  populateMipmaps soft_tex1D soft_tex1D soft_getTypeFromNormalizedFloat
    uchar hipReadModeElementType hipFilterModePoint hipAddressModeClamp
    array0 (mk_hipExtent 0 0 0) []
  = Done ([[]; [[]]], [mk_level [[]] (mk_hipExtent 1 0 0)]).
Proof.
  assert (array0 !! 0%nat = Some []) as H0 by reflexivity.
  assert (array0 !! 1%nat = Some [zero_texel uchar]) as H1 by reflexivity.
  split; [exact H0|]. split; [exact H1|].
  exact (proj2 (synthesis_of_empty_base soft_tex1D soft_tex1D
                  soft_getTypeFromNormalizedFloat
                  uchar hipReadModeElementType hipFilterModePoint hipAddressModeClamp
                  array0 [] (zero_texel uchar) H0 H1)).
Defined.

(** A run of X6: the threads of the pass that derives level 1 of [array5],
    in the reverse of the order [launch] lists their events in. *)
Lemma synthesis_launch_in_any_order_witness :
  0 <= 2 /\ 2 * sizeof uchar <= INT_MAX /\
  run_events uchar
    (reverse (launch (populateMipmapNextLevelArray soft_tex1D soft_tex1D
                        soft_getTypeFromNormalizedFloat uchar hipReadModeElementType
                        texIn5 (wrap32 2) true)
                (gridSize_x 2) blockSize_x))
    (mk_devmem zeros2 (Some zeros2))
  = Some (mk_devmem (texels_of [10; 12]) (Some (texels_of [10; 12]))).
Proof.
  assert (0 <= 2) as Hw by lia.
  assert (2 * sizeof uchar <= INT_MAX) as Hsz by (vm_compute; discriminate).
  split; [exact Hw|]. split; [exact Hsz|].
  exact (synthesis_launch_in_any_order soft_tex1D soft_tex1D
           soft_getTypeFromNormalizedFloat uchar hipReadModeElementType texIn5 2
           zeros2 zeros2 _ Hw Hsz eq_refl eq_refl (reverse_Permutation _)).
Defined.

(** A run of X7: the sampling launch over level 1 of the chain, reversed. *)
Lemma sampling_launch_in_any_order_witness :
  0 <= 2 <= INT_MAX /\
  run_events uchar
    (reverse (launch (getMipmap soft_tex1DLod texMipmap5 (wrap32 2) quarter
                        (f32_of_Z 1) true)
                (gridSize_x 2) blockSize_x))
    (mk_devmem [] (Some zeros2))
  = Some (mk_devmem [] (Some (texels_of [10; 12]))).
Proof.
  assert (0 <= 2 <= INT_MAX) as Hw by (unfold INT_MAX; lia).
  split; [exact Hw|].
  exact (sampling_launch_in_any_order soft_tex1DLod uchar texMipmap5 2 quarter
           (f32_of_Z 1) [] zeros2 _ Hw eq_refl (reverse_Permutation _)).
Defined.

(** A run of X8: the report a device that returns 99 in the upper half of
    level 1 ends verification with names a texel that does not match. *)
Lemma reported_mismatch_is_genuine_witness :
  chain_in_range chain5 = true /\
  exists (L : nat) d i,
    chain5 !! L = Some d /\ 0 <= i < ext_width (e d) /\
    level_matches faulty_tex1DLod soft_getExpectedValue exact_verify
      getNormalizedFloatType_uchar uchar hipReadModeElementType hipFilterModePoint
      hipAddressModeClamp texMipmap5 quarter L d i = false.
Proof.
  assert (chain_in_range chain5 = true) as Hchain by reflexivity.
  split; [exact Hchain|].
  destruct (reported_mismatch_is_genuine faulty_tex1DLod soft_getExpectedValue
              exact_verify getNormalizedFloatType_uchar
              uchar hipReadModeElementType hipFilterModePoint hipAddressModeClamp
              texMipmap5 quarter chain5 _ Hchain faulty_sampler_run)
    as (L & d & i & texel & HL & Hi & _ & _ & _ & Hm & _).
  exists L, d, i. split; [exact HL|]. split; [exact Hi | exact Hm].
Defined.

(** A run of X9: the failure of the test case over an allocator that gives
    level 1 a texel too many is not that of the level-count check. *)
Lemma level_count_check_never_fails_witness :
  1 <= 5 < 2 ^ 32 /\ is_level_count_failure (NextLevelSizeMismatch 1 3 2) = false.
Proof.
  assert (1 <= 5 < 2 ^ 32) as Hw by lia.
  split; [exact Hw|].
  exact (level_count_check_never_fails soft_tex1D soft_tex1D soft_tex1DLod
           soft_getTypeFromNormalizedFloat soft_getExpectedValue exact_verify
           getNormalizedFloatType_uchar soft_initVal bad_alloc
           uchar hipReadModeElementType hipFilterModePoint hipAddressModeClamp
           5 quarter _ Hw bad_allocation_run).
Defined.

(** A run of X10 on the same test case. *)
Lemma test_is_memory_safe_witness :
  1 <= 5 /\ 5 * sizeof uchar <= INT_MAX /\
  is_memory_fault (NextLevelSizeMismatch 1 3 2) = false.
Proof.
  assert (1 <= 5) as Hw by lia.
  assert (5 * sizeof uchar <= INT_MAX) as Hsz by (vm_compute; discriminate).
  split; [exact Hw|]. split; [exact Hsz|].
  exact (test_is_memory_safe soft_tex1D soft_tex1D soft_tex1DLod
           soft_getTypeFromNormalizedFloat soft_getExpectedValue exact_verify
           getNormalizedFloatType_uchar soft_initVal bad_alloc
           uchar hipReadModeElementType hipFilterModePoint hipAddressModeClamp
           5 quarter _ Hw Hsz bad_allocation_run).
Defined.

(** A run of X11: the test case of width 5 passes on the software device,
    so three levels were recorded and compared. *)
Lemma passing_test_checked_every_texel_witness :
  1 <= 5 /\ 5 * sizeof uchar <= INT_MAX /\
  exists (arr' : hipMipmappedArray_t) chain,
    Z.of_nat (length chain) = maxLevels 5 /\
    forall (L : nat) d i, chain !! L = Some d -> 0 <= i < ext_width (e d) ->
      level_matches soft_tex1DLod soft_getExpectedValue exact_verify
        getNormalizedFloatType_uchar uchar hipReadModeElementType hipFilterModePoint
        hipAddressModeClamp
        (mk_tex (hipResourceTypeMipmappedArray arr')
           (mipmap_texDescr hipReadModeElementType hipFilterModePoint
              hipAddressModeClamp (maxLevels 5)))
        quarter L d i = true.
Proof.
  assert (1 <= 5) as Hw by lia.
  assert (5 * sizeof uchar <= INT_MAX) as Hsz by (vm_compute; discriminate).
  split; [exact Hw|]. split; [exact Hsz|].
  destruct (passing_test_checked_every_texel soft_tex1D soft_tex1D soft_tex1DLod
              soft_getTypeFromNormalizedFloat soft_getExpectedValue exact_verify
              getNormalizedFloatType_uchar soft_initVal soft_alloc
              uchar hipReadModeElementType hipFilterModePoint hipAddressModeClamp
              5 quarter Hw Hsz passing_run)
    as (arr0 & arr & arr' & chain & _ & _ & _ & Hlen & Hall).
  exists arr', chain. split; [exact Hlen | exact Hall].
Defined.

(** A run of X12: the failure over a level 1 of three texels under a base
    of five names level 1, the three texels found and the two expected. *)
Lemma reported_size_mismatch_is_genuine_witness :
  1 <= 5 <= SIZE_MAX /\
  1 <= 1 <= Z.log2 5 /\ 2 = level_width 5 (Z.to_nat 1) /\ 2 = Z.shiftr 5 1 /\ 3 <> 2 /\
  exists a : hipArray_t, array5_bad !! Z.to_nat 1 = Some a /\ Z.of_nat (length a) = 3.
Proof.
  assert (1 <= 5 <= SIZE_MAX) as Hw by (unfold SIZE_MAX; lia).
  split; [exact Hw|].
  exact (proj2 (reported_size_mismatch_is_genuine soft_tex1D soft_tex1D
                  soft_getTypeFromNormalizedFloat
                  uchar hipReadModeElementType hipFilterModePoint hipAddressModeClamp
                  array5_bad 5 [mk_level base5 (mk_hipExtent 5 0 0)] 1 3 2 Hw)
           array5_bad_synthesis).
Defined.

(** A run of X13: an array of base width 5 that ends after level 0. *)
Lemma missing_level_stops_synthesis_witness :
  5 * sizeof uchar <= INT_MAX /\
  1 <= Z.of_nat (length array5_short) <= Z.log2 5 /\
  populateMipmaps soft_tex1D soft_tex1D soft_getTypeFromNormalizedFloat
    uchar hipReadModeElementType hipFilterModePoint hipAddressModeClamp
    array5_short (mk_hipExtent 5 0 0) [mk_level base5 (mk_hipExtent 5 0 0)]
  = Failed (HipCheckFailed (hipGetMipmappedArrayLevel_call 1)).
Proof.
  assert (5 * sizeof uchar <= INT_MAX) as Hsz by (vm_compute; discriminate).
  assert (1 <= Z.of_nat (length array5_short) <= Z.log2 5) as Hlen
    by (vm_compute; split; discriminate).
  assert (forall i : nat, (i < length array5_short)%nat ->
            exists a, array5_short !! i = Some a /\
                      Z.of_nat (length a) = level_width 5 i) as Hgood.
  { intros [|i] Hi; [|simpl in Hi; lia]. eexists. split; reflexivity. }
  split; [exact Hsz|]. split; [exact Hlen|].
  exact (missing_level_stops_synthesis soft_tex1D soft_tex1D
           soft_getTypeFromNormalizedFloat
           uchar hipReadModeElementType hipFilterModePoint hipAddressModeClamp
           array5_short 5 [mk_level base5 (mk_hipExtent 5 0 0)] Hsz Hlen Hgood).
Defined.

(** A run of X15: a level one texel wider than [2^31]. *)
Lemma index_wraps_above_INT_MAX_witness :
  2 ^ 31 < 2 ^ 31 + 1 < 2 ^ 32 /\
  thread_x (2 ^ 27) blockSize_x 0 = - 2 ^ 31 /\
  2 ^ 27 < gridSize_x (2 ^ 31 + 1).
Proof.
  assert (2 ^ 31 < 2 ^ 31 + 1 < 2 ^ 32) as Hw by lia.
  split; [exact Hw|].
  destruct (index_wraps_above_INT_MAX soft_tex1DLod uchar texMipmap5
              (2 ^ 31 + 1) quarter (f32_of_Z 0) (2 ^ 31 + 1) Hw)
    as (Hx & Hgrid & _).
  split; [exact Hx | exact Hgrid].
Defined.

(** A run of X16: level 2 of a texture of base width 5. *)
Lemma verified_lods_within_clamp_witness :
  1 <= 5 < 2 ^ 32 /\ 0 <= 2 < maxLevels 5 /\
  SFleb (f32_of_Z 2)
    (maxMipmapLevelClamp
       (mipmap_texDescr hipReadModeElementType hipFilterModePoint hipAddressModeClamp
          (maxLevels 5))) = true.
Proof.
  assert (1 <= 5 < 2 ^ 32) as Hw by lia.
  assert (0 <= 2 < maxLevels 5) as HL by (vm_compute; split; [discriminate|reflexivity]).
  split; [exact Hw|]. split; [exact HL|].
  exact (verified_lods_within_clamp hipReadModeElementType hipFilterModePoint
           hipAddressModeClamp 5 2 Hw HL).
Defined.

Lemma first_run_in_test_runs : first_run ∈ test_runs.
Proof. apply (list_elem_of_lookup_2 _ 0%nat). reflexivity. Defined.

(** A run of X17: the first section of the first test case. *)
Lemma test_runs_are_in_range_witness :
  first_run ∈ test_runs /\
  1 <= run_width first_run <= 263 /\
  run_width first_run * sizeof (run_T first_run) <= INT_MAX.
Proof.
  split; [exact first_run_in_test_runs|].
  destruct (test_runs_are_in_range first_run first_run_in_test_runs)
    as (Hw & _ & Hsz & _).
  split; [exact Hw | exact Hsz].
Defined.

Lemma first_run_bad_allocation :
  run_test soft_tex1D soft_tex1D soft_tex1DLod
    soft_getTypeFromNormalizedFloat soft_getExpectedValue exact_verify
    getNormalizedFloatType_uchar soft_initVal bad_alloc first_run
  = Failed (NextLevelSizeMismatch 1 12 11).
Proof. vm_compute. reflexivity. Defined.

(** A run of X18: the first section over the allocator that gives level 1
    a texel too many. *)
Lemma every_test_run_is_safe_witness :
  first_run ∈ test_runs /\
  is_memory_fault (NextLevelSizeMismatch 1 12 11) = false /\
  is_level_count_failure (NextLevelSizeMismatch 1 12 11) = false.
Proof.
  split; [exact first_run_in_test_runs|].
  exact (every_test_run_is_safe soft_tex1D soft_tex1D soft_tex1DLod
           soft_getTypeFromNormalizedFloat soft_getExpectedValue exact_verify
           getNormalizedFloatType_uchar soft_initVal bad_alloc first_run _
           first_run_in_test_runs first_run_bad_allocation).
Defined.

(** A run of X19: level 1 of the chain of base width 5. *)
Lemma host_records_mirror_device_levels_witness :
  1 <= 5 /\ 5 * sizeof uchar <= INT_MAX /\ array5 !! 0%nat = Some base5 /\
  synthesized5 !! 1%nat = Some (texels_of [10; 12]) /\
  Z.of_nat (length (texels_of [10; 12])) = 2.
Proof.
  assert (1 <= 5) as Hw by lia.
  assert (5 * sizeof uchar <= INT_MAX) as Hsz by (vm_compute; discriminate).
  assert (array5 !! 0%nat = Some base5) as Hbase by reflexivity.
  split; [exact Hw|]. split; [exact Hsz|]. split; [exact Hbase|].
  exact (host_records_mirror_device_levels soft_tex1D soft_tex1D
           soft_getTypeFromNormalizedFloat
           uchar hipReadModeElementType hipFilterModePoint hipAddressModeClamp
           array5 5 base5 synthesized5 chain5 Hw Hsz Hbase eq_refl array5_synthesis
           1%nat (mk_level (texels_of [10; 12]) (mk_hipExtent 2 0 0)) eq_refl).
Defined.

(** A run of X20: texel 3 of a float level of width 23 holds
    [3 * (3 - 23 + 1) = -57]. *)
Lemma ramp_is_exact_witness :
  1 <= 23 <= 263 /\ 0 <= 3 < 23 /\
  exists v,
    initial_texel soft_initVal float1 hipFilterModeLinear 23 3
    = replicate (Z.to_nat (lane_count (lanes float1))) (FloatChannel v) /\
    SF2Q v = Some (inject_Z (3 * (3 - 23 + 1))).
Proof.
  assert (1 <= 23 <= 263) as Hw by lia.
  assert (0 <= 3 < 23) as Hi by lia.
  split; [exact Hw|]. split; [exact Hi|].
  destruct (proj1 (ramp_is_exact soft_initVal float1 hipFilterModeLinear 23 3 Hw Hi)
              eq_refl) as (v & Hv & Hq & _).
  exists v. split; [exact Hv | exact Hq].
Defined.

Lemma faulty_sampler_test_run :
  testMipmapTextureObj soft_tex1D soft_tex1D faulty_tex1DLod
    soft_getTypeFromNormalizedFloat soft_getExpectedValue exact_verify
    getNormalizedFloatType_uchar soft_initVal soft_alloc
    uchar hipReadModeElementType hipFilterModePoint hipAddressModeClamp 5 quarter
  = Failed (SamplingMismatch
      {| mm_level := f32_of_Z 1; mm_index := 1;
         mm_coord := f32_add (f32_of_Z 1) quarter;
         mm_gpuOutput := [IntChannel 99];
         mm_cpuExpected := [IntChannel 12];
         mm_data := [IntChannel 12] |}).
Proof. vm_compute. reflexivity. Defined.

(** A run of X21: over the allocator that follows the halving rule the test
    case with the faulty sampler fails in verification, not at a size
    check. *)
Lemma halving_allocator_passes_size_checks_witness :
  1 <= 5 /\ 5 * sizeof uchar <= INT_MAX /\
  soft_alloc uchar (mk_hipExtent 5 0 0) (maxLevels 5) = Some zeros5 /\
  is_size_failure
    (SamplingMismatch
       {| mm_level := f32_of_Z 1; mm_index := 1;
          mm_coord := f32_add (f32_of_Z 1) quarter;
          mm_gpuOutput := [IntChannel 99];
          mm_cpuExpected := [IntChannel 12];
          mm_data := [IntChannel 12] |}) = false.
Proof.
  assert (1 <= 5) as Hw by lia.
  assert (5 * sizeof uchar <= INT_MAX) as Hsz by (vm_compute; discriminate).
  assert (soft_alloc uchar (mk_hipExtent 5 0 0) (maxLevels 5) = Some zeros5) as Halloc
    by reflexivity.
  split; [exact Hw|]. split; [exact Hsz|]. split; [exact Halloc|].
  exact (halving_allocator_passes_size_checks soft_tex1D soft_tex1D faulty_tex1DLod
           soft_getTypeFromNormalizedFloat soft_getExpectedValue exact_verify
           getNormalizedFloatType_uchar soft_initVal soft_alloc
           uchar hipReadModeElementType hipFilterModePoint hipAddressModeClamp
           5 quarter zeros5 _ Hw Hsz Halloc zeros5_allocated_by_halving
           faulty_sampler_test_run).
Defined.
